(** * SWISH pipelines: a model of [swish_funcs.c]

    The file embeds [run_piped_command] and [run_pipelined_commands] as
    computations of one process over an explicit process state: the token
    vector, the table of open descriptors, the children that were forked and
    not yet waited for, and the answers the operating system is going to
    give.  A call to [fork] runs the child's branch on a copy of that state,
    so nothing the child does to its tokens or descriptors reaches the
    parent; only the child's terminal status does, through [wait].

    Conventions.
    - [int] values are mathematical integers.  The only arithmetic of the
      source is on stage and endpoint indices, which stay within the range
      of [int] for any vector with fewer than [2 ^ 30] separators (see
      [stage_indices_fit_int]).
    - [perror], [printf] and [free] have no effect on the modelled state and
      are left out.
    - A system call fails exactly when the environment says so; the
      descriptor table is left as it was by a failed call.
    - [int status] is a local variable whose address is taken: as long as
      no [wait] has written it, it holds an indeterminate value, which the
      environment chooses. *)

From Stdlib Require Import String ZArith List Bool Arith Lia.
Import ListNotations.
Local Open Scope Z_scope.

(** ** String vectors *)

Module StrVec.

(** Modelled from the spec: [string_vector.h] is not part of the sources.
    A vector of tokens, in order. *)
Definition strvec_t := list string.

(** Modelled from the spec: [string_vector.h] is not part of the sources.
    The number of tokens equal to [s]. *)
Fixpoint strvec_num_occurrences (v : strvec_t) (s : string) : nat :=
  match v with
  | [] => O
  | x :: r =>
      if String.eqb x s then S (strvec_num_occurrences r s)
      else strvec_num_occurrences r s
  end.

(** Modelled from the spec: [string_vector.h] is not part of the sources.
    The scan behind [strvec_find_last]: [k] is the index of the head of
    [v], [acc] the last match so far. *)
Fixpoint find_last_from (v : strvec_t) (s : string) (k acc : Z) : Z :=
  match v with
  | [] => acc
  | x :: r => find_last_from r s (k + 1) (if String.eqb x s then k else acc)
  end.

(** Modelled from the spec: [string_vector.h] is not part of the sources.
    The index of the last token equal to [s], or [-1]. *)
Definition strvec_find_last (v : strvec_t) (s : string) : Z :=
  find_last_from v s 0 (-1).

(** Modelled from the spec: [string_vector.h] is not part of the sources.
    Truncation to the first [n] tokens. *)
Definition strvec_take (v : strvec_t) (n : Z) : strvec_t :=
  firstn (Z.to_nat n) v.

(** Modelled from the spec: [string_vector.h] is not part of the sources.
    The tokens at positions [start .. stop - 1]. *)
Definition slice (v : strvec_t) (start stop : Z) : strvec_t :=
  firstn (Z.to_nat (stop - start)) (skipn (Z.to_nat start) v).

(** Modelled from the spec: [string_vector.h] is not part of the sources.
    The vector is emptied. *)
Definition strvec_clear (v : strvec_t) : strvec_t := [].

End StrVec.
Import StrVec.

Definition PIPE : string := "|".
Definition STDIN_FILENO : Z := 0.
Definition STDOUT_FILENO : Z := 1.

(** ** Processes *)

(** What [wait] stores in [status]. *)
Inductive wstatus : Type :=
| W_exited (code : Z)
| W_signaled (sig : Z).

Definition WIFEXITED (st : wstatus) : bool :=
  match st with W_exited _ => true | W_signaled _ => false end.

Definition WEXITSTATUS (st : wstatus) : Z :=
  match st with W_exited c => c | W_signaled _ => 0 end.

(** How a child's branch ended. *)
Inductive ending : Type :=
| Ends_exit (code : Z)
| Ends_exec (argv : strvec_t)
| Ends_undef.

Inductive event : Type :=
| EvPipe (r w : Z)
| EvPipeFail
| EvClose (fd : Z) (ok : bool)
| EvDup2 (oldfd newfd : Z) (ok : bool)
| EvFork (stage_end : ending) (st : wstatus)
| EvForkFail
| EvWait (st : wstatus)
| EvRun (argv : strvec_t).

(** The environment of a child: for each kind of call the outcomes of its
    successive calls ([true]: the call fails; past the end of a list calls
    succeed), what [run_command] does ([None]: the program takes the process
    over and never returns; [Some r]: it returns [r]), and the status the
    process ends with once a program has taken it over. *)
Record kid : Type := {
  k_close : list bool;
  k_dup2 : list bool;
  k_slice : list bool;
  k_run : option Z;
  k_fate : wstatus
}.

Record oracle : Type := {
  q_malloc : list bool;
  q_pipe : list bool;
  q_fork : list (option kid);     (* [None]: fork fails *)
  q_close : list bool;
  q_dup2 : list bool;
  q_slice : list bool;
  q_run : option Z;
  q_pick : list nat;              (* which pending child [wait] reports *)
  q_wait : list bool;             (* [true]: [wait] returns -1 *)
  q_status : wstatus              (* what [status] holds before it is written *)
}.

Record proc : Type := {
  tokens : strvec_t;
  fdt : list Z;                   (* the open descriptors *)
  children : list wstatus;        (* forked, not yet waited for *)
  log : list event;               (* newest first *)
  os : oracle
}.

Definition with_tokens (v : strvec_t) (p : proc) : proc :=
  {| tokens := v; fdt := fdt p; children := children p; log := log p; os := os p |}.
Definition with_fdt (f : list Z) (p : proc) : proc :=
  {| tokens := tokens p; fdt := f; children := children p; log := log p; os := os p |}.
Definition with_children (c : list wstatus) (p : proc) : proc :=
  {| tokens := tokens p; fdt := fdt p; children := c; log := log p; os := os p |}.
Definition note (e : event) (p : proc) : proc :=
  {| tokens := tokens p; fdt := fdt p; children := children p; log := e :: log p; os := os p |}.
Definition with_os (o : oracle) (p : proc) : proc :=
  {| tokens := tokens p; fdt := fdt p; children := children p; log := log p; os := o |}.

Definition pop_malloc (o : oracle) : oracle :=
  {| q_malloc := tl (q_malloc o); q_pipe := q_pipe o; q_fork := q_fork o;
     q_close := q_close o; q_dup2 := q_dup2 o; q_slice := q_slice o;
     q_run := q_run o; q_pick := q_pick o;
     q_wait := q_wait o; q_status := q_status o |}.
Definition pop_pipe (o : oracle) : oracle :=
  {| q_malloc := q_malloc o; q_pipe := tl (q_pipe o); q_fork := q_fork o;
     q_close := q_close o; q_dup2 := q_dup2 o; q_slice := q_slice o;
     q_run := q_run o; q_pick := q_pick o;
     q_wait := q_wait o; q_status := q_status o |}.
Definition pop_fork (o : oracle) : oracle :=
  {| q_malloc := q_malloc o; q_pipe := q_pipe o; q_fork := tl (q_fork o);
     q_close := q_close o; q_dup2 := q_dup2 o; q_slice := q_slice o;
     q_run := q_run o; q_pick := q_pick o;
     q_wait := q_wait o; q_status := q_status o |}.
Definition pop_close (o : oracle) : oracle :=
  {| q_malloc := q_malloc o; q_pipe := q_pipe o; q_fork := q_fork o;
     q_close := tl (q_close o); q_dup2 := q_dup2 o; q_slice := q_slice o;
     q_run := q_run o; q_pick := q_pick o;
     q_wait := q_wait o; q_status := q_status o |}.
Definition pop_dup2 (o : oracle) : oracle :=
  {| q_malloc := q_malloc o; q_pipe := q_pipe o; q_fork := q_fork o;
     q_close := q_close o; q_dup2 := tl (q_dup2 o); q_slice := q_slice o;
     q_run := q_run o; q_pick := q_pick o;
     q_wait := q_wait o; q_status := q_status o |}.
Definition pop_slice (o : oracle) : oracle :=
  {| q_malloc := q_malloc o; q_pipe := q_pipe o; q_fork := q_fork o;
     q_close := q_close o; q_dup2 := q_dup2 o; q_slice := tl (q_slice o);
     q_run := q_run o; q_pick := q_pick o;
     q_wait := q_wait o; q_status := q_status o |}.
Definition pop_pick (o : oracle) : oracle :=
  {| q_malloc := q_malloc o; q_pipe := q_pipe o; q_fork := q_fork o;
     q_close := q_close o; q_dup2 := q_dup2 o; q_slice := q_slice o;
     q_run := q_run o; q_pick := tl (q_pick o);
     q_wait := q_wait o; q_status := q_status o |}.
Definition pop_wait (o : oracle) : oracle :=
  {| q_malloc := q_malloc o; q_pipe := q_pipe o; q_fork := q_fork o;
     q_close := q_close o; q_dup2 := q_dup2 o; q_slice := q_slice o;
     q_run := q_run o; q_pick := q_pick o;
     q_wait := tl (q_wait o); q_status := q_status o |}.

(** ** The monad of one process *)

Inductive result (A : Type) : Type :=
| Ret (a : A)                     (* the code goes on with [a] *)
| Exit (code : Z)                 (* [exit (code)] *)
| Exec (argv : strvec_t)          (* a program replaced the process *)
| Undef.                          (* a read outside an array, or of a cell
                                     never written *)
Arguments Ret {A} a.
Arguments Exit {A} code.
Arguments Exec {A} argv.
Arguments Undef {A}.

Definition M (A : Type) : Type := proc -> result A * proc.

Definition ret {A} (a : A) : M A := fun p => (Ret a, p).

Definition bind {A B} (m : M A) (f : A -> M B) : M B :=
  fun p =>
    match m p with
    | (Ret a, p') => f a p'
    | (Exit c, p') => (Exit c, p')
    | (Exec v, p') => (Exec v, p')
    | (Undef, p') => (Undef, p')
    end.

Notation "x <- m ;; k" := (bind m (fun x => k))
  (at level 61, m at next level, right associativity).
Notation "m ;; k" := (bind m (fun _ => k))
  (at level 61, right associativity).

Definition exit {A} (code : Z) : M A := fun p => (Exit code, p).
Definition undef {A} : M A := fun p => (Undef, p).
Definition get_tokens : M strvec_t := fun p => (Ret (tokens p), p).
Definition set_tokens (v : strvec_t) : M unit := fun p => (Ret tt, with_tokens v p).

(** ** Memory: the array of descriptors *)

(** An [int] array from [malloc]; [None] is a cell never written. *)
Definition array : Type := list (option Z).

Definition load (a : array) (k : Z) : M Z :=
  fun p =>
    if k <? 0 then (Undef, p)
    else match nth_error a (Z.to_nat k) with
         | Some (Some v) => (Ret v, p)
         | _ => (Undef, p)
         end.

Fixpoint store (a : array) (k : nat) (v : Z) : array :=
  match a, k with
  | [], _ => []
  | _ :: r, O => Some v :: r
  | x :: r, S k' => x :: store r k' v
  end.

(** [malloc (n * sizeof (int))]: [NULL], or [n] cells never written. *)
Definition malloc_ints (n : nat) : M (option array) :=
  fun p =>
    let p' := with_os (pop_malloc (os p)) p in
    if hd false (q_malloc (os p)) then (Ret None, p')
    else (Ret (Some (repeat None n)), p').

(** ** System calls *)

Fixpoint lowest_free (fuel : nat) (n : Z) (open : list Z) : Z :=
  match fuel with
  | O => n
  | S f => if existsb (Z.eqb n) open then lowest_free f (n + 1) open else n
  end.

Definition fresh_fd (open : list Z) : Z := lowest_free (S (length open)) 0 open.

(** [pipe (a + off)]: the read end goes to [a[off]], the write end to
    [a[off + 1]]. *)
Definition sys_pipe (a : array) (off : nat) : M (Z * array) :=
  fun p =>
    let p' := with_os (pop_pipe (os p)) p in
    if hd false (q_pipe (os p)) then (Ret (-1, a), note EvPipeFail p')
    else if (length a <? off + 2)%nat then (Undef, p')
    else
      let r := fresh_fd (fdt p) in
      let w := fresh_fd (r :: fdt p) in
      (Ret (0, store (store a off r) (S off) w),
       note (EvPipe r w) (with_fdt (w :: r :: fdt p) p')).

Definition sys_close (fd : Z) : M Z :=
  fun p =>
    let p' := with_os (pop_close (os p)) p in
    if hd false (q_close (os p)) then (Ret (-1), note (EvClose fd false) p')
    else (Ret 0, note (EvClose fd true) (with_fdt (remove Z.eq_dec fd (fdt p)) p')).

Definition sys_dup2 (oldfd newfd : Z) : M Z :=
  fun p =>
    let p' := with_os (pop_dup2 (os p)) p in
    if hd false (q_dup2 (os p)) then (Ret (-1), note (EvDup2 oldfd newfd false) p')
    else (Ret newfd,
          note (EvDup2 oldfd newfd true)
            (with_fdt (newfd :: remove Z.eq_dec newfd (fdt p)) p')).

Definition default_kid : kid :=
  {| k_close := []; k_dup2 := []; k_slice := []; k_run := None;
     k_fate := W_exited 0 |}.

(** The child starts as a copy of its parent, with an environment of its
    own, no children and an empty log. *)
Definition child_of (p : proc) (k : kid) : proc :=
  {| tokens := tokens p; fdt := fdt p; children := []; log := [];
     os := {| q_malloc := []; q_pipe := []; q_fork := [];
              q_close := k_close k; q_dup2 := k_dup2 k; q_slice := k_slice k;
              q_run := k_run k; q_pick := []; q_wait := [];
              q_status := W_exited 0 |} |}.

Definition ending_of (r : result Empty_set) : ending :=
  match r with
  | Ret e => match e with end
  | Exit c => Ends_exit c
  | Exec v => Ends_exec v
  | Undef => Ends_undef
  end.

(** The status [wait] reports for a child: the low eight bits of its exit
    code, or whatever becomes of the program that took it over.  A child
    whose behaviour is undefined ends as the environment chooses, too. *)
Definition terminal (e : ending) (k : kid) : wstatus :=
  match e with
  | Ends_exit c => W_exited (Z.land c 255)
  | Ends_exec _ => k_fate k
  | Ends_undef => k_fate k
  end.

(** [fork ()], seen from the parent: [-1], or the child's pid once the
    child, running [branch] (the code under [child_pid == 0]), is on its
    way.  The branch never falls through: it ends in [exit]. *)
Definition sys_fork (branch : M Empty_set) : M Z :=
  fun p =>
    let p' := with_os (pop_fork (os p)) p in
    match hd (Some default_kid) (q_fork (os p)) with
    | None => (Ret (-1), note EvForkFail p')
    | Some k =>
        let e := ending_of (fst (branch (child_of p k))) in
        let st := terminal e k in
        (Ret (Z.of_nat (S (length (children p)))),
         note (EvFork e st) (with_children (children p ++ [st]) p'))
    end.

Fixpoint take_out {A} (k : nat) (l : list A) : option (A * list A) :=
  match l with
  | [] => None
  | x :: r =>
      match k with
      | O => Some (x, r)
      | S k' =>
          match take_out k' r with
          | Some (y, r') => Some (y, x :: r')
          | None => None
          end
      end
  end.

(** [wait (&status)]: the value of [status] afterwards; the source ignores
    what the call returns.  The call fails when the environment says so
    (an interrupted call, say) and when no child is left; [status] is not
    written then and stays as it was, unset ([None]) if no call has written
    it yet. *)
Definition sys_wait (status : option wstatus) : M (option wstatus) :=
  fun p =>
    let p0 := with_os (pop_wait (os p)) p in
    if hd false (q_wait (os p)) then (Ret status, p0)
    else
      let k := (hd O (q_pick (os p)) mod length (children p))%nat in
      match take_out k (children p) with
      | None => (Ret status, p0)
      | Some (st, rest) =>
          (Ret (Some st),
           note (EvWait st) (with_children rest (with_os (pop_pick (os p0)) p0)))
      end.

(** The value of [int status] where the loop tests it: what the last
    successful [wait] stored or, when none has written it, the indeterminate
    value the variable happens to hold. *)
Definition read_status (status : option wstatus) : M wstatus :=
  fun p =>
    (Ret (match status with Some st => st | None => q_status (os p) end), p).

(** Modelled from the spec: [run_command], the single-command executor, is
    outside [swish_funcs.c].  It replaces the process by the program and
    never returns, or it returns a value chosen by the environment. *)
Definition run_command (v : strvec_t) : M Z :=
  fun p =>
    match q_run (os p) with
    | None => (Exec v, note (EvRun v) p)
    | Some r => (Ret r, note (EvRun v) p)
    end.

(** Modelled from the spec: [string_vector.h] is not part of the sources.
    [strvec_slice (src, &dest, start, stop)]: [-1], or [0] with the slice in
    [dest]. *)
Definition strvec_slice (v : strvec_t) (start stop : Z) : M (Z * strvec_t) :=
  fun p =>
    let p' := with_os (pop_slice (os p)) p in
    if hd false (q_slice (os p)) then (Ret (-1, []), p')
    else (Ret (0, slice v start stop), p').

(** ** [run_piped_command] *)

(** The two guarded closes that the source repeats on each of its error
    paths: [if (in_idx > -1) close (pipes[in_idx])], then the same for
    [out_idx]; a failure is only printed. *)
Definition close_own (pipes : array) (in_idx out_idx : Z) : M unit :=
  (if in_idx >? -1
   then fd <- load pipes in_idx ;; _ <- sys_close fd ;; ret tt
   else ret tt) ;;
  (if out_idx >? -1
   then fd <- load pipes out_idx ;; _ <- sys_close fd ;; ret tt
   else ret tt).

Definition run_piped_command (toks : strvec_t) (pipes : array) (n_pipes : nat)
    (in_idx out_idx : Z) : M Z :=
  bad_in <- (if in_idx >? -1
             then fd <- load pipes in_idx ;;
                  c <- sys_dup2 fd STDIN_FILENO ;; ret (c =? -1)
             else ret false) ;;
  if bad_in then ret (-1) else
  bad_out <- (if out_idx >? -1
              then fd <- load pipes out_idx ;;
                   c <- sys_dup2 fd STDOUT_FILENO ;; ret (c =? -1)
              else ret false) ;;
  if bad_out then ret (-1) else
  rc <- run_command toks ;;
  if rc =? -1 then
    close_own pipes in_idx out_idx ;; ret (-1)
  else
    (* close read/write of pipes we actually used *)
    rv <- (if in_idx >? -1
           then fd <- load pipes in_idx ;; c <- sys_close fd ;;
                if c =? -1
                then fd' <- load pipes in_idx ;; _ <- sys_close fd' ;; ret 1
                else ret 0
           else ret 0) ;;
    (if out_idx >? -1
     then fd <- load pipes out_idx ;; c <- sys_close fd ;;
          if c =? -1
          then fd' <- load pipes out_idx ;; _ <- sys_close fd' ;; ret 1
          else ret rv
     else ret rv).

(** ** The child's branch of [run_pipelined_commands] *)

(** [for (k = ...; k < 2 * num_pipes; k++) if (close (pipe_fds[k]) == -1) exit (1);]
    with [n] iterations to go. *)
Fixpoint close_rest (pipe_fds : array) (k n : nat) : M unit :=
  match n with
  | O => ret tt
  | S n' =>
      fd <- load pipe_fds (Z.of_nat k) ;;
      c <- sys_close fd ;;
      if c =? -1 then exit 1 else close_rest pipe_fds (S k) n'
  end.

(** The loop that closes all but the two pipe ends the stage needs, at
    index [j] with [n] iterations to go. *)
Fixpoint close_unused (pipe_fds : array) (num_pipes : nat) (in_idx out_idx : Z)
    (j n : nat) : M unit :=
  match n with
  | O => ret tt
  | S n' =>
      let r := 2 * Z.of_nat j in
      let w := 2 * Z.of_nat j + 1 in
      bad <- (if negb (r =? in_idx)
              then fd <- load pipe_fds r ;; c <- sys_close fd ;; ret (c =? -1)
              else ret false) ;;
      if bad then
        close_rest pipe_fds (2 * j) (2 * num_pipes - 2 * j) ;; exit 1
      else
        bad' <- (if negb (w =? out_idx)
                 then fd <- load pipe_fds w ;; c <- sys_close fd ;; ret (c =? -1)
                 else ret false) ;;
        if bad' then
          close_rest pipe_fds (2 * j + 1) (2 * num_pipes - (2 * j + 1)) ;; exit 1
        else close_unused pipe_fds num_pipes in_idx out_idx (S j) n'
  end.

(** [while (tokenator > i)], with [n = tokenator - i]: chops the last
    command off the child's copy of the tokens; the value is
    [end_target_token]. *)
Fixpoint trim (pipe_fds : array) (in_idx out_idx : Z) (end_target_token : Z)
    (n : nat) : M Z :=
  match n with
  | O => ret end_target_token
  | S n' =>
      toks <- get_tokens ;;
      let idx := strvec_find_last toks PIPE in
      if idx =? -1 then
        set_tokens (strvec_clear toks) ;;
        close_own pipe_fds in_idx out_idx ;;
        exit 1
      else
        set_tokens (strvec_take toks idx) ;;
        trim pipe_fds in_idx out_idx idx n'
  end.

(** The child once its descriptors are cleaned up: "trim tokens, extract the
    command token, call run_piped_command". *)
Definition trim_and_run (pipe_fds : array) (num_pipes i : nat)
    (in_idx out_idx : Z) : M Empty_set :=
  toks0 <- get_tokens ;;
  end_target_token <-
    trim pipe_fds in_idx out_idx (Z.of_nat (length toks0)) (num_pipes - i) ;;
  toks <- get_tokens ;;
  let remaining := strvec_num_occurrences toks PIPE in
  (if (0 <? remaining)%nat then
     let idx := strvec_find_last toks PIPE + 1 in
     s <- strvec_slice toks idx end_target_token ;;
     if fst s =? -1 then
       close_own pipe_fds in_idx out_idx ;; exit 1
     else
       r <- run_piped_command (snd s) pipe_fds num_pipes in_idx out_idx ;;
       if r =? -1 then close_own pipe_fds in_idx out_idx ;; exit 1
       else ret tt
   else
     r <- run_piped_command toks pipe_fds num_pipes in_idx out_idx ;;
     if r =? -1 then
       set_tokens (strvec_clear toks) ;;
       close_own pipe_fds in_idx out_idx ;; exit 1
     else ret tt) ;;
  (* exit normally unless failed to close in_idx/out_idx *)
  exit 0.

(** The code under [child_pid == 0]: the cleanup loop, then the rest. *)
Definition child_branch (pipe_fds : array) (num_pipes i : nat)
    (in_idx out_idx : Z) : M Empty_set :=
  close_unused pipe_fds num_pipes in_idx out_idx 0 num_pipes ;;
  trim_and_run pipe_fds num_pipes i in_idx out_idx.

(** ** The parent's side of [run_pipelined_commands] *)

(** [for (j = 0; j < i; j++)] after a failed [pipe]: [Some r] when the
    function returns [r] from inside the loop. *)
Fixpoint close_created (pipe_fds : array) (j n : nat) : M (option Z) :=
  match n with
  | O => ret None
  | S n' =>
      fd <- load pipe_fds (2 * Z.of_nat j) ;;
      c <- sys_close fd ;;
      if c =? -1 then ret (Some (-1)) else
      fd' <- load pipe_fds (2 * Z.of_nat j + 1) ;;
      c' <- sys_close fd' ;;
      if c' =? -1 then ret (Some (-1)) else close_created pipe_fds (S j) n'
  end.

(** [for (i = ...; i < num_pipes; i++) pipe (pipe_fds + 2 * i)], with [n]
    iterations to go: the filled array, or the value the function returns. *)
Fixpoint setup_pipes (pipe_fds : array) (i n : nat) : M (Z + array) :=
  match n with
  | O => ret (inr pipe_fds)
  | S n' =>
      ca <- sys_pipe pipe_fds (2 * i) ;;
      if fst ca =? -1 then
        _ <- close_created (snd ca) 0 i ;; ret (inl (-1))
      else setup_pipes (snd ca) (S i) n'
  end.

(** The values passed to [run_piped_command] for command [i]. *)
Definition stage_indices (num_pipes i : Z) : Z * Z :=
  let in_idx := 2 * (i - 1) in
  let out_idx := 2 * (i + 1) - 1 in
  if i =? 0 then (-1, out_idx)
  else if i =? num_pipes then (in_idx, -1)
  else (in_idx, out_idx).

(** The loop under [child_pid == -1]. *)
Fixpoint fork_failed (pipe_fds : array) (j n : nat) : M unit :=
  match n with
  | O => ret tt
  | S n' =>
      fd <- load pipe_fds (2 * Z.of_nat j) ;;
      c <- sys_close fd ;;
      if c =? -1 then exit 1 else
      fd' <- load pipe_fds (2 * Z.of_nat j + 1) ;;
      c' <- sys_close fd' ;;
      if c' =? -1 then exit 1 else fork_failed pipe_fds (S j) n'
  end.

Definition fork_stage (pipe_fds : array) (num_pipes i : nat) : M unit :=
  let idx := stage_indices (Z.of_nat num_pipes) (Z.of_nat i) in
  child_pid <- sys_fork (child_branch pipe_fds num_pipes i (fst idx) (snd idx)) ;;
  if child_pid =? -1 then
    fork_failed pipe_fds 0 num_pipes ;; exit 1
  else ret tt.

(** [for (i = num_pipes; i >= 0; i--)], at index [i]. *)
Fixpoint fork_loop (pipe_fds : array) (num_pipes i : nat) : M unit :=
  fork_stage pipe_fds num_pipes i ;;
  match i with
  | O => ret tt
  | S i' => fork_loop pipe_fds num_pipes i'
  end.

(** "close all pipes in parent ASAP": [Some r] when the function returns
    [r] from inside the loop. *)
Fixpoint parent_sweep (pipe_fds : array) (i n : nat) : M (option Z) :=
  match n with
  | O => ret None
  | S n' =>
      fd <- load pipe_fds (Z.of_nat i) ;;
      c <- sys_close fd ;;
      if c =? -1 then
        fd' <- load pipe_fds (Z.of_nat i) ;; _ <- sys_close fd' ;;
        ret (Some (-1))
      else parent_sweep pipe_fds (S i) n'
  end.

(** "wait for all children to finish, check their exit status for errors",
    with [n] iterations to go. *)
Fixpoint wait_loop (n : nat) (status : option wstatus) (ret_val : Z) : M Z :=
  match n with
  | O => ret ret_val
  | S n' =>
      status' <- sys_wait status ;;
      st <- read_status status' ;;
      let ret_val' :=
        if WIFEXITED st
        then (if negb (WEXITSTATUS st =? 0) then -1 else ret_val)
        else -1 in
      wait_loop n' status' ret_val'
  end.

(** Everything up to and including the parent's sweep of its descriptors:
    [Some r] when the function returns [r] there, [None] when control reaches
    the wait loop. *)
Definition spawn_phase (num_pipes : nat) : M (option Z) :=
  m <- malloc_ints (2 * num_pipes) ;;
  match m with
  | None => ret (Some (-1))
  | Some fresh =>
      s <- setup_pipes fresh 0 num_pipes ;;
      match s with
      | inl r => ret (Some r)
      | inr pipe_fds =>
          fork_loop pipe_fds num_pipes num_pipes ;;
          parent_sweep pipe_fds 0 (2 * num_pipes)
      end
  end.

Definition run_pipelined_commands : M Z :=
  toks <- get_tokens ;;
  let num_pipes := strvec_num_occurrences toks PIPE in
  early <- spawn_phase num_pipes ;;
  match early with
  | Some r => ret r
  | None => wait_loop (S num_pipes) None 0
  end.

(** ** Running the model *)

(** The environment in which no call fails, every program starts and every
    child ends with status 0. *)
Definition quiet : oracle :=
  {| q_malloc := []; q_pipe := []; q_fork := []; q_close := []; q_dup2 := [];
     q_slice := []; q_run := None; q_pick := []; q_wait := [];
     q_status := W_exited 0 |}.

(** A shell with its three standard descriptors and no children. *)
Definition shell (toks : strvec_t) (o : oracle) : proc :=
  {| tokens := toks; fdt := [0; 1; 2]; children := []; log := []; os := o |}.

(** How many contexts were spawned, how many were collected. *)
Definition forked (l : list event) : nat :=
  length (filter (fun e => match e with EvFork _ _ => true | _ => false end) l).

Definition waited (l : list event) : nat :=
  length (filter (fun e => match e with EvWait _ => true | _ => false end) l).

(** The shape the interface expects of the tokens, in the words of the
    specification: a separator at position 0, a separator as the last token,
    or two separators in a row make the sequence malformed. *)
Fixpoint doubled_separator (v : strvec_t) : bool :=
  match v with
  | x :: ((y :: _) as r) => (String.eqb x PIPE && String.eqb y PIPE) || doubled_separator r
  | _ => false
  end.

Definition malformed (v : strvec_t) : bool :=
  match v with
  | [] => true
  | x :: _ => String.eqb x PIPE || String.eqb (last v x) PIPE || doubled_separator v
  end.

(** ** Vocabulary of the properties *)

(** [keeps R m]: whatever [m] does and however it ends, the state it leaves
    is related by [R] to the one it started from. *)
Definition keeps (R : proc -> proc -> Prop) {A} (m : M A) : Prop :=
  forall p, R p (snd (m p)).

(** The caller's tokens are as they were. *)
Definition same_tokens (p p' : proc) : Prop := tokens p' = tokens p.

(** Nothing was spawned and nothing collected. *)
Definition calm (p p' : proc) : Prop :=
  children p' = children p /\
  forked (log p') = forked (log p) /\
  waited (log p') = waited (log p).

Definition forked_same (p p' : proc) : Prop := forked (log p') = forked (log p).

(** The descriptor pairs of the pipes made so far. *)
Definition created (l : list event) : list (Z * Z) :=
  flat_map (fun e => match e with EvPipe r w => [(r, w)] | _ => [] end) l.

Definition created_same (p p' : proc) : Prop :=
  created (log p') = created (log p).

(** Where [pipe (pipe_fds + 2 * ch)] puts the two ends of channel [ch]. *)
Definition read_end (ch : Z) : Z := 2 * ch.
Definition write_end (ch : Z) : Z := 2 * ch + 1.

(** A child that exited normally with status 0. *)
Definition succeeded (st : wstatus) : bool :=
  match st with
  | W_exited c => c =? 0
  | W_signaled _ => false
  end.

(** The first [n] cells of the array hold descriptors. *)
Definition filled (a : array) (n : nat) : Prop :=
  forall k, (k < n)%nat -> exists fd, nth_error a k = Some (Some fd).

Definition is_some {A} (o : option A) : bool :=
  match o with Some _ => true | None => false end.

(** ** Environments used in the examples *)

Definition with_q_close (l : list bool) (o : oracle) : oracle :=
  {| q_malloc := q_malloc o; q_pipe := q_pipe o; q_fork := q_fork o;
     q_close := l; q_dup2 := q_dup2 o; q_slice := q_slice o;
     q_run := q_run o; q_pick := q_pick o;
     q_wait := q_wait o; q_status := q_status o |}.
Definition with_q_fork (l : list (option kid)) (o : oracle) : oracle :=
  {| q_malloc := q_malloc o; q_pipe := q_pipe o; q_fork := l;
     q_close := q_close o; q_dup2 := q_dup2 o; q_slice := q_slice o;
     q_run := q_run o; q_pick := q_pick o;
     q_wait := q_wait o; q_status := q_status o |}.
Definition with_q_pipe (l : list bool) (o : oracle) : oracle :=
  {| q_malloc := q_malloc o; q_pipe := l; q_fork := q_fork o;
     q_close := q_close o; q_dup2 := q_dup2 o; q_slice := q_slice o;
     q_run := q_run o; q_pick := q_pick o;
     q_wait := q_wait o; q_status := q_status o |}.

Definition with_q_wait (l : list bool) (o : oracle) : oracle :=
  {| q_malloc := q_malloc o; q_pipe := q_pipe o; q_fork := q_fork o;
     q_close := q_close o; q_dup2 := q_dup2 o; q_slice := q_slice o;
     q_run := q_run o; q_pick := q_pick o;
     q_wait := l; q_status := q_status o |}.

(** A child to which [run_command] returns -1: the program is not
    started. *)
Definition refused_kid : kid :=
  {| k_close := []; k_dup2 := []; k_slice := []; k_run := Some (-1);
     k_fate := W_exited 0 |}.

(** A child whose [run_command] comes back with 0 and whose second [close]
    fails; for stage 0 of [ls | wc] the first [close] is that of the unused
    read end, the second that of its own write end. *)
Definition stubborn_kid : kid :=
  {| k_close := [false; true]; k_dup2 := []; k_slice := []; k_run := Some 0;
     k_fate := W_exited 0 |}.

(** ** Vocabulary of the further properties *)

(** None of the descriptors of [F] is closed. *)
Definition spares (F : list Z) (p p' : proc) : Prop :=
  incl F (fdt p) -> incl F (fdt p').

(** The descriptor table is as it was. *)
Definition same_fdt (p p' : proc) : Prop := fdt p' = fdt p.

(** No descriptor held in the array belongs to [F]. *)
Definition outside (a : array) (F : list Z) : Prop :=
  forall k fd, nth_error a k = Some (Some fd) -> ~ In fd F.

(** The stages of a token sequence: the runs of tokens between one
    separator and the next. *)
Fixpoint segments (v : strvec_t) : list strvec_t :=
  match v with
  | [] => [[]]
  | x :: r =>
      if String.eqb x PIPE then [] :: segments r
      else match segments r with
           | s :: ss => (x :: s) :: ss
           | [] => [[x]]
           end
  end.

(** [m] never hands the process over to a program; [m] hands it over, if
    at all, to the program of [v]. *)
Definition never_execs {A} (m : M A) : Prop :=
  forall p w q, m p <> (Exec w, q).

Definition execs_only (v : strvec_t) {A} (m : M A) : Prop :=
  forall p w q, m p = (Exec w, q) -> w = v.

(** How the spawned contexts ended, the latest first. *)
Definition spawned (l : list event) : list ending :=
  flat_map (fun e => match e with EvFork e' _ => [e'] | _ => [] end) l.

Definition spawned_same (p p' : proc) : Prop :=
  spawned (log p') = spawned (log p).

(** An environment in which no [close], [dup2] or [strvec_slice] fails and
    the program of [run_command] starts. *)
Definition smooth (o : oracle) : Prop :=
  forallb negb (q_close o) = true /\
  forallb negb (q_dup2 o) = true /\
  forallb negb (q_slice o) = true /\
  q_run o = None.

Definition stays_smooth (p p' : proc) : Prop :=
  smooth (os p) -> smooth (os p').

(** A [fork] that succeeds, with a child in such an environment. *)
Definition good_kid (k : kid) : bool :=
  forallb negb (k_close k) && forallb negb (k_dup2 k) &&
  forallb negb (k_slice k) &&
  match k_run k with None => true | Some _ => false end.

Definition good_fork (o : option kid) : bool :=
  match o with Some k => good_kid k | None => false end.

(** No descriptor is closed. *)
Definition grows (p p' : proc) : Prop := incl (fdt p) (fdt p').

(** Every descriptor open now was open before, or is one of the two
    standard ones onto which [dup2] puts a pipe end. *)
Definition opens_only_std (p p' : proc) : Prop :=
  forall fd, In fd (fdt p') ->
             In fd (fdt p) \/ fd = STDIN_FILENO \/ fd = STDOUT_FILENO.

(** What the guarded close of a designated endpoint puts on record: nothing
    for the index -1, else one [close] of the descriptor at the index. *)
Definition own_close (a : array) (idx : Z) (ok : bool) : list event :=
  if idx >? -1
  then match nth_error a (Z.to_nat idx) with
       | Some (Some fd) => [EvClose fd ok]
       | _ => []
       end
  else [].

(** The answers the calls of [wait] are going to get are as they were. *)
Definition same_waits (p p' : proc) : Prop := q_wait (os p') = q_wait (os p).

(** Every spawning on record was on record before. *)
Definition no_new_fork (p p' : proc) : Prop :=
  forall e st, In (EvFork e st) (log p') -> In (EvFork e st) (log p).

(** The spawnings on record, the latest first. *)
Definition forks (l : list event) : list event :=
  filter (fun e => match e with EvFork _ _ => true | _ => false end) l.

(** * Properties *)

(** ** Frame conditions *)

Section Frame.

Variable R : proc -> proc -> Prop.
Hypothesis R_refl : forall p, R p p.
Hypothesis R_trans : forall p q r, R p q -> R q r -> R p r.

Lemma keeps_ret {A} (a : A) : keeps R (ret a).
Proof. intro p; apply R_refl. Qed.

Lemma keeps_exit {A} (c : Z) : keeps R (@exit A c).
Proof. intro p; apply R_refl. Qed.

Lemma keeps_undef {A} : keeps R (@undef A).
Proof. intro p; apply R_refl. Qed.

Lemma keeps_get_tokens : keeps R get_tokens.
Proof. intro p; apply R_refl. Qed.

Lemma keeps_load (a : array) (k : Z) : keeps R (load a k).
Proof.
  intro p; unfold load.
  destruct (k <? 0); [apply R_refl|].
  destruct (nth_error a (Z.to_nat k)) as [[v|]|]; apply R_refl.
Qed.

Lemma keeps_read_status (st : option wstatus) : keeps R (read_status st).
Proof. intro p; apply R_refl. Qed.

Lemma keeps_bind {A B} (m : M A) (f : A -> M B) :
  keeps R m -> (forall a, keeps R (f a)) -> keeps R (bind m f).
Proof.
  intros Hm Hf p. unfold bind.
  specialize (Hm p).
  destruct (m p) as [[a|c|v|] q]; simpl in *; auto.
  eapply R_trans; [exact Hm | apply Hf].
Qed.

Lemma keeps_if {A} (b : bool) (m1 m2 : M A) :
  keeps R m1 -> keeps R m2 -> keeps R (if b then m1 else m2).
Proof. destruct b; auto. Qed.

End Frame.

Create HintDb frame.

#[local] Hint Resolve keeps_ret keeps_exit keeps_undef keeps_get_tokens
  keeps_load keeps_read_status keeps_bind keeps_if : frame.

(** Repeated step of a frame proof: split binds and conditionals, close the
    leaves with the lemmas on the primitives. *)
Ltac frame_step :=
  match goal with
  | |- _ => solve [eauto with frame nocore]
  | |- forall _, _ => intro
  | |- keeps _ (bind _ _) => apply keeps_bind
  | |- keeps _ (if ?b then _ else _) => apply keeps_if
  | |- keeps _ (match ?x with Some _ => _ | None => _ end) => destruct x
  | |- keeps _ (match ?x with inl _ => _ | inr _ => _ end) => destruct x
  | |- keeps _ (match ?x with O => _ | S _ => _ end) => destruct x
  end.
Ltac frame := repeat frame_step.

(** *** The parent's tokens *)

Lemma same_tokens_refl p : same_tokens p p.
Proof. reflexivity. Qed.

Lemma same_tokens_trans p q r : same_tokens p q -> same_tokens q r -> same_tokens p r.
Proof. unfold same_tokens; congruence. Qed.

#[local] Hint Resolve same_tokens_refl same_tokens_trans : frame.

Lemma tokens_malloc n : keeps same_tokens (malloc_ints n).
Proof. intro p; unfold malloc_ints; destruct (hd false _); reflexivity. Qed.

Lemma tokens_pipe a off : keeps same_tokens (sys_pipe a off).
Proof.
  intro p; unfold sys_pipe.
  destruct (hd false _); [reflexivity|].
  destruct (_ <? _)%nat; reflexivity.
Qed.

Lemma tokens_close fd : keeps same_tokens (sys_close fd).
Proof. intro p; unfold sys_close; destruct (hd false _); reflexivity. Qed.

Lemma tokens_fork branch : keeps same_tokens (sys_fork branch).
Proof.
  intro p; unfold sys_fork.
  destruct (hd (Some default_kid) _); reflexivity.
Qed.

Lemma tokens_wait st : keeps same_tokens (sys_wait st).
Proof.
  intro p; unfold sys_wait.
  destruct (hd false _); [reflexivity|].
  destruct (take_out _ _) as [[s r]|]; reflexivity.
Qed.

#[local] Hint Resolve tokens_malloc tokens_pipe tokens_close tokens_fork
  tokens_wait : frame.

Lemma tokens_close_created a n : forall j, keeps same_tokens (close_created a j n).
Proof. induction n; intro j; simpl; frame. Qed.

Lemma tokens_setup_pipes n : forall a i, keeps same_tokens (setup_pipes a i n).
Proof.
  induction n; intros a i; simpl; frame.
  apply tokens_close_created.
Qed.

Lemma tokens_fork_failed a n : forall j, keeps same_tokens (fork_failed a j n).
Proof. induction n; intro j; simpl; frame. Qed.

Lemma tokens_fork_loop a N i : keeps same_tokens (fork_loop a N i).
Proof.
  induction i; simpl; unfold fork_stage; frame; apply tokens_fork_failed.
Qed.

Lemma tokens_parent_sweep a n : forall i, keeps same_tokens (parent_sweep a i n).
Proof. induction n; intro i; simpl; frame. Qed.

Lemma tokens_wait_loop n : forall st rv, keeps same_tokens (wait_loop n st rv).
Proof. induction n; intros st rv; simpl; frame. Qed.

#[local] Hint Resolve tokens_setup_pipes tokens_fork_loop tokens_parent_sweep
  tokens_wait_loop : frame.

Lemma tokens_spawn_phase N : keeps same_tokens (spawn_phase N).
Proof. unfold spawn_phase; frame. Qed.

Lemma tokens_run_pipelined_commands : keeps same_tokens run_pipelined_commands.
Proof.
  unfold run_pipelined_commands; frame.
  apply tokens_spawn_phase.
Qed.

(** The child, on its side, does cut its own copy: stage 0 of [a | b]
    leaves [a] alone in the child's vector. *)
Example child_trims_its_copy :
  tokens (snd (trim [Some 3; Some 4] (-1) 1 3 1
                 (child_of (shell ["a"; "|"; "b"]%string quiet) default_kid)))
  = ["a"%string].
Proof. reflexivity. Qed.

(** ** Endpoint indices *)

Lemma store_length a k v : length (store a k v) = length a.
Proof.
  revert k; induction a as [|x r IH]; intros [|k]; simpl; auto.
Qed.

Lemma store_same a k v : (k < length a)%nat -> nth_error (store a k v) k = Some (Some v).
Proof.
  revert k; induction a as [|x r IH]; intros [|k] H; simpl in *; try lia; auto.
  apply IH; lia.
Qed.

Lemma store_other a k k' v : k <> k' -> nth_error (store a k v) k' = nth_error a k'.
Proof.
  revert k k'; induction a as [|x r IH]; intros [|k] [|k'] H; simpl; auto;
    try congruence.
Qed.

Lemma pipe_cells a i r w :
  (2 * i + 2 <= length a)%nat ->
  let a1 := store (store a (2 * i) r) (S (2 * i)) w in
  nth_error a1 (2 * i) = Some (Some r) /\
  nth_error a1 (2 * i + 1) = Some (Some w) /\
  forall k, (k < 2 * i)%nat -> nth_error a1 k = nth_error a k.
Proof.
  intros Hl a1. subst a1. repeat split.
  - rewrite store_other by lia. apply store_same; lia.
  - replace (2 * i + 1)%nat with (S (2 * i)) by lia.
    apply store_same. rewrite store_length; lia.
  - intros k Hk. rewrite !store_other by lia. reflexivity.
Qed.

(** A successful [pipe] for channel [ch] logs the two descriptors it made
    and leaves the read end at [read_end ch], the write end at
    [write_end ch]. *)
Lemma pipe_layout (a a' : array) (ch : nat) (c : Z) (p p' : proc) :
  sys_pipe a (2 * ch) p = (Ret (c, a'), p') ->
  c <> -1 ->
  exists r w,
    log p' = EvPipe r w :: log p /\
    nth_error a' (Z.to_nat (read_end (Z.of_nat ch))) = Some (Some r) /\
    nth_error a' (Z.to_nat (write_end (Z.of_nat ch))) = Some (Some w).
Proof.
  unfold sys_pipe, read_end, write_end. intros H Hc.
  destruct (hd false (q_pipe (os p))).
  { inversion H; subst; congruence. }
  destruct (length a <? 2 * ch + 2)%nat eqn:Hlen; [discriminate|].
  apply Nat.ltb_ge in Hlen.
  inversion H; subst; clear H.
  exists (fresh_fd (fdt p)), (fresh_fd (fresh_fd (fdt p) :: fdt p)).
  split; [reflexivity|].
  replace (Z.to_nat (2 * Z.of_nat ch)) with (2 * ch)%nat by lia.
  replace (Z.to_nat (2 * Z.of_nat ch + 1)) with (S (2 * ch))%nat by lia.
  split.
  - rewrite store_other by lia. apply store_same; lia.
  - apply store_same. rewrite store_length; lia.
Qed.

(** The indices stay far inside the range of [int] for any vector a shell
    can hold. *)
Lemma stage_indices_fit_int (N i : Z) :
  0 <= i <= N -> N < 2 ^ 30 ->
  -1 <= fst (stage_indices N i) < 2 ^ 31 /\
  -1 <= snd (stage_indices N i) < 2 ^ 31.
Proof.
  intros Hi HN. unfold stage_indices.
  change (2 ^ 30) with 1073741824 in HN.
  change (2 ^ 31) with 2147483648.
  destruct (Z.eqb_spec i 0); [|destruct (Z.eqb_spec i N)]; cbn [fst snd]; lia.
Qed.

(** ** Steps that neither spawn nor collect *)

Lemma calm_refl p : calm p p.
Proof. repeat split. Qed.

Lemma calm_trans p q r : calm p q -> calm q r -> calm p r.
Proof. unfold calm; intros (?&?&?) (?&?&?); repeat split; congruence. Qed.

#[local] Hint Resolve calm_refl calm_trans : frame.

Lemma calm_malloc n : keeps calm (malloc_ints n).
Proof. intro p; unfold malloc_ints; destruct (hd false _); repeat split. Qed.

Lemma calm_pipe a off : keeps calm (sys_pipe a off).
Proof.
  intro p; unfold sys_pipe.
  destruct (hd false _); [repeat split|].
  destruct (_ <? _)%nat; repeat split.
Qed.

Lemma calm_close fd : keeps calm (sys_close fd).
Proof. intro p; unfold sys_close; destruct (hd false _); repeat split. Qed.

#[local] Hint Resolve calm_malloc calm_pipe calm_close : frame.

Lemma calm_close_created a n : forall j, keeps calm (close_created a j n).
Proof. induction n; intro j; simpl; frame. Qed.

Lemma calm_setup_pipes n : forall a i, keeps calm (setup_pipes a i n).
Proof.
  induction n; intros a i; simpl; frame.
  apply calm_close_created.
Qed.

Lemma calm_fork_failed a n : forall j, keeps calm (fork_failed a j n).
Proof. induction n; intro j; simpl; frame. Qed.

Lemma calm_parent_sweep a n : forall i, keeps calm (parent_sweep a i n).
Proof. induction n; intro i; simpl; frame. Qed.

(** ** Inversion of [bind] *)

Lemma bind_ret_inv {A B} (m : M A) (f : A -> M B) p b p' :
  bind m f p = (Ret b, p') ->
  exists a q, m p = (Ret a, q) /\ f a q = (Ret b, p').
Proof.
  unfold bind. destruct (m p) as [[a|c|v|] q]; try discriminate.
  intro H; exists a, q; auto.
Qed.

Lemma bind_ret_l {A B} (m : M A) (f : A -> M B) p a q :
  m p = (Ret a, q) -> bind m f p = f a q.
Proof. unfold bind; intros ->; reflexivity. Qed.

Lemma bind_exit_never_returns {A B} (m : M A) (c : Z) p (b : B) p' :
  bind m (fun _ => exit c) p <> (Ret b, p').
Proof.
  unfold bind, exit. destruct (m p) as [[a|c'|v|] q]; discriminate.
Qed.

Lemma keeps_at {A} R (m : M A) p r p' : keeps R m -> m p = (r, p') -> R p p'.
Proof. intros H E. specialize (H p). rewrite E in H. exact H. Qed.

(** ** Collecting the children *)

Lemma succeeded_iff st : succeeded st = true <-> st = W_exited 0.
Proof.
  destruct st as [c|s]; simpl; split; intro H; try discriminate.
  - apply Z.eqb_eq in H; congruence.
  - inversion H; reflexivity.
Qed.

Lemma take_out_spec {A} (l : list A) :
  forall k, (k < length l)%nat ->
  exists x r, take_out k l = Some (x, r) /\
              length l = S (length r) /\
              forall f, forallb f l = f x && forallb f r.
Proof.
  induction l as [|y l IH]; intros k Hk; simpl in *; [lia|].
  destruct k as [|k].
  - exists y, l; repeat split.
  - destruct (IH k) as (x & r & E & Hl & Hf); [lia|].
    exists x, (y :: r). cbn [take_out]. rewrite E. repeat split.
    + simpl; lia.
    + intro f; simpl. rewrite Hf.
      destruct (f y), (f x); reflexivity.
Qed.

Lemma firstn_ok_hd_tl m (q : list bool) :
  forallb negb (firstn (S m) q) = true ->
  hd false q = false /\ forallb negb (firstn m (tl q)) = true.
Proof.
  destruct q as [|[] q]; simpl; auto.
  - destruct m; auto.
  - discriminate.
Qed.

Lemma wait_loop_collects n :
  forall p st rv,
    length (children p) = n ->
    forallb negb (firstn n (q_wait (os p))) = true ->
    exists p',
      wait_loop n st rv p
      = (Ret (if forallb succeeded (children p) then rv else -1), p') /\
      children p' = [] /\
      waited (log p') = (waited (log p) + n)%nat.
Proof.
  induction n as [|n IH]; intros p st rv Hlen Hq; simpl.
  - destruct (children p) eqn:Hc; [|discriminate].
    exists p; repeat split; auto.
  - destruct (firstn_ok_hd_tl _ _ Hq) as (Hhd & Htl).
    unfold bind at 1, sys_wait. rewrite Hhd.
    destruct (take_out_spec (children p)
                (hd O (q_pick (os p)) mod length (children p))%nat)
      as (x & r & E & Hl & Hf).
    { apply Nat.mod_upper_bound; lia. }
    rewrite E.
    unfold bind at 1, read_status.
    set (p1 := note (EvWait x) _).
    destruct (IH p1 (Some x)
                (if WIFEXITED x
                 then if negb (WEXITSTATUS x =? 0) then -1 else rv
                 else -1)) as (p' & E' & Hc & Hw).
    { simpl; lia. }
    { exact Htl. }
    exists p'. rewrite E'. simpl. rewrite Hf.
    repeat split; auto.
    + destruct x as [c|s]; simpl.
      * destruct (c =? 0); simpl; [reflexivity|].
        destruct (forallb succeeded r); reflexivity.
      * destruct (forallb succeeded r); reflexivity.
    + rewrite Hw. unfold waited; simpl. lia.
Qed.

Lemma fork_loop_returns a N i :
  forall p p',
    fork_loop a N i p = (Ret tt, p') ->
    length (children p') = (length (children p) + S i)%nat /\
    forked (log p') = (forked (log p) + S i)%nat /\
    waited (log p') = waited (log p).
Proof.
  assert (Hstage : forall j p q,
             fork_stage a N j p = (Ret tt, q) ->
             length (children q) = S (length (children p)) /\
             forked (log q) = S (forked (log p)) /\
             waited (log q) = waited (log p)).
  { intros j p q H. unfold fork_stage in H.
    apply bind_ret_inv in H. destruct H as (pid & q0 & Hf & Hk).
    unfold sys_fork in Hf.
    destruct (hd (Some default_kid) (q_fork (os p))) as [k|].
    - inversion Hf; subst; clear Hf.
      destruct (_ =? -1) eqn:Hpid in Hk.
      + apply Z.eqb_eq in Hpid; lia.
      + inversion Hk; subst. simpl. rewrite length_app. simpl.
        repeat split; lia.
    - inversion Hf; subst; clear Hf. simpl in Hk.
      exfalso; eapply bind_exit_never_returns; eauto. }
  induction i as [|i IH]; intros p p' H; simpl in H;
    apply bind_ret_inv in H; destruct H as ([] & q & Hs & Hk);
    apply Hstage in Hs; destruct Hs as (Hc & Hf & Hw).
  - inversion Hk; subst. repeat split; lia.
  - apply IH in Hk. destruct Hk as (Hc' & Hf' & Hw').
    repeat split; lia.
Qed.

Lemma spawn_phase_reaches_wait N p p1 :
  spawn_phase N p = (Ret None, p1) ->
  length (children p1) = (length (children p) + S N)%nat /\
  forked (log p1) = (forked (log p) + S N)%nat /\
  waited (log p1) = waited (log p).
Proof.
  unfold spawn_phase. intro H.
  apply bind_ret_inv in H. destruct H as (m & q1 & Hm & H).
  pose proof (keeps_at _ _ _ _ _ (calm_malloc _) Hm) as (C1 & F1 & W1).
  destruct m as [a0|]; [|discriminate].
  apply bind_ret_inv in H. destruct H as (s & q2 & Hs & H).
  pose proof (keeps_at _ _ _ _ _ (calm_setup_pipes _ _ _) Hs) as (C2 & F2 & W2).
  destruct s as [r|a]; [discriminate|].
  apply bind_ret_inv in H. destruct H as ([] & q3 & Hf & H).
  apply fork_loop_returns in Hf. destruct Hf as (C3 & F3 & W3).
  pose proof (keeps_at _ _ _ _ _ (calm_parent_sweep _ _ _) H) as (C4 & F4 & W4).
  rewrite C4, F4, W4, C3, F3, W3, C2, F2, W2, C1, F1, W1.
  repeat split.
Qed.

Lemma same_waits_refl p : same_waits p p.
Proof. reflexivity. Qed.

Lemma same_waits_trans p q r : same_waits p q -> same_waits q r -> same_waits p r.
Proof. unfold same_waits; congruence. Qed.

#[local] Hint Resolve same_waits_refl same_waits_trans : frame.

Lemma waits_malloc n : keeps same_waits (malloc_ints n).
Proof. intro p; unfold malloc_ints; destruct (hd false _); reflexivity. Qed.

Lemma waits_pipe a off : keeps same_waits (sys_pipe a off).
Proof.
  intro p; unfold sys_pipe.
  destruct (hd false _); [reflexivity|].
  destruct (_ <? _)%nat; reflexivity.
Qed.

Lemma waits_close fd : keeps same_waits (sys_close fd).
Proof. intro p; unfold sys_close; destruct (hd false _); reflexivity. Qed.

Lemma waits_fork branch : keeps same_waits (sys_fork branch).
Proof.
  intro p; unfold sys_fork.
  destruct (hd (Some default_kid) _); reflexivity.
Qed.

#[local] Hint Resolve waits_malloc waits_pipe waits_close waits_fork : frame.

Lemma waits_close_created a n : forall j, keeps same_waits (close_created a j n).
Proof. induction n; intro j; simpl; frame. Qed.

Lemma waits_setup_pipes n : forall a i, keeps same_waits (setup_pipes a i n).
Proof.
  induction n; intros a i; simpl; frame.
  apply waits_close_created.
Qed.

Lemma waits_fork_failed a n : forall j, keeps same_waits (fork_failed a j n).
Proof. induction n; intro j; simpl; frame. Qed.

Lemma waits_fork_loop a N i : keeps same_waits (fork_loop a N i).
Proof.
  induction i; simpl; unfold fork_stage; frame; apply waits_fork_failed.
Qed.

Lemma waits_parent_sweep a n : forall i, keeps same_waits (parent_sweep a i n).
Proof. induction n; intro i; simpl; frame. Qed.

#[local] Hint Resolve waits_setup_pipes waits_fork_loop waits_parent_sweep : frame.

Lemma waits_spawn_phase N : keeps same_waits (spawn_phase N).
Proof. unfold spawn_phase; frame. Qed.

(** C2 (as the code has it).  [wait] reports any child of the caller, and
    what it returns is not looked at.  When the caller has no other child
    pending and none of the [N + 1] calls of [wait] fails, then, once control
    reaches the wait loop (all [N + 1] stages were forked and the parent's
    sweep went through), the [N + 1] pending children are all collected and
    the function returns 0 when every one of them exited normally with
    status 0, and -1 otherwise. *)
Theorem result_is_success_iff_all_stages_succeeded (p p1 : proc) :
  children p = [] ->
  forallb negb
    (firstn (S (strvec_num_occurrences (tokens p) PIPE)) (q_wait (os p))) = true ->
  spawn_phase (strvec_num_occurrences (tokens p) PIPE) p = (Ret None, p1) ->
  length (children p1) = S (strvec_num_occurrences (tokens p) PIPE) /\
  exists r p2,
    run_pipelined_commands p = (Ret r, p2) /\
    children p2 = [] /\
    waited (log p2)
    = (waited (log p) + S (strvec_num_occurrences (tokens p) PIPE))%nat /\
    (r = 0 \/ r = -1) /\
    (r = 0 <-> forall st, In st (children p1) -> st = W_exited 0).
Proof.
  intros Hnone Hq Hspawn.
  destruct (spawn_phase_reaches_wait _ _ _ Hspawn) as (Hc & _ & Hw).
  rewrite Hnone in Hc; simpl in Hc.
  split; [exact Hc|].
  pose proof (keeps_at _ _ _ _ _ (waits_spawn_phase _) Hspawn) as Hq1.
  unfold same_waits in Hq1. rewrite <- Hq1 in Hq.
  destruct (wait_loop_collects _ p1 None 0 Hc Hq) as (p2 & E & Hc2 & Hw2).
  exists (if forallb succeeded (children p1) then 0 else -1), p2.
  split.
  { unfold run_pipelined_commands, bind at 1, get_tokens.
    rewrite (bind_ret_l _ _ _ _ _ Hspawn). exact E. }
  split; [exact Hc2|].
  split; [rewrite Hw2, Hw; reflexivity|].
  destruct (forallb succeeded (children p1)) eqn:Hall.
  - split; [left; reflexivity|].
    split; [|reflexivity].
    intros _ st Hin.
    rewrite forallb_forall in Hall. apply succeeded_iff, Hall, Hin.
  - split; [right; reflexivity|].
    split; [discriminate|].
    intro Hok. exfalso.
    assert (forallb succeeded (children p1) = true); [|congruence].
    apply forallb_forall. intros st Hin. apply succeeded_iff, Hok, Hin.
Qed.

Lemma result_is_success_iff_all_stages_succeeded_witness :
  let p := shell ["ls"; "|"; "wc"]%string quiet in
  exists r p2,
    run_pipelined_commands p = (Ret r, p2) /\
    children p2 = [] /\
    (r = 0 <-> forall st, In st [W_exited 0; W_exited 0] -> st = W_exited 0).
Proof.
  intro p.
  assert (Hs : spawn_phase (strvec_num_occurrences (tokens p) PIPE) p
               = (Ret None, snd (spawn_phase 1 p)))
    by (vm_compute; reflexivity).
  destruct (result_is_success_iff_all_stages_succeeded p _ eq_refl eq_refl Hs)
    as (Hn & r & p2 & E & Hc & _ & _ & Hiff).
  exists r, p2.
  split; [exact E|]. split; [exact Hc|].
  exact Hiff.
Defined.

(** C2, as stated, fails.  A child the caller had forked before and not yet
    waited for is taken for a stage: [ls | wc] returns -1 though both of its
    contexts ended with status 0.  And a [wait] that fails leaves [status] as
    it was, which is tested all the same: with the two calls failing and the
    unset [status] reading as a normal exit with 0, [ls | wc] returns 0 though
    the context of [wc] exited with 1. *)
Lemma result_can_miss_the_stages :
  (let r := run_pipelined_commands
              (with_children [W_exited 3] (shell ["ls"; "|"; "wc"]%string quiet)) in
   fst r = Ret (-1) /\
   forks (log (snd r))
   = [EvFork (Ends_exec ["ls"%string]) (W_exited 0);
      EvFork (Ends_exec ["wc"%string]) (W_exited 0)]) /\
  (let r := run_pipelined_commands
              (shell ["ls"; "|"; "wc"]%string
                 (with_q_wait [true; true]
                    (with_q_fork [Some refused_kid; Some default_kid] quiet))) in
   fst r = Ret 0 /\
   forks (log (snd r))
   = [EvFork (Ends_exec ["ls"%string]) (W_exited 0);
      EvFork (Ends_exit 1) (W_exited 1)]).
Proof. vm_compute. repeat split. Qed.

(** C10.  However it ends, [run_pipelined_commands] leaves the caller's
    token vector as it found it: the parent only counts the separators, and
    what a child does to its vector happens in the child's copy. *)
Theorem parent_never_mutates_tokens (p : proc) :
  tokens (snd (run_pipelined_commands p)) = tokens p.
Proof. exact (tokens_run_pipelined_commands p). Qed.

Lemma stage_indices_spec (N i : Z) :
  1 <= N -> 0 <= i <= N ->
  stage_indices N i
  = (if i =? 0 then -1 else read_end (i - 1),
     if i =? N then -1 else write_end i).
Proof.
  intros HN Hi. unfold stage_indices, read_end, write_end.
  destruct (Z.eqb_spec i 0) as [->|H0].
  - destruct (Z.eqb_spec 0 N); [lia|]. f_equal.
  - destruct (Z.eqb_spec i N); f_equal; lia.
Qed.

(** C4 (as the code has it).  With at least one separator, the context
    spawned for stage [i] of [0 .. N] is given, as the index to read from,
    the read end of the channel before it (index [2 * (i - 1)]) unless it is
    the first, and, as the index to write to, the write end of its own
    channel (index [2 * i + 1]) unless it is the last. *)
Theorem stage_reads_previous_read_end (N i : nat) (pipe_fds : array) :
  (1 <= N)%nat -> (i <= N)%nat ->
  let in_idx := if (i =? 0)%nat then -1 else read_end (Z.of_nat i - 1) in
  let out_idx := if (i =? N)%nat then -1 else write_end (Z.of_nat i) in
  stage_indices (Z.of_nat N) (Z.of_nat i) = (in_idx, out_idx) /\
  fork_stage pipe_fds N i
  = (child_pid <- sys_fork (child_branch pipe_fds N i in_idx out_idx) ;;
     if child_pid =? -1 then fork_failed pipe_fds 0 N ;; exit 1 else ret tt).
Proof.
  intros HN Hi in_idx out_idx.
  assert (E : stage_indices (Z.of_nat N) (Z.of_nat i) = (in_idx, out_idx)).
  { rewrite stage_indices_spec by lia. subst in_idx out_idx.
    destruct (Nat.eqb_spec i 0), (Z.eqb_spec (Z.of_nat i) 0); try lia;
      destruct (Nat.eqb_spec i N), (Z.eqb_spec (Z.of_nat i) (Z.of_nat N));
      try lia; reflexivity. }
  split; [exact E|].
  unfold fork_stage. rewrite E. reflexivity.
Qed.

Lemma stage_reads_previous_read_end_witness :
  stage_indices 2 1 = (read_end 0, write_end 1).
Proof.
  destruct (stage_reads_previous_read_end 2 1 []) as [H _]; [lia | lia |].
  exact H.
Defined.

(** C4, as stated, fails: the second stage of a two-stage pipeline is not
    given index [2 * (1 - 1) + 1], the write end of channel 0. *)
Lemma stage_does_not_read_write_end :
  fst (stage_indices 1 1) <> 2 * (1 - 1) + 1.
Proof. vm_compute. discriminate. Qed.

(** ** Runs on which the code departs from its own comments *)

(** C1.  With no separator the one stage is given [in_idx = -1] but
    [out_idx = 1]: the test for the last command sits in the [else] of the
    test for the first.  Its [run_piped_command] therefore does redirect the
    output, from [pipe_fds[1]] of an array of no cells. *)
Theorem single_stage_is_given_an_output_index :
  stage_indices 0 0 = (-1, 1) /\
  (forall toks p,
      fst (run_piped_command toks (repeat None (2 * 0)) 0
             (fst (stage_indices 0 0)) (snd (stage_indices 0 0)) p) = Undef) /\
  log (snd (run_pipelined_commands (shell ["ls"%string] quiet)))
  = [EvWait (W_exited 0); EvFork Ends_undef (W_exited 0)].
Proof.
  split; [reflexivity|]. split; [|vm_compute; reflexivity].
  intros toks p. reflexivity.
Qed.

(** C3.  [ls | wc] with the parent's first [close] failing: the function
    returns -1 from inside the sweep, with both children still pending, no
    [wait] made, and the write end of the pipe still open in the parent. *)
Theorem failed_sweep_returns_before_waiting :
  let r := run_pipelined_commands
             (shell ["ls"; "|"; "wc"]%string (with_q_close [true] quiet)) in
  fst r = Ret (-1) /\
  children (snd r) = [W_exited 0; W_exited 0] /\
  forked (log (snd r)) = 2%nat /\
  waited (log (snd r)) = 0%nat /\
  fdt (snd r) = [4; 0; 1; 2].
Proof. vm_compute. repeat split. Qed.

(** C6.  [ls | wc] with the second [fork] failing: the parent itself calls
    [exit (1)]; the child forked before is never waited for and nothing is
    returned to the caller. *)
Theorem failed_fork_exits_the_parent :
  let r := run_pipelined_commands
             (shell ["ls"; "|"; "wc"]%string
                (with_q_fork [Some default_kid; None] quiet)) in
  fst r = Exit 1 /\
  children (snd r) = [W_exited 0] /\
  forked (log (snd r)) = 1%nat /\
  waited (log (snd r)) = 0%nat.
Proof. vm_compute. repeat split. Qed.

(** C9.  Stage 0 of [ls | wc], its [run_command] returning 0 and the close
    of its own write end failing: [run_piped_command] returns 1, which its
    caller does not take for an error; the child exits with 0 and the
    pipeline reports success. *)
Theorem failed_close_of_own_endpoint_exits_0 :
  fst (run_piped_command ["ls"%string] [Some 3; Some 4] 1 (-1) 1
         (child_of (shell ["ls"%string] quiet)
            {| k_close := [true]; k_dup2 := []; k_slice := [];
               k_run := Some 0; k_fate := W_exited 0 |})) = Ret 1 /\
  let r := run_pipelined_commands
             (shell ["ls"; "|"; "wc"]%string
                (with_q_fork [Some default_kid; Some stubborn_kid] quiet)) in
  fst r = Ret 0 /\
  filter (fun e => match e with EvFork _ _ => true | _ => false end) (log (snd r))
  = [EvFork (Ends_exit 0) (W_exited 0); EvFork (Ends_exec ["wc"%string]) (W_exited 0)].
Proof. vm_compute. repeat split. Qed.

(** ** The child's cleanup *)

Lemma load_filled a n k p :
  filled a n -> (k < n)%nat ->
  exists fd, nth_error a k = Some (Some fd) /\ load a (Z.of_nat k) p = (Ret fd, p).
Proof.
  intros Hf Hk. destruct (Hf k Hk) as [fd E].
  exists fd; split; [exact E|].
  unfold load. destruct (Z.ltb_spec (Z.of_nat k) 0); [lia|].
  rewrite Nat2Z.id, E. reflexivity.
Qed.

Lemma close_cases fd p :
  exists c p',
    sys_close fd p = (Ret c, p') /\
    q_close (os p') = tl (q_close (os p)) /\
    ((c = -1 /\ hd false (q_close (os p)) = true /\ fdt p' = fdt p) \/
     (c = 0 /\ hd false (q_close (os p)) = false
      /\ fdt p' = remove Z.eq_dec fd (fdt p))).
Proof.
  unfold sys_close. destruct (hd false (q_close (os p))) eqn:E.
  - eexists _, _; split; [reflexivity|]. split; [reflexivity|]. left; auto.
  - eexists _, _; split; [reflexivity|]. split; [reflexivity|]. right; auto.
Qed.

Lemma in_remove_sub (fd x : Z) (l : list Z) :
  In x (remove Z.eq_dec fd l) -> In x l /\ x <> fd.
Proof. apply in_remove. Qed.

(** [close_rest] ends the loop or the process, nothing else. *)
Lemma close_rest_ends a m n :
  forall k p, filled a m -> (k + n <= m)%nat ->
  exists p', close_rest a k n p = (Ret tt, p') \/ close_rest a k n p = (Exit 1, p').
Proof.
  induction n as [|n IH]; intros k p Hf Hk; simpl.
  - exists p; left; reflexivity.
  - destruct (load_filled a m k p Hf) as (fd & _ & El); [lia|].
    rewrite (bind_ret_l _ _ _ _ _ El).
    destruct (close_cases fd p) as (c & p1 & Ec & _ & [(-> & _)|(-> & _)]);
      rewrite (bind_ret_l _ _ _ _ _ Ec); simpl.
    + exists p1; right; reflexivity.
    + apply IH; [exact Hf | lia].
Qed.

Lemma close_rest_then_exit a m n k p :
  filled a m -> (k + n <= m)%nat ->
  exists p', (close_rest a k n ;; @exit unit 1) p = (Exit 1, p').
Proof.
  intros Hf Hk.
  destruct (close_rest_ends a m n k p Hf Hk) as (p' & [E|E]);
    exists p'; unfold bind; rewrite E; reflexivity.
Qed.

(** One guarded close of the cleanup loop: the endpoint at [k] is closed
    unless it is the designated one. *)
Lemma guarded_close a m k keep p :
  filled a m -> (k < m)%nat ->
  exists bad p' fd,
    nth_error a k = Some (Some fd) /\
    (if negb (Z.of_nat k =? keep)
     then fd <- load a (Z.of_nat k) ;; c <- sys_close fd ;; ret (c =? -1)
     else ret false) p = (Ret bad, p') /\
    incl (fdt p') (fdt p) /\
    (bad = false -> Z.of_nat k <> keep -> ~ In fd (fdt p')).
Proof.
  intros Hf Hk.
  destruct (load_filled a m k p Hf Hk) as (fd & En & El).
  destruct (Z.eqb_spec (Z.of_nat k) keep) as [Heq|Hne]; simpl.
  - exists false, p, fd. repeat split; auto using incl_refl.
  - rewrite (bind_ret_l _ _ _ _ _ El).
    destruct (close_cases fd p) as (c & p1 & Ec & _ & [(-> & _ & Hfd)|(-> & _ & Hfd)]);
      rewrite (bind_ret_l _ _ _ _ _ Ec); simpl.
    + exists true, p1, fd. repeat split; auto.
      * rewrite Hfd; apply incl_refl.
      * discriminate.
    + exists false, p1, fd. repeat split; auto.
      * rewrite Hfd. intros x Hx. apply in_remove in Hx. tauto.
      * intros _ _. rewrite Hfd. apply remove_In.
Qed.

Lemma close_unused_S a N in_idx out_idx j n :
  close_unused a N in_idx out_idx j (S n)
  = (bad <- (if negb (2 * Z.of_nat j =? in_idx)
             then fd <- load a (2 * Z.of_nat j) ;; c <- sys_close fd ;; ret (c =? -1)
             else ret false) ;;
     if bad then
       close_rest a (2 * j) (2 * N - 2 * j) ;; exit 1
     else
       bad' <- (if negb (2 * Z.of_nat j + 1 =? out_idx)
                then fd <- load a (2 * Z.of_nat j + 1) ;; c <- sys_close fd ;;
                     ret (c =? -1)
                else ret false) ;;
       if bad' then
         close_rest a (2 * j + 1) (2 * N - (2 * j + 1)) ;; exit 1
       else close_unused a N in_idx out_idx (S j) n).
Proof. reflexivity. Qed.

Lemma close_unused_spec a N in_idx out_idx n :
  forall j p,
    filled a (2 * N) -> (j + n = N)%nat ->
    match close_unused a N in_idx out_idx j n p with
    | (Ret _, p') =>
        incl (fdt p') (fdt p) /\
        forall k fd,
          (2 * j <= k < 2 * N)%nat ->
          nth_error a k = Some (Some fd) -> In fd (fdt p') ->
          Z.of_nat k = in_idx \/ Z.of_nat k = out_idx
    | (Exit c, _) => c = 1
    | _ => False
    end.
Proof.
  induction n as [|n IH]; intros j p Hf Hj.
  - simpl. split; [apply incl_refl|]. intros k fd Hk; lia.
  - rewrite close_unused_S.
    destruct (guarded_close a (2 * N) (2 * j) in_idx p Hf) as
      (bad & p1 & fd1 & En1 & E1 & Hi1 & Hc1); [lia|].
    replace (Z.of_nat (2 * j)) with (2 * Z.of_nat j) in E1, Hc1 by lia.
    rewrite (bind_ret_l _ _ _ _ _ E1).
    destruct bad.
    { destruct (close_rest_then_exit a (2 * N) (2 * N - 2 * j) (2 * j) p1 Hf)
        as (p' & E); [lia|].
      rewrite E; reflexivity. }
    destruct (guarded_close a (2 * N) (2 * j + 1) out_idx p1 Hf) as
      (bad & p2 & fd2 & En2 & E2 & Hi2 & Hc2); [lia|].
    replace (Z.of_nat (2 * j + 1)) with (2 * Z.of_nat j + 1) in E2, Hc2 by lia.
    rewrite (bind_ret_l _ _ _ _ _ E2).
    destruct bad.
    { destruct (close_rest_then_exit a (2 * N) (2 * N - (2 * j + 1)) (2 * j + 1)
                  p2 Hf) as (p' & E); [lia|].
      rewrite E; reflexivity. }
    specialize (IH (S j) p2 Hf).
    destruct (close_unused a N in_idx out_idx (S j) n p2) as [[[]|c|v|] p3];
      try (apply IH; lia).
    destruct IH as (Hi3 & Hc3); [lia|].
    split.
    { intros x Hx. apply Hi1, Hi2, Hi3, Hx. }
    intros k fd Hk En Hin.
    destruct (Nat.eq_dec k (2 * j)) as [->|Hk1].
    { destruct (Z.eq_dec (2 * Z.of_nat j) in_idx) as [Heq|Hne]; [left; lia|].
      exfalso. rewrite En1 in En; inversion En; subst.
      apply (Hc1 eq_refl Hne). apply Hi2, Hi3, Hin. }
    destruct (Nat.eq_dec k (2 * j + 1)) as [->|Hk2].
    { destruct (Z.eq_dec (2 * Z.of_nat j + 1) out_idx) as [Heq|Hne]; [right; lia|].
      exfalso. rewrite En2 in En; inversion En; subst.
      apply (Hc2 eq_refl Hne). apply Hi3, Hin. }
    apply (Hc3 k fd); auto. lia.
Qed.

Lemma opens_only_std_refl p : opens_only_std p p.
Proof. intros fd H; left; exact H. Qed.

Lemma opens_only_std_trans p q r :
  opens_only_std p q -> opens_only_std q r -> opens_only_std p r.
Proof.
  intros H1 H2 fd H. destruct (H2 fd H) as [H'|H']; [|right; exact H'].
  exact (H1 fd H').
Qed.

#[local] Hint Resolve opens_only_std_refl opens_only_std_trans : frame.

Lemma std_set_tokens v : keeps opens_only_std (set_tokens v).
Proof. intros p fd H; left; exact H. Qed.

Lemma std_close fd : keeps opens_only_std (sys_close fd).
Proof.
  intros p x. unfold sys_close. destruct (hd false _); simpl; intro H.
  - left; exact H.
  - left. apply in_remove in H. tauto.
Qed.

Lemma std_dup2 fd newfd :
  newfd = STDIN_FILENO \/ newfd = STDOUT_FILENO ->
  keeps opens_only_std (sys_dup2 fd newfd).
Proof.
  intros Hn p x. unfold sys_dup2. destruct (hd false _); simpl; intro H.
  - left; exact H.
  - destruct H as [<-|H]; [right; exact Hn|].
    left. apply in_remove in H. tauto.
Qed.

Lemma std_run_command v : keeps opens_only_std (run_command v).
Proof.
  intros p x. unfold run_command. destruct (q_run (os p)); simpl; auto.
Qed.

Lemma std_slice v start stop : keeps opens_only_std (strvec_slice v start stop).
Proof.
  intros p x. unfold strvec_slice. destruct (hd false _); simpl; auto.
Qed.

#[local] Hint Resolve std_set_tokens std_close std_run_command std_slice : frame.

Lemma std_close_own a i o : keeps opens_only_std (close_own a i o).
Proof. unfold close_own; frame. Qed.

#[local] Hint Resolve std_close_own : frame.

Lemma std_run_piped_command v a n i o :
  keeps opens_only_std (run_piped_command v a n i o).
Proof.
  unfold run_piped_command; frame; apply std_dup2; auto.
Qed.

Lemma std_trim a i o n : forall e, keeps opens_only_std (trim a i o e n).
Proof. induction n; intro e; simpl; frame. Qed.

#[local] Hint Resolve std_run_piped_command std_trim : frame.

(** Once the cleanup is done the child opens nothing but what its
    redirections put on its standard input and output. *)
Lemma std_trim_and_run a N i in_idx out_idx :
  keeps opens_only_std (trim_and_run a N i in_idx out_idx).
Proof. unfold trim_and_run; frame. Qed.

(** C5.  In the child of stage [i] of a pipeline with [N >= 1] separators,
    the cleanup loop comes first.  Either it fails, and the child ends there
    with [exit (1)]; or it completes, every endpoint of the array that is
    still open is then one of the two designated ones, and it is from that
    state that the child goes on to trim its tokens and call
    [run_piped_command]; up to its end the child holds no other endpoint,
    apart from what the redirections put on descriptors 0 and 1.  Whatever
    the child does, its parent goes on after [fork] with its own descriptors
    and tokens untouched, and its loop goes on to the other stages. *)
Theorem cleanup_leaves_only_designated_endpoints
    (N i : nat) (pipe_fds : array) (p : proc) :
  (1 <= N)%nat -> (i <= N)%nat -> filled pipe_fds (2 * N) ->
  let in_idx := fst (stage_indices (Z.of_nat N) (Z.of_nat i)) in
  let out_idx := snd (stage_indices (Z.of_nat N) (Z.of_nat i)) in
  match close_unused pipe_fds N in_idx out_idx 0 N p with
  | (Ret _, p') =>
      (forall k fd,
          (k < 2 * N)%nat ->
          nth_error pipe_fds k = Some (Some fd) -> In fd (fdt p') ->
          Z.of_nat k = in_idx \/ Z.of_nat k = out_idx) /\
      child_branch pipe_fds N i in_idx out_idx p
      = trim_and_run pipe_fds N i in_idx out_idx p' /\
      (forall k fd,
          (k < 2 * N)%nat ->
          nth_error pipe_fds k = Some (Some fd) ->
          In fd (fdt (snd (child_branch pipe_fds N i in_idx out_idx p))) ->
          Z.of_nat k = in_idx \/ Z.of_nat k = out_idx \/
          fd = STDIN_FILENO \/ fd = STDOUT_FILENO)
  | (Exit c, p') =>
      c = 1 /\ child_branch pipe_fds N i in_idx out_idx p = (Exit 1, p')
  | _ => False
  end /\
  forall parent,
    let after := sys_fork (child_branch pipe_fds N i in_idx out_idx) parent in
    (exists pid, fst after = Ret pid) /\
    fdt (snd after) = fdt parent /\
    tokens (snd after) = tokens parent /\
    (is_some (hd (Some default_kid) (q_fork (os parent))) = true ->
     fork_stage pipe_fds N i parent = (Ret tt, snd after)).
Proof.
  intros HN Hi Hf in_idx out_idx. split.
  - pose proof (close_unused_spec pipe_fds N in_idx out_idx N 0 p Hf eq_refl) as H.
    assert (Hb : child_branch pipe_fds N i in_idx out_idx p
                 = (close_unused pipe_fds N in_idx out_idx 0 N ;;
                    trim_and_run pipe_fds N i in_idx out_idx) p) by reflexivity.
    destruct (close_unused pipe_fds N in_idx out_idx 0 N p) as [[[]|c|v|] p']
      eqn:Ec; auto.
    + rewrite (bind_ret_l _ _ _ _ _ Ec) in Hb.
      destruct H as (_ & H).
      assert (H' : forall k fd,
                 (k < 2 * N)%nat ->
                 nth_error pipe_fds k = Some (Some fd) -> In fd (fdt p') ->
                 Z.of_nat k = in_idx \/ Z.of_nat k = out_idx).
      { intros k fd Hk. apply H. lia. }
      split; [exact H'|]. split; [exact Hb|].
      intros k fd Hk En Hin. rewrite Hb in Hin.
      destruct (std_trim_and_run pipe_fds N i in_idx out_idx p' fd Hin)
        as [Hin'|Hstd]; [|tauto].
      destruct (H' k fd Hk En Hin'); tauto.
    + subst c. split; [reflexivity|].
      rewrite Hb. unfold bind. rewrite Ec. reflexivity.
  - intro parent. unfold fork_stage. fold in_idx out_idx.
    unfold bind, sys_fork.
    destruct (hd (Some default_kid) (q_fork (os parent))); simpl.
    + split; [eauto|]. split; [reflexivity|]. split; [reflexivity|].
      intros _.
      destruct (Z.eqb_spec (Z.pos (Pos.of_succ_nat (length (children parent)))) (-1));
        [lia|reflexivity].
    + split; [eauto|]. split; [reflexivity|]. split; [reflexivity|].
      discriminate.
Qed.

Lemma cleanup_leaves_only_designated_endpoints_witness :
  let a := [Some 3; Some 4; Some 5; Some 6] in
  let child :=
    child_of (with_fdt [6; 5; 4; 3; 0; 1; 2]
                (shell ["a"; "|"; "b"; "|"; "c"]%string quiet)) default_kid in
  let after := snd (close_unused a 2 0 3 0 2 child) in
  (~ In 4 (fdt after) /\ ~ In 5 (fdt after)) /\
  child_branch a 2 1 0 3 child = trim_and_run a 2 1 0 3 after.
Proof.
  intros a child after.
  assert (Hf : filled a (2 * 2)).
  { intros k Hk.
    destruct k as [|[|[|[|k]]]]; simpl; eauto. lia. }
  destruct (cleanup_leaves_only_designated_endpoints 2 1 a child
              ltac:(lia) ltac:(lia) Hf) as [H _].
  change (close_unused a 2 _ _ 0 2 child) with (Ret tt, after) in H.
  cbv iota beta in H.
  destruct H as (H & Hb & _).
  split; [|exact Hb].
  split; intro Hin.
  - destruct (H 1%nat 4 ltac:(lia) eq_refl Hin) as [E|E]; discriminate E.
  - destruct (H 2%nat 5 ltac:(lia) eq_refl Hin) as [E|E]; discriminate E.
Defined.

(** ** Runs on which nothing fails before the sweep *)

Lemma all_ok_hd_tl (q : list bool) :
  forallb negb q = true -> hd false q = false /\ forallb negb (tl q) = true.
Proof.
  destruct q as [|[] q]; simpl; auto. discriminate.
Qed.

Lemma setup_pipes_S a i n :
  setup_pipes a i (S n)
  = (ca <- sys_pipe a (2 * i) ;;
     if fst ca =? -1 then _ <- close_created (snd ca) 0 i ;; ret (inl (-1))
     else setup_pipes (snd ca) (S i) n).
Proof. reflexivity. Qed.

Lemma pipe_succeeds a off p :
  hd false (q_pipe (os p)) = false -> (off + 2 <= length a)%nat ->
  sys_pipe a off p
  = (Ret (0, store (store a off (fresh_fd (fdt p))) (S off)
                (fresh_fd (fresh_fd (fdt p) :: fdt p))),
     note (EvPipe (fresh_fd (fdt p)) (fresh_fd (fresh_fd (fdt p) :: fdt p)))
       (with_fdt (fresh_fd (fresh_fd (fdt p) :: fdt p) :: fresh_fd (fdt p) :: fdt p)
          (with_os (pop_pipe (os p)) p))).
Proof.
  intros Hq Hl. unfold sys_pipe. rewrite Hq.
  destruct (Nat.ltb_spec (length a) (off + 2)); [lia|reflexivity].
Qed.

Lemma setup_pipes_succeeds n :
  forall a i p,
    forallb negb (q_pipe (os p)) = true ->
    (2 * (i + n) <= length a)%nat ->
    exists a' p',
      setup_pipes a i n p = (Ret (inr a'), p') /\
      q_fork (os p') = q_fork (os p).
Proof.
  induction n as [|n IH]; intros a i p Hq Hl.
  - exists a, p; split; reflexivity.
  - rewrite setup_pipes_S.
    destruct (all_ok_hd_tl _ Hq) as (Hhd & Htl).
    rewrite (bind_ret_l _ _ _ _ _ (pipe_succeeds a (2 * i) p Hhd ltac:(lia))).
    cbn [fst snd]. change (0 =? -1) with false. cbv iota.
    match goal with
    | |- context [setup_pipes ?a1 (S i) n ?p1] =>
        destruct (IH a1 (S i) p1) as (a' & p' & E & Hk)
    end.
    + exact Htl.
    + rewrite !store_length. lia.
    + exists a', p'. split; [exact E|]. rewrite Hk. reflexivity.
Qed.

Lemma fork_loop_succeeds a N i :
  forall p,
    forallb is_some (q_fork (os p)) = true ->
    exists p', fork_loop a N i p = (Ret tt, p') /\
               q_close (os p') = q_close (os p).
Proof.
  assert (Hstage : forall j p,
             forallb is_some (q_fork (os p)) = true ->
             exists q, fork_stage a N j p = (Ret tt, q) /\
                       forallb is_some (q_fork (os q)) = true /\
                       q_close (os q) = q_close (os p)).
  { intros j p Hq. unfold fork_stage, bind, sys_fork.
    destruct (q_fork (os p)) as [|[k|] q] eqn:E; simpl in Hq; try discriminate;
      simpl.
    - destruct (Z.eqb_spec (Z.pos (Pos.of_succ_nat (length (children p)))) (-1));
        [lia|].
      eexists; split; [reflexivity|]. simpl. rewrite E. split; reflexivity.
    - destruct (Z.eqb_spec (Z.pos (Pos.of_succ_nat (length (children p)))) (-1));
        [lia|].
      eexists; split; [reflexivity|]. simpl. rewrite E. split; [exact Hq|reflexivity]. }
  induction i as [|i IH]; intros p Hq; simpl.
  - destruct (Hstage O p Hq) as (q & E & Hq' & Hc).
    rewrite (bind_ret_l _ _ _ _ _ E).
    exists q; split; [reflexivity|exact Hc].
  - destruct (Hstage (S i) p Hq) as (q & E & Hq' & Hc).
    rewrite (bind_ret_l _ _ _ _ _ E).
    destruct (IH q Hq') as (p' & E' & Hc').
    exists p'; split; [exact E'|congruence].
Qed.

Lemma setup_pipes_fills n :
  forall a i p a' p',
    setup_pipes a i n p = (Ret (inr a'), p') ->
    filled a (2 * i) -> (2 * (i + n) <= length a)%nat ->
    filled a' (2 * (i + n)) /\ q_close (os p') = q_close (os p).
Proof.
  induction n as [|n IH]; intros a i p a' p' E Hfill Hl.
  - inversion E; subst. replace (i + 0)%nat with i by lia. auto.
  - rewrite setup_pipes_S in E.
    apply bind_ret_inv in E. destruct E as ([c a1] & p1 & Ep & E).
    cbn [fst snd] in E.
    destruct (Z.eqb_spec c (-1)) as [->|Hc].
    { apply bind_ret_inv in E. destruct E as (? & ? & _ & E). discriminate. }
    unfold sys_pipe in Ep.
    destruct (hd false (q_pipe (os p))); [inversion Ep; congruence|].
    destruct (Nat.ltb_spec (length a) (2 * i + 2)); [discriminate|].
    inversion Ep; subst; clear Ep.
    destruct (pipe_cells a i (fresh_fd (fdt p))
                (fresh_fd (fresh_fd (fdt p) :: fdt p)) ltac:(lia))
      as (Hr & Hw & Hold).
    apply IH in E.
    + replace (2 * (i + S n))%nat with (2 * (S i + n))%nat by lia. exact E.
    + intros k Hk.
      destruct (Nat.eq_dec k (2 * i)) as [->|Hk1]; [eauto|].
      destruct (Nat.eq_dec k (2 * i + 1)) as [->|Hk2]; [eauto|].
      rewrite Hold by lia. apply Hfill; lia.
    + rewrite !store_length. lia.
Qed.

Lemma parent_sweep_succeeds a m n :
  forall i p,
    filled a m -> (i + n <= m)%nat ->
    forallb negb (q_close (os p)) = true ->
    exists p', parent_sweep a i n p = (Ret None, p').
Proof.
  induction n as [|n IH]; intros i p Hf Hm Hq; simpl.
  - exists p; reflexivity.
  - destruct (load_filled a m i p Hf) as (fd & _ & El); [lia|].
    rewrite (bind_ret_l _ _ _ _ _ El).
    destruct (all_ok_hd_tl _ Hq) as (Hhd & Htl).
    destruct (close_cases fd p) as (c & p1 & Ec & Hq1 & [(_ & Hbad & _)|(-> & _)]);
      [congruence|].
    rewrite (bind_ret_l _ _ _ _ _ Ec). simpl.
    apply (IH (S i) p1 Hf); [lia|]. rewrite Hq1. exact Htl.
Qed.

(** With nothing failing, control does reach the wait loop. *)
Lemma wait_is_reached (p : proc) :
  hd false (q_malloc (os p)) = false ->
  forallb negb (q_pipe (os p)) = true ->
  forallb is_some (q_fork (os p)) = true ->
  forallb negb (q_close (os p)) = true ->
  exists p1,
    spawn_phase (strvec_num_occurrences (tokens p) PIPE) p = (Ret None, p1).
Proof.
  intros Hm Hp Hf Hc.
  set (N := strvec_num_occurrences (tokens p) PIPE).
  set (p0 := with_os (pop_malloc (os p)) p).
  assert (Em : malloc_ints (2 * N) p = (Ret (Some (repeat None (2 * N))), p0)).
  { unfold malloc_ints. rewrite Hm. reflexivity. }
  destruct (setup_pipes_succeeds N (repeat None (2 * N)) 0 p0) as (a & p1 & Es & Hk).
  { exact Hp. }
  { rewrite repeat_length. lia. }
  destruct (setup_pipes_fills _ _ _ _ _ _ Es) as (Hfill & Hc1).
  { intros k Hk0; lia. }
  { rewrite repeat_length. lia. }
  destruct (fork_loop_succeeds a N N p1) as (p2 & Ef & Hc2).
  { rewrite Hk. exact Hf. }
  destruct (parent_sweep_succeeds a (2 * (0 + N)) (2 * N) 0 p2 Hfill) as (p3 & Esw).
  { lia. }
  { rewrite Hc2, Hc1. exact Hc. }
  exists p3. unfold spawn_phase.
  rewrite (bind_ret_l _ _ _ _ _ Em). cbv iota beta.
  rewrite (bind_ret_l _ _ _ _ _ Es). cbv iota beta.
  rewrite (bind_ret_l _ _ _ _ _ Ef). exact Esw.
Qed.

Lemma forked_same_refl p : forked_same p p.
Proof. reflexivity. Qed.

Lemma forked_same_trans p q r : forked_same p q -> forked_same q r -> forked_same p r.
Proof. unfold forked_same; congruence. Qed.

#[local] Hint Resolve forked_same_refl forked_same_trans : frame.

Lemma forked_wait st : keeps forked_same (sys_wait st).
Proof.
  intro p; unfold sys_wait.
  destruct (hd false _); [reflexivity|].
  destruct (take_out _ _) as [[s r]|]; reflexivity.
Qed.

#[local] Hint Resolve forked_wait : frame.

Lemma forked_wait_loop n : forall st rv, keeps forked_same (wait_loop n st rv).
Proof. induction n; intros st rv; simpl; frame. Qed.

Lemma parent_sweep_ends a m n :
  forall i p,
    filled a m -> (i + n <= m)%nat ->
    exists r p', parent_sweep a i n p = (Ret r, p') /\
                 (r = None \/ r = Some (-1)).
Proof.
  induction n as [|n IH]; intros i p Hf Hm; simpl.
  - exists None, p; auto.
  - destruct (load_filled a m i p Hf) as (fd & _ & El); [lia|].
    rewrite (bind_ret_l _ _ _ _ _ El).
    destruct (close_cases fd p) as (c & p1 & Ec & _ & [(-> & _)|(-> & _)]);
      rewrite (bind_ret_l _ _ _ _ _ Ec); simpl.
    + destruct (load_filled a m i p1 Hf) as (fd' & E' & El'); [lia|].
      rewrite (bind_ret_l _ _ _ _ _ El').
      destruct (close_cases fd' p1) as (c' & p2 & Ec' & _).
      rewrite (bind_ret_l _ _ _ _ _ Ec').
      exists (Some (-1)), p2; auto.
    + apply (IH (S i) p1 Hf); lia.
Qed.

Lemma wait_returns st p : exists st' p', sys_wait st p = (Ret st', p').
Proof.
  unfold sys_wait.
  destruct (hd false (q_wait (os p))); [eauto|].
  destruct (take_out _ _) as [[x r]|]; eauto.
Qed.

(** The wait loop always comes to its end, whether its calls of [wait]
    succeed or not, and its value is 0 or -1. *)
Lemma wait_loop_ends n :
  forall p st rv,
    rv = 0 \/ rv = -1 ->
    exists r p', wait_loop n st rv p = (Ret r, p') /\ (r = 0 \/ r = -1).
Proof.
  induction n as [|n IH]; intros p st rv Hrv; simpl.
  - exists rv, p; auto.
  - destruct (wait_returns st p) as (st' & p1 & E).
    rewrite (bind_ret_l _ _ _ _ _ E).
    unfold bind at 1, read_status.
    apply IH.
    destruct (WIFEXITED _); auto.
    destruct (negb (WEXITSTATUS _ =? 0)); auto.
Qed.

Lemma no_new_fork_refl p : no_new_fork p p.
Proof. intros e st H; exact H. Qed.

Lemma no_new_fork_trans p q r :
  no_new_fork p q -> no_new_fork q r -> no_new_fork p r.
Proof. unfold no_new_fork; auto. Qed.

#[local] Hint Resolve no_new_fork_refl no_new_fork_trans : frame.

Ltac not_a_fork :=
  let H := fresh in intros ? ? [H|H]; [discriminate H|exact H].
Ltac nothing_logged :=
  let H := fresh in intros ? ? H; exact H.

Lemma unforked_malloc n : keeps no_new_fork (malloc_ints n).
Proof.
  intro p; unfold malloc_ints; destruct (hd false _); nothing_logged.
Qed.

Lemma unforked_pipe a off : keeps no_new_fork (sys_pipe a off).
Proof.
  intro p; unfold sys_pipe.
  destruct (hd false _); [not_a_fork|].
  destruct (_ <? _)%nat; [nothing_logged|not_a_fork].
Qed.

Lemma unforked_close fd : keeps no_new_fork (sys_close fd).
Proof. intro p; unfold sys_close; destruct (hd false _); not_a_fork. Qed.

Lemma unforked_wait st : keeps no_new_fork (sys_wait st).
Proof.
  intro p; unfold sys_wait.
  destruct (hd false _); [nothing_logged|].
  destruct (take_out _ _) as [[s r]|]; [not_a_fork|nothing_logged].
Qed.

#[local] Hint Resolve unforked_malloc unforked_pipe unforked_close
  unforked_wait : frame.

Lemma unforked_close_created a n : forall j, keeps no_new_fork (close_created a j n).
Proof. induction n; intro j; simpl; frame. Qed.

Lemma unforked_setup_pipes n : forall a i, keeps no_new_fork (setup_pipes a i n).
Proof.
  induction n; intros a i; simpl; frame.
  apply unforked_close_created.
Qed.

Lemma unforked_parent_sweep a n : forall i, keeps no_new_fork (parent_sweep a i n).
Proof. induction n; intro i; simpl; frame. Qed.

Lemma unforked_wait_loop n : forall st rv, keeps no_new_fork (wait_loop n st rv).
Proof. induction n; intros st rv; simpl; frame. Qed.

(** Each spawning the fork loop puts on record is that of a child it has
    added to the pending ones. *)
Lemma fork_loop_reports a N i :
  forall p p',
    fork_loop a N i p = (Ret tt, p') ->
    exists sts,
      children p' = children p ++ sts /\
      forall e st, In (EvFork e st) (log p') ->
                   In (EvFork e st) (log p) \/ In st sts.
Proof.
  assert (Hstage : forall j p q,
             fork_stage a N j p = (Ret tt, q) ->
             exists st0,
               children q = children p ++ [st0] /\
               forall e st, In (EvFork e st) (log q) ->
                            In (EvFork e st) (log p) \/ st = st0).
  { intros j p q H. unfold fork_stage in H.
    apply bind_ret_inv in H. destruct H as (pid & q0 & Hf & Hk).
    unfold sys_fork in Hf.
    destruct (hd (Some default_kid) (q_fork (os p))) as [k|].
    - inversion Hf; subst; clear Hf.
      destruct (_ =? -1) eqn:Hpid in Hk.
      + apply Z.eqb_eq in Hpid; lia.
      + inversion Hk; subst. eexists. split; [reflexivity|].
        intros e st [H|H]; [inversion H; auto|auto].
    - inversion Hf; subst; clear Hf. simpl in Hk.
      exfalso; eapply bind_exit_never_returns; eauto. }
  induction i as [|i IH]; intros p p' H; simpl in H;
    apply bind_ret_inv in H; destruct H as ([] & q & Hs & Hk);
    apply Hstage in Hs; destruct Hs as (st0 & Hc & Hl).
  - inversion Hk; subst. exists [st0]. split; [exact Hc|].
    intros e st Hin. destruct (Hl e st Hin) as [?| ->]; simpl; auto.
  - apply IH in Hk. destruct Hk as (sts & Hc' & Hl').
    exists (st0 :: sts). split.
    + rewrite Hc', Hc, <- app_assoc. reflexivity.
    + intros e st Hin. destruct (Hl' e st Hin) as [Hin'|Hin']; [|simpl; auto].
      destruct (Hl e st Hin') as [?| ->]; simpl; auto.
Qed.

(** When the array is allocated, the pipes are made and no [fork] fails,
    the function gets to its sweep with one child pending for each stage. *)
Lemma spawn_phase_spawns (p : proc) :
  let N := strvec_num_occurrences (tokens p) PIPE in
  hd false (q_malloc (os p)) = false ->
  forallb negb (q_pipe (os p)) = true ->
  forallb is_some (q_fork (os p)) = true ->
  exists r p3 sts,
    spawn_phase N p = (Ret r, p3) /\
    (r = None \/ r = Some (-1)) /\
    forked (log p3) = (forked (log p) + S N)%nat /\
    children p3 = children p ++ sts /\
    length sts = S N /\
    forall e st, In (EvFork e st) (log p3) ->
                 In (EvFork e st) (log p) \/ In st sts.
Proof.
  intros N Hm Hp Hf.
  set (p0 := with_os (pop_malloc (os p)) p).
  assert (Em : malloc_ints (2 * N) p = (Ret (Some (repeat None (2 * N))), p0)).
  { unfold malloc_ints. rewrite Hm. reflexivity. }
  destruct (setup_pipes_succeeds N (repeat None (2 * N)) 0 p0) as (a & p1 & Es & Hk).
  { exact Hp. }
  { rewrite repeat_length. lia. }
  destruct (setup_pipes_fills _ _ _ _ _ _ Es) as (Hfill & _).
  { intros k Hk0; lia. }
  { rewrite repeat_length. lia. }
  destruct (fork_loop_succeeds a N N p1) as (p2 & Ef & _).
  { rewrite Hk. exact Hf. }
  pose proof (keeps_at _ _ _ _ _ (calm_setup_pipes _ _ _) Es) as (C1 & F1 & _).
  pose proof (keeps_at _ _ _ _ _ (unforked_setup_pipes _ _ _) Es) as U1.
  destruct (fork_loop_returns _ _ _ _ _ Ef) as (L2 & F2 & _).
  destruct (fork_loop_reports _ _ _ _ _ Ef) as (sts & C2 & U2).
  destruct (parent_sweep_ends a (2 * (0 + N)) (2 * N) 0 p2 Hfill)
    as (r & p3 & Esw & Hr); [lia|].
  pose proof (keeps_at _ _ _ _ _ (calm_parent_sweep _ _ _) Esw) as (C3 & F3 & _).
  pose proof (keeps_at _ _ _ _ _ (unforked_parent_sweep _ _ _) Esw) as U3.
  exists r, p3, sts. split.
  { unfold spawn_phase.
    rewrite (bind_ret_l _ _ _ _ _ Em). cbv iota beta.
    rewrite (bind_ret_l _ _ _ _ _ Es). cbv iota beta.
    rewrite (bind_ret_l _ _ _ _ _ Ef). exact Esw. }
  split; [exact Hr|].
  split; [rewrite F3, F2, F1; reflexivity|].
  split; [rewrite C3, C2, C1; reflexivity|].
  split.
  { rewrite C2, length_app in L2. lia. }
  intros e st Hin.
  destruct (U2 e st (U3 e st Hin)) as [Hin'|Hin']; [left|right; exact Hin'].
  exact (U1 e st Hin').
Qed.

(** C7 (as the code has it).  The tokens are never inspected for their
    shape: whatever the sequence, malformed or not, if the array is
    allocated, the pipes are made and no [fork] fails, one context is
    spawned for each of the [N + 1] stages the [N] separators delimit, and
    the function returns 0 or -1.  Failure is reported on account of what
    becomes of the contexts, not of the shape of the tokens: when the caller
    has no other child pending and the [N + 1] calls of [wait] succeed, 0 is
    returned only if every context spawned by the call exited normally with
    status 0. *)
Theorem every_sequence_is_spawned (p : proc) :
  hd false (q_malloc (os p)) = false ->
  forallb negb (q_pipe (os p)) = true ->
  forallb is_some (q_fork (os p)) = true ->
  let N := strvec_num_occurrences (tokens p) PIPE in
  let ended := run_pipelined_commands p in
  forked (log (snd ended)) = (forked (log p) + S N)%nat /\
  (fst ended = Ret 0 \/ fst ended = Ret (-1)) /\
  (children p = [] ->
   forallb negb (firstn (S N) (q_wait (os p))) = true ->
   fst ended = Ret 0 ->
   forall e st,
     In (EvFork e st) (log (snd ended)) ->
     In (EvFork e st) (log p) \/ st = W_exited 0).
Proof.
  intros Hm Hp Hf N ended.
  destruct (spawn_phase_spawns p Hm Hp Hf)
    as (r & p3 & sts & Esp & Hr & F3 & C3 & Hl & U3).
  fold N in Esp, F3, Hl.
  assert (Hrun : ended
                 = (early <- spawn_phase N ;;
                    match early with
                    | Some r => ret r
                    | None => wait_loop (S N) None 0
                    end) p) by reflexivity.
  rewrite (bind_ret_l _ _ _ _ _ Esp) in Hrun.
  destruct Hr as [->| ->].
  - destruct (wait_loop_ends (S N) p3 None 0) as (rv & p4 & Ew & Hrv); auto.
    rewrite Ew in Hrun. rewrite Hrun. cbn [fst snd].
    pose proof (keeps_at _ _ _ _ _ (forked_wait_loop _ _ _) Ew) as F4.
    pose proof (keeps_at _ _ _ _ _ (unforked_wait_loop _ _ _) Ew) as U4.
    unfold forked_same in F4.
    split; [rewrite F4; exact F3|].
    split; [destruct Hrv as [->| ->]; auto|].
    intros Hnone Hq Hret e st Hin.
    rewrite Hnone in C3. cbn [app] in C3.
    pose proof (keeps_at _ _ _ _ _ (waits_spawn_phase _) Esp) as W3.
    unfold same_waits in W3. rewrite <- W3 in Hq.
    destruct (wait_loop_collects (S N) p3 None 0) as (p4' & Ew' & _).
    { rewrite C3. exact Hl. }
    { exact Hq. }
    rewrite Ew in Ew'.
    destruct (U3 e st (U4 e st Hin)) as [Hin'|Hin']; [left; exact Hin'|right].
    destruct (forallb succeeded (children p3)) eqn:Hall.
    + rewrite forallb_forall in Hall. apply succeeded_iff, Hall.
      rewrite C3. exact Hin'.
    + inversion Hret; subst. inversion Ew'.
  - rewrite Hrun. cbn [fst snd].
    split; [exact F3|]. split; [right; reflexivity|].
    intros _ _ Hret. discriminate Hret.
Qed.

Lemma every_sequence_is_spawned_witness :
  let ended := run_pipelined_commands (shell ["|"; "ls"]%string quiet) in
  forked (log (snd ended)) = 2%nat /\
  (fst ended = Ret 0 \/ fst ended = Ret (-1)).
Proof.
  destruct (every_sequence_is_spawned (shell ["|"; "ls"]%string quiet)
              eq_refl eq_refl eq_refl) as (H1 & H2 & _).
  exact (conj H1 H2).
Defined.

(** C7, as stated, fails: [| ls] starts with a separator and its first
    stage is empty, yet two contexts are spawned, whether [run_command]
    starts the empty stage or refuses it. *)
Lemma leading_separator_is_not_rejected :
  let p := shell ["|"; "ls"]%string quiet in
  let q := shell ["|"; "ls"]%string
             (with_q_fork [Some default_kid; Some refused_kid] quiet) in
  malformed (tokens p) = true /\
  forked (log (snd (run_pipelined_commands p))) = 2%nat /\
  forked (log (snd (run_pipelined_commands q))) = 2%nat.
Proof. vm_compute. repeat split. Qed.

(** ** A [pipe] that fails *)

Lemma created_same_refl p : created_same p p.
Proof. reflexivity. Qed.

Lemma created_same_trans p q r :
  created_same p q -> created_same q r -> created_same p r.
Proof. unfold created_same; congruence. Qed.

#[local] Hint Resolve created_same_refl created_same_trans : frame.

Lemma created_close fd : keeps created_same (sys_close fd).
Proof. intro p; unfold sys_close; destruct (hd false _); reflexivity. Qed.

#[local] Hint Resolve created_close : frame.

Lemma close_created_S a j n :
  close_created a j (S n)
  = (fd <- load a (2 * Z.of_nat j) ;;
     c <- sys_close fd ;;
     if c =? -1 then ret (Some (-1)) else
     fd' <- load a (2 * Z.of_nat j + 1) ;;
     c' <- sys_close fd' ;;
     if c' =? -1 then ret (Some (-1)) else close_created a (S j) n).
Proof. reflexivity. Qed.

Lemma close_created_spec a m n :
  forall j p,
    filled a m -> (2 * (j + n) <= m)%nat ->
    exists r p',
      close_created a j n p = (Ret r, p') /\
      incl (fdt p') (fdt p) /\
      created (log p') = created (log p) /\
      (forallb negb (firstn (2 * n) (q_close (os p))) = true ->
       forall k fd,
         (2 * j <= k < 2 * (j + n))%nat ->
         nth_error a k = Some (Some fd) -> ~ In fd (fdt p')).
Proof.
  induction n as [|n IH]; intros j p Hf Hm.
  - exists None, p. repeat split; auto using incl_refl. intros _ k fd Hk; lia.
  - rewrite close_created_S.
    destruct (load_filled a m (2 * j) p Hf) as (fd1 & En1 & El1); [lia|].
    replace (Z.of_nat (2 * j)) with (2 * Z.of_nat j) in El1 by lia.
    rewrite (bind_ret_l _ _ _ _ _ El1).
    destruct (close_cases fd1 p) as (c1 & p1 & Ec1 & Hq1 & Hcase1).
    pose proof (keeps_at _ _ _ _ _ (created_close fd1) Ec1) as Hcr1.
    rewrite (bind_ret_l _ _ _ _ _ Ec1).
    replace (2 * S n)%nat with (S (S (2 * n))) by lia.
    destruct Hcase1 as [(-> & Hhd1 & Hfd1)|(-> & Hhd1 & Hfd1)].
    { exists (Some (-1)), p1. repeat split; auto.
      - rewrite Hfd1; apply incl_refl.
      - intro Hok. apply firstn_ok_hd_tl in Hok. destruct Hok; congruence. }
    change (0 =? -1) with false; cbv iota.
    destruct (load_filled a m (2 * j + 1) p1 Hf) as (fd2 & En2 & El2); [lia|].
    replace (Z.of_nat (2 * j + 1)) with (2 * Z.of_nat j + 1) in El2 by lia.
    rewrite (bind_ret_l _ _ _ _ _ El2).
    destruct (close_cases fd2 p1) as (c2 & p2 & Ec2 & Hq2 & Hcase2).
    pose proof (keeps_at _ _ _ _ _ (created_close fd2) Ec2) as Hcr2.
    rewrite (bind_ret_l _ _ _ _ _ Ec2).
    assert (Hi2 : incl (fdt p2) (fdt p)).
    { destruct Hcase2 as [(_ & _ & ->)|(_ & _ & ->)]; rewrite ?Hfd1;
        intros x Hx; repeat (apply in_remove in Hx; destruct Hx as [Hx _]);
        exact Hx. }
    destruct Hcase2 as [(-> & Hhd2 & Hfd2)|(-> & Hhd2 & Hfd2)].
    { exists (Some (-1)), p2. repeat split; auto.
      - unfold created_same in *; congruence.
      - intro Hok. apply firstn_ok_hd_tl in Hok. destruct Hok as [_ Hok].
        apply firstn_ok_hd_tl in Hok. destruct Hok; congruence. }
    change (0 =? -1) with false; cbv iota.
    destruct (IH (S j) p2 Hf) as (r & p3 & E3 & Hi3 & Hcr3 & Hcl3); [lia|].
    exists r, p3. split; [exact E3|]. split.
    { intros x Hx; apply Hi2, Hi3, Hx. }
    split.
    { unfold created_same in *; congruence. }
    intros Hok k fd Hk En.
    apply firstn_ok_hd_tl in Hok. destruct Hok as [_ Hok].
    apply firstn_ok_hd_tl in Hok. destruct Hok as [_ Hok].
    rewrite <- Hq1, <- Hq2 in Hok.
    destruct (Nat.eq_dec k (2 * j)) as [->|Hk1].
    { rewrite En1 in En; inversion En; subst. intro Hin.
      apply Hi3 in Hin. rewrite Hfd2 in Hin. apply in_remove in Hin.
      destruct Hin as [Hin _]. rewrite Hfd1 in Hin.
      apply in_remove in Hin. destruct Hin as [_ Hin]. congruence. }
    destruct (Nat.eq_dec k (2 * j + 1)) as [->|Hk2].
    { rewrite En2 in En; inversion En; subst. intro Hin.
      apply Hi3 in Hin. rewrite Hfd2 in Hin. apply in_remove in Hin.
      destruct Hin as [_ Hin]. congruence. }
    apply (Hcl3 Hok k fd); auto. lia.
Qed.


Lemma setup_pipes_fails n :
  forall a i p K rest F C0,
    (K < n)%nat ->
    q_pipe (os p) = repeat false K ++ true :: rest ->
    (2 * (i + n) <= length a)%nat ->
    filled a (2 * i) ->
    (forall fd, In fd (fdt p) ->
       In fd F \/ exists k, (k < 2 * i)%nat /\ nth_error a k = Some (Some fd)) ->
    (forall r w, In (r, w) (created (log p)) ->
       In (r, w) C0 \/
       exists j, (j < i)%nat /\ nth_error a (2 * j) = Some (Some r)
                 /\ nth_error a (2 * j + 1) = Some (Some w)) ->
    exists p',
      setup_pipes a i n p = (Ret (inl (-1)), p') /\
      (forallb negb (firstn (2 * (i + K)) (q_close (os p))) = true ->
       incl (fdt p') F /\
       forall r w, In (r, w) (created (log p')) ->
         In (r, w) C0 \/ (~ In r (fdt p') /\ ~ In w (fdt p'))).
Proof.
  induction n as [|n IH]; intros a i p K rest F C0 HK Hq Hl Hfill Hfd Hcr; [lia|].
  rewrite setup_pipes_S.
  destruct K as [|K].
  - (* this [pipe] fails *)
    simpl in Hq.
    set (p1 := note EvPipeFail (with_os (pop_pipe (os p)) p)).
    assert (Ep : sys_pipe a (2 * i) p = (Ret (-1, a), p1)).
    { unfold sys_pipe. rewrite Hq. reflexivity. }
    rewrite (bind_ret_l _ _ _ _ _ Ep). cbn [fst snd].
    change (-1 =? -1) with true. cbv iota.
    destruct (close_created_spec a (2 * i) i 0 p1 Hfill) as
      (r & p' & Ec & Hi & Hsame & Hclosed); [lia|].
    rewrite (bind_ret_l _ _ _ _ _ Ec).
    exists p'. split; [reflexivity|].
    replace (2 * (i + 0))%nat with (2 * i)%nat by lia.
    intro Hok. specialize (Hclosed Hok).
    split.
    + intros fd Hin. destruct (Hfd fd (Hi fd Hin)) as [HF|(k & Hk & En)]; auto.
      exfalso. apply (Hclosed k fd); auto. lia.
    + intros r0 w0 Hin. rewrite Hsame in Hin.
      destruct (Hcr r0 w0 Hin) as [HC|(j & Hj & Er & Ew)]; auto.
      right; split.
      * apply (Hclosed (2 * j)%nat r0); auto. lia.
      * apply (Hclosed (2 * j + 1)%nat w0); auto. lia.
  - (* this [pipe] succeeds *)
    simpl in Hq.
    assert (Hhd : hd false (q_pipe (os p)) = false) by (rewrite Hq; reflexivity).
    rewrite (bind_ret_l _ _ _ _ _ (pipe_succeeds a (2 * i) p Hhd ltac:(lia))).
    cbn [fst snd]. change (0 =? -1) with false. cbv iota.
    set (r := fresh_fd (fdt p)).
    set (w := fresh_fd (r :: fdt p)).
    destruct (pipe_cells a i r w ltac:(lia)) as (Hr & Hw & Hold).
    set (a1 := store (store a (2 * i) r) (S (2 * i)) w) in *.
    match goal with
    | |- context [setup_pipes a1 (S i) n ?q] => set (p1 := q)
    end.
    destruct (IH a1 (S i) p1 K rest F C0) as (p' & E & Hconcl).
    + lia.
    + simpl. rewrite Hq. reflexivity.
    + subst a1. rewrite !store_length. lia.
    + intros k Hk.
      destruct (Nat.eq_dec k (2 * i)) as [->|Hk1]; [eauto|].
      destruct (Nat.eq_dec k (2 * i + 1)) as [->|Hk2]; [eauto|].
      rewrite Hold by lia. apply Hfill; lia.
    + intros fd Hin. simpl in Hin.
      destruct Hin as [<-|[<-|Hin]].
      * right. exists (2 * i + 1)%nat. split; [lia|exact Hw].
      * right. exists (2 * i)%nat. split; [lia|exact Hr].
      * destruct (Hfd fd Hin) as [HF|(k & Hk & En)]; auto.
        right. exists k. split; [lia|]. rewrite Hold by lia. exact En.
    + intros r0 w0 Hin. simpl in Hin.
      destruct Hin as [Heq|Hin].
      * inversion Heq; subst r0 w0. right. exists i. split; [lia|]. split; assumption.
      * destruct (Hcr r0 w0 Hin) as [HC|(j & Hj & Er & Ew)]; auto.
        right. exists j. split; [lia|].
        rewrite !Hold by lia. split; assumption.
    + exists p'. split; [exact E|].
      replace (2 * (i + S K))%nat with (2 * (S i + K))%nat by lia.
      exact Hconcl.
Qed.

(** C8 (as the code has it).  When the pipe of boundary [K < N] cannot be
    made, [run_pipelined_commands] returns -1 and no context is spawned.
    If the closes of the cleanup succeed, both ends of every pipe made
    during the call are closed by then, and no descriptor is open that was
    not open before the call. *)
Theorem failed_pipe_closes_created_channels
    (p : proc) (K : nat) (rest : list bool) :
  (K < strvec_num_occurrences (tokens p) PIPE)%nat ->
  hd false (q_malloc (os p)) = false ->
  q_pipe (os p) = repeat false K ++ true :: rest ->
  exists p',
    run_pipelined_commands p = (Ret (-1), p') /\
    children p' = children p /\
    forked (log p') = forked (log p) /\
    (forallb negb (firstn (2 * K) (q_close (os p))) = true ->
     incl (fdt p') (fdt p) /\
     forall r w, In (r, w) (created (log p')) ->
       In (r, w) (created (log p)) \/ (~ In r (fdt p') /\ ~ In w (fdt p'))).
Proof.
  intros HK Hm Hq.
  set (N := strvec_num_occurrences (tokens p) PIPE) in *.
  set (p0 := with_os (pop_malloc (os p)) p).
  assert (Em : malloc_ints (2 * N) p = (Ret (Some (repeat None (2 * N))), p0)).
  { unfold malloc_ints. rewrite Hm. reflexivity. }
  destruct (setup_pipes_fails N (repeat None (2 * N)) 0 p0 K rest
              (fdt p) (created (log p))) as (p' & Es & Hconcl); auto.
  - rewrite repeat_length; lia.
  - intros k Hk; lia.
  - pose proof (keeps_at _ _ _ _ _ (calm_setup_pipes _ _ _) Es) as (Hc & Hf & _).
    assert (Esp : spawn_phase N p = (Ret (Some (-1)), p')).
    { unfold spawn_phase.
      rewrite (bind_ret_l _ _ _ _ _ Em). cbv iota beta.
      rewrite (bind_ret_l _ _ _ _ _ Es). reflexivity. }
    exists p'. split.
    { unfold run_pipelined_commands, bind at 1, get_tokens. fold N.
      rewrite (bind_ret_l _ _ _ _ _ Esp). reflexivity. }
    split; [exact Hc|]. split; [exact Hf|].
    exact Hconcl.
Qed.

Lemma failed_pipe_closes_created_channels_witness :
  exists p',
    run_pipelined_commands
      (shell ["a"; "|"; "b"; "|"; "c"; "|"; "d"]%string
         (with_q_pipe [false; false; true] quiet))
    = (Ret (-1), p') /\
    forked (log p') = 0%nat /\
    incl (fdt p') [0; 1; 2] /\
    forall r w, In (r, w) (created (log p')) ->
                ~ In r (fdt p') /\ ~ In w (fdt p').
Proof.
  destruct (failed_pipe_closes_created_channels
              (shell ["a"; "|"; "b"; "|"; "c"; "|"; "d"]%string
                 (with_q_pipe [false; false; true] quiet))
              2 [] ltac:(vm_compute; lia) eq_refl eq_refl)
    as (p' & E & _ & Hf & Hclosed).
  destruct (Hclosed eq_refl) as (Hincl & Hpipes).
  exists p'. split; [exact E|]. split; [exact Hf|]. split; [exact Hincl|].
  intros r w Hin. destruct (Hpipes r w Hin) as [[]|H]. exact H.
Defined.

(** C8, as stated, fails: with three separators, the third pipe failing and
    then the first close of the cleanup failing too, the function returns
    -1 at once (a nested error): the four descriptors of the two pipes it
    made are still open. *)
Lemma nested_error_leaves_channels_open :
  let r := run_pipelined_commands
             (shell ["a"; "|"; "b"; "|"; "c"; "|"; "d"]%string
                (with_q_close [true] (with_q_pipe [false; false; true] quiet))) in
  fst r = Ret (-1) /\
  created (log (snd r)) = [(5, 6); (3, 4)] /\
  forked (log (snd r)) = 0%nat /\
  fdt (snd r) = [6; 5; 4; 3; 0; 1; 2].
Proof. vm_compute. repeat split. Qed.

(** * Further properties *)

(** ** Descriptors that [pipe] hands out *)

Lemma filter_from_le (n : Z) (l : list Z) :
  (length (filter (fun x : Z => (n + 1 <=? x)%Z) l)
   <= length (filter (fun x : Z => (n <=? x)%Z) l))%nat.
Proof.
  induction l as [|x l IH]; simpl; [lia|].
  destruct (Z.leb_spec (n + 1) x), (Z.leb_spec n x); simpl; lia.
Qed.

Lemma filter_from_lt (n : Z) (l : list Z) :
  In n l ->
  (length (filter (fun x : Z => (n + 1 <=? x)%Z) l)
   < length (filter (fun x : Z => (n <=? x)%Z) l))%nat.
Proof.
  induction l as [|x l IH]; simpl; [tauto|].
  intros [->|Hin].
  - pose proof (filter_from_le n l).
    destruct (Z.leb_spec (n + 1) n), (Z.leb_spec n n); simpl; lia.
  - specialize (IH Hin).
    destruct (Z.leb_spec (n + 1) x), (Z.leb_spec n x); simpl; lia.
Qed.

Lemma lowest_free_fresh fuel :
  forall n l,
    (length (filter (fun x : Z => (n <=? x)%Z) l) < fuel)%nat ->
    ~ In (lowest_free fuel n l) l.
Proof.
  induction fuel as [|fuel IH]; intros n l Hlen; [lia|].
  simpl. destruct (existsb (Z.eqb n) l) eqn:E.
  - apply IH.
    apply existsb_exists in E. destruct E as (x & Hin & Hx).
    apply Z.eqb_eq in Hx; subst x.
    pose proof (filter_from_lt n l Hin). lia.
  - intro Hin.
    assert (existsb (Z.eqb n) l = true); [|congruence].
    apply existsb_exists. exists n. split; [exact Hin|apply Z.eqb_refl].
Qed.

Lemma fresh_fd_fresh (l : list Z) : ~ In (fresh_fd l) l.
Proof.
  apply lowest_free_fresh.
  pose proof (filter_length_le (fun x : Z => (0 <=? x)%Z) l). lia.
Qed.

(** ** Descriptors the parent had before the call *)

Lemma spares_refl F p : spares F p p.
Proof. intro H; exact H. Qed.

Lemma spares_trans F p q r : spares F p q -> spares F q r -> spares F p r.
Proof. unfold spares; auto. Qed.

Lemma same_fdt_refl p : same_fdt p p.
Proof. reflexivity. Qed.

Lemma same_fdt_trans p q r : same_fdt p q -> same_fdt q r -> same_fdt p r.
Proof. unfold same_fdt; congruence. Qed.

#[local] Hint Resolve spares_refl spares_trans same_fdt_refl same_fdt_trans
  : frame.

Lemma same_fdt_spares F {A} (m : M A) : keeps same_fdt m -> keeps (spares F) m.
Proof. intros H p Hin. rewrite (H p). exact Hin. Qed.

Lemma fdt_malloc n : keeps same_fdt (malloc_ints n).
Proof. intro p; unfold malloc_ints; destruct (hd false _); reflexivity. Qed.

Lemma fdt_fork branch : keeps same_fdt (sys_fork branch).
Proof.
  intro p; unfold sys_fork.
  destruct (hd (Some default_kid) _); reflexivity.
Qed.

Lemma fdt_wait st : keeps same_fdt (sys_wait st).
Proof.
  intro p; unfold sys_wait.
  destruct (hd false _); [reflexivity|].
  destruct (take_out _ _) as [[s r]|]; reflexivity.
Qed.

#[local] Hint Resolve fdt_malloc fdt_fork fdt_wait : frame.

Lemma fdt_wait_loop n : forall st rv, keeps same_fdt (wait_loop n st rv).
Proof. induction n; intros st rv; simpl; frame. Qed.

(** A descriptor read from the array and closed: nothing of [F] goes. *)
Lemma spares_load_close F a k {A} (K : Z -> M A) :
  outside a F ->
  (forall c, keeps (spares F) (K c)) ->
  keeps (spares F) (fd <- load a k ;; c <- sys_close fd ;; K c).
Proof.
  intros Hout HK p. unfold bind at 1, load.
  destruct (k <? 0); [apply spares_refl|].
  destruct (nth_error a (Z.to_nat k)) as [[fd|]|] eqn:E;
    try apply spares_refl.
  destruct (close_cases fd p) as (c & p1 & Ec & _ & Hcase).
  rewrite (bind_ret_l _ _ _ _ _ Ec).
  eapply spares_trans; [|apply HK].
  intros Hin x Hx.
  destruct Hcase as [(_ & _ & ->)|(_ & _ & ->)]; [auto|].
  apply in_in_remove; [|auto].
  intros ->. exact (Hout _ _ E Hx).
Qed.

Lemma spares_close_created F a n :
  outside a F -> forall j, keeps (spares F) (close_created a j n).
Proof.
  intros Hout. induction n as [|n IH]; intro j; simpl; [frame|].
  apply spares_load_close; [exact Hout|]. intro c.
  apply keeps_if; [frame|].
  apply spares_load_close; [exact Hout|]. intro c'.
  apply keeps_if; [frame|apply IH].
Qed.

Lemma spares_fork_failed F a n :
  outside a F -> forall j, keeps (spares F) (fork_failed a j n).
Proof.
  intros Hout. induction n as [|n IH]; intro j; simpl; [frame|].
  apply spares_load_close; [exact Hout|]. intro c.
  apply keeps_if; [frame|].
  apply spares_load_close; [exact Hout|]. intro c'.
  apply keeps_if; [frame|apply IH].
Qed.

Lemma spares_parent_sweep F a n :
  outside a F -> forall i, keeps (spares F) (parent_sweep a i n).
Proof.
  intros Hout. induction n as [|n IH]; intro i; simpl; [frame|].
  apply spares_load_close; [exact Hout|]. intro c.
  apply keeps_if; [|apply IH].
  apply spares_load_close; [exact Hout|]. intro c'. frame.
Qed.

Lemma spares_fork F branch : keeps (spares F) (sys_fork branch).
Proof. apply same_fdt_spares, fdt_fork. Qed.

#[local] Hint Resolve spares_fork spares_fork_failed spares_close_created
  spares_parent_sweep : frame.

Lemma spares_fork_loop F a N i :
  outside a F -> keeps (spares F) (fork_loop a N i).
Proof.
  intro Hout.
  induction i as [|i IH]; simpl; unfold fork_stage; frame.
Qed.

Lemma pipe_cells_inv a i r w k fd :
  (2 * i + 2 <= length a)%nat ->
  nth_error (store (store a (2 * i) r) (S (2 * i)) w) k = Some (Some fd) ->
  (k = (2 * i)%nat /\ fd = r) \/ (k = S (2 * i) /\ fd = w) \/
  (k <> (2 * i)%nat /\ k <> S (2 * i) /\ nth_error a k = Some (Some fd)).
Proof.
  intros Hl E.
  destruct (Nat.eq_dec k (S (2 * i))) as [->|H1].
  - rewrite store_same in E by (rewrite store_length; lia).
    inversion E; auto.
  - rewrite store_other in E by auto.
    destruct (Nat.eq_dec k (2 * i)) as [->|H2].
    + rewrite store_same in E by lia. inversion E; auto.
    + rewrite store_other in E by auto. auto.
Qed.

Lemma setup_pipes_spares F n :
  forall a i p,
    incl F (fdt p) -> outside a F -> (2 * (i + n) <= length a)%nat ->
    incl F (fdt (snd (setup_pipes a i n p))) /\
    forall a' p', setup_pipes a i n p = (Ret (inr a'), p') -> outside a' F.
Proof.
  induction n as [|n IH]; intros a i p Hin Hout Hl.
  - simpl. split; [exact Hin|]. intros a' p' E; inversion E; subst; exact Hout.
  - rewrite setup_pipes_S.
    destruct (hd false (q_pipe (os p))) eqn:Hq.
    + set (p1 := note EvPipeFail (with_os (pop_pipe (os p)) p)).
      assert (Ep : sys_pipe a (2 * i) p = (Ret (-1, a), p1)).
      { unfold sys_pipe. rewrite Hq. reflexivity. }
      rewrite (bind_ret_l _ _ _ _ _ Ep). cbn [fst snd].
      change (-1 =? -1) with true. cbv iota.
      split.
      * assert (K : keeps (spares F)
                      (_ <- close_created a 0 i ;; ret (@inl Z array (-1))))
          by frame.
        apply (K p1). exact Hin.
      * intros a' p' E. apply bind_ret_inv in E.
        destruct E as (? & ? & _ & E). discriminate.
    + rewrite (bind_ret_l _ _ _ _ _ (pipe_succeeds a (2 * i) p Hq ltac:(lia))).
      cbn [fst snd]. change (0 =? -1) with false. cbv iota.
      apply IH.
      * simpl. intros x Hx. right; right. apply Hin, Hx.
      * intros k fd E.
        apply pipe_cells_inv in E; [|lia].
        destruct E as [(_ & ->)|[(_ & ->)|(_ & _ & E)]].
        -- intro Hx. exact (fresh_fd_fresh _ (Hin _ Hx)).
        -- intro Hx.
           apply (fresh_fd_fresh (fresh_fd (fdt p) :: fdt p)).
           right. apply Hin, Hx.
        -- exact (Hout _ _ E).
      * rewrite !store_length. lia.
Qed.

Lemma setup_pipes_tracks F n :
  forall a i p a' p',
    setup_pipes a i n p = (Ret (inr a'), p') ->
    (forall fd, In fd (fdt p) ->
       In fd F \/ exists k, (k < 2 * i)%nat /\ nth_error a k = Some (Some fd)) ->
    (2 * (i + n) <= length a)%nat ->
    forall fd, In fd (fdt p') ->
      In fd F \/
      exists k, (k < 2 * (i + n))%nat /\ nth_error a' k = Some (Some fd).
Proof.
  induction n as [|n IH]; intros a i p a' p' E Hfd Hl.
  - inversion E; subst. replace (i + 0)%nat with i by lia. exact Hfd.
  - rewrite setup_pipes_S in E.
    destruct (hd false (q_pipe (os p))) eqn:Hq.
    + assert (Ep : sys_pipe a (2 * i) p
                   = (Ret (-1, a), note EvPipeFail (with_os (pop_pipe (os p)) p))).
      { unfold sys_pipe. rewrite Hq. reflexivity. }
      rewrite (bind_ret_l _ _ _ _ _ Ep) in E. cbn [fst snd] in E.
      change (-1 =? -1) with true in E. cbv iota in E.
      apply bind_ret_inv in E. destruct E as (? & ? & _ & E). discriminate.
    + rewrite (bind_ret_l _ _ _ _ _ (pipe_succeeds a (2 * i) p Hq ltac:(lia)))
        in E.
      cbn [fst snd] in E. change (0 =? -1) with false in E. cbv iota in E.
      destruct (pipe_cells a i (fresh_fd (fdt p))
                  (fresh_fd (fresh_fd (fdt p) :: fdt p)) ltac:(lia))
        as (Hr & Hw & Hold).
      replace (2 * (i + S n))%nat with (2 * (S i + n))%nat by lia.
      eapply IH; [exact E| |rewrite !store_length; lia].
      intros fd Hin. simpl in Hin.
      destruct Hin as [<-|[<-|Hin]].
      * right. exists (2 * i + 1)%nat. split; [lia|exact Hw].
      * right. exists (2 * i)%nat. split; [lia|exact Hr].
      * destruct (Hfd fd Hin) as [HF|(k & Hk & En)]; auto.
        right. exists k. split; [lia|]. rewrite Hold by lia. exact En.
Qed.

Lemma load_inv a k p v q :
  load a k p = (Ret v, q) ->
  q = p /\ 0 <= k /\ nth_error a (Z.to_nat k) = Some (Some v).
Proof.
  unfold load. destruct (Z.ltb_spec k 0); [discriminate|].
  destruct (nth_error a (Z.to_nat k)) as [[x|]|]; try discriminate.
  intro E; inversion E; subst; auto.
Qed.

Lemma parent_sweep_closes a n :
  forall i p p',
    parent_sweep a i n p = (Ret None, p') ->
    incl (fdt p') (fdt p) /\
    forall k fd, (i <= k < i + n)%nat ->
                 nth_error a k = Some (Some fd) -> ~ In fd (fdt p').
Proof.
  induction n as [|n IH]; intros i p p' E; simpl in E.
  - inversion E; subst. split; [apply incl_refl|]. intros; lia.
  - apply bind_ret_inv in E. destruct E as (fd & q & El & E).
    apply load_inv in El. destruct El as (-> & _ & En).
    rewrite Nat2Z.id in En.
    apply bind_ret_inv in E. destruct E as (c & p1 & Ec & E).
    destruct (close_cases fd p) as (c0 & p0 & Ec0 & _ & Hcase).
    rewrite Ec in Ec0; inversion Ec0; subst c0 p0; clear Ec0.
    destruct Hcase as [(-> & _)|(-> & _ & Hfd)].
    + change (-1 =? -1) with true in E. cbv iota in E.
      apply bind_ret_inv in E. destruct E as (? & ? & _ & E).
      apply bind_ret_inv in E. destruct E as (? & ? & _ & E). discriminate.
    + change (0 =? -1) with false in E. cbv iota in E.
      apply IH in E. destruct E as (Hi & Hc).
      assert (Hi1 : incl (fdt p1) (fdt p)).
      { rewrite Hfd. intros x Hx. apply in_remove in Hx. tauto. }
      split; [intros x Hx; apply Hi1, Hi, Hx|].
      intros k fd0 Hk E0.
      destruct (Nat.eq_dec k i) as [->|Hne].
      * rewrite En in E0; inversion E0; subst fd0. intro Hin.
        apply Hi in Hin. rewrite Hfd in Hin. apply in_remove in Hin. tauto.
      * apply (Hc k fd0); auto. lia.
Qed.

Lemma fork_loop_returns_fdt a N i :
  forall p p', fork_loop a N i p = (Ret tt, p') -> fdt p' = fdt p.
Proof.
  assert (Hstage : forall j p q,
             fork_stage a N j p = (Ret tt, q) -> fdt q = fdt p).
  { intros j p q H. unfold fork_stage in H.
    apply bind_ret_inv in H. destruct H as (pid & q0 & Hf & Hk).
    pose proof (keeps_at _ _ _ _ _ (fdt_fork _) Hf) as F.
    destruct (pid =? -1).
    - exfalso; eapply bind_exit_never_returns; eauto.
    - inversion Hk; subst. exact F. }
  induction i as [|i IH]; intros p p' H; simpl in H;
    apply bind_ret_inv in H; destruct H as ([] & q & Hs & Hk);
    apply Hstage in Hs.
  - inversion Hk; subst. exact Hs.
  - apply IH in Hk. congruence.
Qed.

Lemma spawn_phase_spares N p :
  incl (fdt p) (fdt (snd (spawn_phase N p))).
Proof.
  unfold spawn_phase, bind at 1, malloc_ints.
  set (p0 := with_os (pop_malloc (os p)) p).
  destruct (hd false (q_malloc (os p))); [apply incl_refl|].
  destruct (setup_pipes_spares (fdt p) N (repeat None (2 * N)) 0 p0)
    as (Hin & Hout).
  { apply incl_refl. }
  { intros k fd E. apply nth_error_In, repeat_spec in E. discriminate. }
  { rewrite repeat_length; lia. }
  unfold bind at 1.
  destruct (setup_pipes (repeat None (2 * N)) 0 N p0) as [[[r|a]|c|v|] p1];
    simpl in Hin; try exact Hin.
  assert (K : keeps (spares (fdt p))
                (fork_loop a N N ;; parent_sweep a 0 (2 * N))).
  { specialize (Hout a p1 eq_refl).
    apply keeps_bind;
      [ eauto with frame
      | apply spares_fork_loop; exact Hout
      | intros; apply spares_parent_sweep; exact Hout ]. }
  apply (K p1). exact Hin.
Qed.

Lemma run_spares (p : proc) :
  incl (fdt p) (fdt (snd (run_pipelined_commands p))).
Proof.
  unfold run_pipelined_commands, bind at 1, get_tokens.
  set (N := strvec_num_occurrences (tokens p) PIPE).
  pose proof (spawn_phase_spares N p) as H.
  unfold bind.
  destruct (spawn_phase N p) as [[[r|]|c|v|] p1]; simpl in H; try exact H.
  destruct (wait_loop (S N) None 0 p1) as [r p2] eqn:Ew.
  pose proof (keeps_at _ _ _ _ _ (fdt_wait_loop _ _ _) Ew) as Hs.
  cbn [snd]. rewrite Hs. exact H.
Qed.

(** X1.  On no path does the parent lose a descriptor it had when the
    function was called: every [close] it makes is of a descriptor that a
    [pipe] of this call created. *)
Theorem parent_keeps_its_descriptors (p : proc) :
  incl (fdt p) (fdt (snd (run_pipelined_commands p))).
Proof. exact (run_spares p). Qed.

(** X2.  When the function gets as far as waiting, the parent is left with
    exactly the descriptors it had before the call: both ends of all [N]
    pipes are closed in it, and nothing else is. *)
Theorem waiting_parent_holds_no_pipe (p p1 : proc) :
  spawn_phase (strvec_num_occurrences (tokens p) PIPE) p = (Ret None, p1) ->
  forall fd, In fd (fdt (snd (run_pipelined_commands p))) <-> In fd (fdt p).
Proof.
  intros Hspawn fd.
  split; [|apply run_spares].
  assert (Hfin : fdt (snd (run_pipelined_commands p)) = fdt p1).
  { unfold run_pipelined_commands, bind at 1, get_tokens.
    rewrite (bind_ret_l _ _ _ _ _ Hspawn).
    destruct (wait_loop _ None 0 p1) as [r p2] eqn:Ew.
    exact (keeps_at _ _ _ _ _ (fdt_wait_loop _ _ _) Ew). }
  rewrite Hfin.
  set (N := strvec_num_occurrences (tokens p) PIPE) in *.
  unfold spawn_phase in Hspawn.
  apply bind_ret_inv in Hspawn. destruct Hspawn as (m & p0 & Em & H).
  pose proof (keeps_at _ _ _ _ _ (fdt_malloc _) Em) as F0.
  unfold malloc_ints in Em.
  destruct (hd false (q_malloc (os p))); inversion Em; subst m; [discriminate|].
  apply bind_ret_inv in H. destruct H as (s & p2 & Es & H).
  destruct s as [r|a]; [discriminate|].
  apply bind_ret_inv in H. destruct H as ([] & p3 & Ef & Hsw).
  pose proof (fork_loop_returns_fdt _ _ _ _ _ Ef) as F3.
  apply parent_sweep_closes in Hsw. destruct Hsw as (Hi & Hc).
  intro Hin.
  pose proof (Hi _ Hin) as Hin3. rewrite F3 in Hin3.
  destruct (setup_pipes_tracks (fdt p) N _ 0 _ _ _ Es) with (fd := fd)
    as [HF|(k & Hk & En)]; auto.
  - intros x Hx. left. rewrite <- F0. exact Hx.
  - rewrite repeat_length; lia.
  - exfalso. apply (Hc k fd); auto. lia.
Qed.

Lemma waiting_parent_holds_no_pipe_witness :
  let p := shell ["ls"; "|"; "wc"]%string quiet in
  ~ In 3 (fdt (snd (run_pipelined_commands p))) /\
  In 1 (fdt (snd (run_pipelined_commands p))).
Proof.
  intro p.
  assert (Hs : spawn_phase (strvec_num_occurrences (tokens p) PIPE) p
               = (Ret None, snd (spawn_phase 1 p)))
    by (vm_compute; reflexivity).
  pose proof (waiting_parent_holds_no_pipe p _ Hs) as H.
  split.
  - intro Hin. apply H in Hin. simpl in Hin.
    destruct Hin as [E|[E|[E|[]]]]; discriminate E.
  - apply H. simpl. auto.
Defined.

(** ** The parent never goes wrong *)

Lemma setup_pipes_ends n :
  forall a i p,
    (2 * (i + n) <= length a)%nat -> filled a (2 * i) ->
    exists p',
      setup_pipes a i n p = (Ret (inl (-1)), p') \/
      exists a', setup_pipes a i n p = (Ret (inr a'), p') /\
                 filled a' (2 * (i + n)).
Proof.
  induction n as [|n IH]; intros a i p Hl Hfill.
  - exists p. right. exists a. split; [reflexivity|].
    replace (i + 0)%nat with i by lia. exact Hfill.
  - rewrite setup_pipes_S.
    destruct (hd false (q_pipe (os p))) eqn:Hq.
    + set (p1 := note EvPipeFail (with_os (pop_pipe (os p)) p)).
      assert (Ep : sys_pipe a (2 * i) p = (Ret (-1, a), p1)).
      { unfold sys_pipe. rewrite Hq. reflexivity. }
      rewrite (bind_ret_l _ _ _ _ _ Ep). cbn [fst snd].
      change (-1 =? -1) with true. cbv iota.
      destruct (close_created_spec a (2 * i) i 0 p1 Hfill) as (r & p' & Ec & _);
        [lia|].
      rewrite (bind_ret_l _ _ _ _ _ Ec).
      exists p'. left. reflexivity.
    + rewrite (bind_ret_l _ _ _ _ _ (pipe_succeeds a (2 * i) p Hq ltac:(lia))).
      cbn [fst snd]. change (0 =? -1) with false. cbv iota.
      destruct (pipe_cells a i (fresh_fd (fdt p))
                  (fresh_fd (fresh_fd (fdt p) :: fdt p)) ltac:(lia))
        as (Hr & Hw & Hold).
      replace (2 * (i + S n))%nat with (2 * (S i + n))%nat by lia.
      apply IH; [rewrite !store_length; lia|].
      intros k Hk.
      destruct (Nat.eq_dec k (2 * i)) as [->|Hk1]; [eauto|].
      destruct (Nat.eq_dec k (2 * i + 1)) as [->|Hk2]; [eauto|].
      rewrite Hold by lia. apply Hfill; lia.
Qed.

Lemma fork_failed_ends a m n :
  forall j p,
    filled a m -> (2 * (j + n) <= m)%nat ->
    exists p', fork_failed a j n p = (Ret tt, p') \/
               fork_failed a j n p = (Exit 1, p').
Proof.
  induction n as [|n IH]; intros j p Hf Hm; simpl.
  - exists p; left; reflexivity.
  - destruct (load_filled a m (2 * j) p Hf) as (fd1 & _ & El1); [lia|].
    replace (Z.of_nat (2 * j)) with (2 * Z.of_nat j) in El1 by lia.
    rewrite (bind_ret_l _ _ _ _ _ El1).
    destruct (close_cases fd1 p) as (c1 & p1 & Ec1 & _ & [(-> & _)|(-> & _)]);
      rewrite (bind_ret_l _ _ _ _ _ Ec1); simpl.
    { exists p1; right; reflexivity. }
    destruct (load_filled a m (2 * j + 1) p1 Hf) as (fd2 & _ & El2); [lia|].
    replace (Z.of_nat (2 * j + 1)) with (2 * Z.of_nat j + 1) in El2 by lia.
    rewrite (bind_ret_l _ _ _ _ _ El2).
    destruct (close_cases fd2 p1) as (c2 & p2 & Ec2 & _ & [(-> & _)|(-> & _)]);
      rewrite (bind_ret_l _ _ _ _ _ Ec2); simpl.
    { exists p2; right; reflexivity. }
    apply IH; [exact Hf|lia].
Qed.

Lemma fork_loop_ends a N i :
  filled a (2 * N) ->
  forall p, exists p', fork_loop a N i p = (Ret tt, p') \/
                       fork_loop a N i p = (Exit 1, p').
Proof.
  intro Hf.
  assert (Hstage : forall j p,
             exists q, fork_stage a N j p = (Ret tt, q) \/
                       fork_stage a N j p = (Exit 1, q)).
  { intros j p. unfold fork_stage.
    set (branch := child_branch a N j _ _).
    assert (Ef : exists pid q0,
               sys_fork branch p = (Ret pid, q0) /\
               (pid = -1 \/ pid = Z.of_nat (S (length (children p))))).
    { unfold sys_fork.
      destruct (hd (Some default_kid) (q_fork (os p)));
        eexists _, _; (split; [reflexivity|]); auto. }
    destruct Ef as (pid & q0 & Ef & Hpid).
    rewrite (bind_ret_l _ _ _ _ _ Ef).
    destruct Hpid as [->| ->].
    - change (-1 =? -1) with true. cbv iota.
      destruct (fork_failed_ends a (2 * N) N 0 q0 Hf) as (p' & [E|E]);
        [lia| |]; exists p'; right; unfold bind; rewrite E; reflexivity.
    - destruct (Z.eqb_spec (Z.of_nat (S (length (children p)))) (-1)); [lia|].
      exists q0; left; reflexivity. }
  induction i as [|i IH]; intro p; simpl.
  - destruct (Hstage O p) as (q & [E|E]); exists q; unfold bind; rewrite E; auto.
  - destruct (Hstage (S i) p) as (q & [E|E]).
    + rewrite (bind_ret_l _ _ _ _ _ E). apply IH.
    + exists q; right; unfold bind; rewrite E; reflexivity.
Qed.

Lemma bind_exit_l {A B} (m : M A) (f : A -> M B) p c q :
  m p = (Exit c, q) -> bind m f p = (Exit c, q).
Proof. unfold bind; intros ->; reflexivity. Qed.

Lemma spawn_phase_ends N p :
  exists p1,
    spawn_phase N p = (Ret (Some (-1)), p1) \/
    spawn_phase N p = (Exit 1, p1) \/
    (spawn_phase N p = (Ret None, p1) /\ (S N <= length (children p1))%nat).
Proof.
  unfold spawn_phase.
  set (p0 := with_os (pop_malloc (os p)) p).
  destruct (hd false (q_malloc (os p))) eqn:Hm.
  { assert (Em : malloc_ints (2 * N) p = (Ret None, p0)).
    { unfold malloc_ints. rewrite Hm. reflexivity. }
    rewrite (bind_ret_l _ _ _ _ _ Em). exists p0; left; reflexivity. }
  assert (Em : malloc_ints (2 * N) p = (Ret (Some (repeat None (2 * N))), p0)).
  { unfold malloc_ints. rewrite Hm. reflexivity. }
  rewrite (bind_ret_l _ _ _ _ _ Em). cbv iota beta.
  destruct (setup_pipes_ends N (repeat None (2 * N)) 0 p0)
    as (p1 & [Es|(a & Es & Hfill)]).
  { rewrite repeat_length; lia. }
  { intros k Hk; lia. }
  { rewrite (bind_ret_l _ _ _ _ _ Es). exists p1; left; reflexivity. }
  rewrite (bind_ret_l _ _ _ _ _ Es). cbv iota beta.
  destruct (fork_loop_ends a N N Hfill p1) as (p2 & [Ef|Ef]).
  2:{ rewrite (bind_exit_l _ _ _ _ _ Ef). exists p2; right; left; reflexivity. }
  rewrite (bind_ret_l _ _ _ _ _ Ef).
  destruct (fork_loop_returns _ _ _ _ _ Ef) as (Hc & _).
  destruct (parent_sweep_ends a (2 * (0 + N)) (2 * N) 0 p2 Hfill) as
    (r & p3 & Esw & Hr); [lia|].
  pose proof (keeps_at _ _ _ _ _ (calm_parent_sweep _ _ _) Esw) as (Hc3 & _).
  exists p3. rewrite Esw.
  destruct Hr as [->| ->]; [|left; reflexivity].
  right; right. split; [reflexivity|]. rewrite Hc3, Hc. lia.
Qed.

(** X3.  Whatever the environment does, failing calls of [wait] and a
    [status] that is tested stale or unset included, the parent's run of
    [run_pipelined_commands] never reads outside the array of descriptors
    nor a cell of it that was not written, and it ends by returning 0, by
    returning -1 or by [exit (1)]. *)
Theorem parent_returns_or_exits (p : proc) :
  fst (run_pipelined_commands p) = Ret 0 \/
  fst (run_pipelined_commands p) = Ret (-1) \/
  fst (run_pipelined_commands p) = Exit 1.
Proof.
  set (N := strvec_num_occurrences (tokens p) PIPE).
  assert (Hrun : run_pipelined_commands p
                 = (early <- spawn_phase N ;;
                    match early with
                    | Some r => ret r
                    | None => wait_loop (S N) None 0
                    end) p) by reflexivity.
  rewrite Hrun. clear Hrun.
  destruct (spawn_phase_ends N p) as (p1 & [E|[E|(E & Hlen)]]).
  - rewrite (bind_ret_l _ _ _ _ _ E). right; left; reflexivity.
  - rewrite (bind_exit_l _ _ _ _ _ E). right; right; reflexivity.
  - rewrite (bind_ret_l _ _ _ _ _ E).
    destruct (wait_loop_ends (S N) p1 None 0) as (r & p4 & Ew & Hr); auto.
    rewrite Ew. destruct Hr as [->| ->]; auto.
Qed.

(** ** Stages of the token sequence *)

Lemma count_app (a b : strvec_t) s :
  strvec_num_occurrences (a ++ b) s
  = (strvec_num_occurrences a s + strvec_num_occurrences b s)%nat.
Proof.
  induction a as [|x a IH]; simpl; [reflexivity|].
  destruct (String.eqb x s); simpl; rewrite IH; reflexivity.
Qed.

Lemma segments_not_nil v : segments v <> [].
Proof.
  destruct v as [|x r]; simpl; [discriminate|].
  destruct (String.eqb x PIPE); [discriminate|].
  destruct (segments r); discriminate.
Qed.

Lemma segments_length v :
  length (segments v) = S (strvec_num_occurrences v PIPE).
Proof.
  induction v as [|x r IH]; simpl; [reflexivity|].
  destruct (String.eqb x PIPE); simpl; [rewrite IH; reflexivity|].
  destruct (segments r) as [|s ss] eqn:E; simpl in *; [discriminate|].
  exact IH.
Qed.

Lemma segments_no_separator v :
  strvec_num_occurrences v PIPE = O -> segments v = [v].
Proof.
  induction v as [|x r IH]; simpl; [reflexivity|].
  destruct (String.eqb x PIPE); [discriminate|].
  intro H. rewrite (IH H). reflexivity.
Qed.

Lemma segments_app pre post :
  segments (pre ++ PIPE :: post) = segments pre ++ segments post.
Proof.
  induction pre as [|x r IH]; simpl.
  - reflexivity.
  - rewrite IH.
    destruct (String.eqb x PIPE); [reflexivity|].
    destruct (segments r) as [|s ss] eqn:E; [|reflexivity].
    exfalso; exact (segments_not_nil r E).
Qed.

Lemma find_last_from_none v s :
  forall k acc,
    strvec_num_occurrences v s = O -> find_last_from v s k acc = acc.
Proof.
  induction v as [|x r IH]; intros k acc H; simpl in *; [reflexivity|].
  destruct (String.eqb x s); [discriminate|]. apply IH, H.
Qed.

Lemma find_last_from_app pre post s :
  strvec_num_occurrences post s = O ->
  forall k acc,
    find_last_from (pre ++ s :: post) s k acc = k + Z.of_nat (length pre).
Proof.
  intro Hpost. induction pre as [|x r IH]; intros k acc; simpl.
  - rewrite String.eqb_refl. rewrite find_last_from_none by exact Hpost. lia.
  - rewrite IH. lia.
Qed.

Lemma last_separator v :
  (0 < strvec_num_occurrences v PIPE)%nat ->
  exists pre post,
    v = pre ++ PIPE :: post /\ strvec_num_occurrences post PIPE = O.
Proof.
  induction v as [|x r IH]; simpl; [lia|].
  intro H.
  destruct (Nat.eq_dec (strvec_num_occurrences r PIPE) 0) as [Hr|Hr].
  - destruct (String.eqb_spec x PIPE) as [->|Hx]; [|lia].
    exists [], r. split; [reflexivity|exact Hr].
  - destruct IH as (pre & post & -> & Hpost); [lia|].
    exists (x :: pre), post. split; [reflexivity|exact Hpost].
Qed.

(** What one turn of the trimming loop sees and leaves. *)
Lemma last_separator_facts pre post :
  strvec_num_occurrences post PIPE = O ->
  let v := pre ++ PIPE :: post in
  strvec_find_last v PIPE = Z.of_nat (length pre) /\
  strvec_take v (Z.of_nat (length pre)) = pre /\
  slice v (Z.of_nat (length pre) + 1) (Z.of_nat (length v)) = post /\
  strvec_num_occurrences v PIPE = S (strvec_num_occurrences pre PIPE) /\
  segments v = segments pre ++ [post].
Proof.
  intros Hpost v. subst v. repeat split.
  - unfold strvec_find_last. rewrite find_last_from_app by exact Hpost. lia.
  - unfold strvec_take. rewrite Nat2Z.id.
    rewrite firstn_app, Nat.sub_diag, firstn_all. simpl. apply app_nil_r.
  - unfold slice.
    replace (Z.to_nat (Z.of_nat (length pre) + 1)) with (length pre + 1)%nat by lia.
    rewrite length_app. simpl.
    replace (Z.to_nat (Z.of_nat (length pre + S (length post))
                       - (Z.of_nat (length pre) + 1)))
      with (length post) by lia.
    rewrite skipn_app.
    rewrite skipn_all2 by lia.
    replace (length pre + 1 - length pre)%nat with 1%nat by lia.
    simpl. apply firstn_all.
  - rewrite count_app. cbn [strvec_num_occurrences].
    rewrite String.eqb_refl, Hpost. lia.
  - rewrite segments_app, (segments_no_separator post Hpost). reflexivity.
Qed.

Lemma trim_S a in_idx out_idx e n :
  trim a in_idx out_idx e (S n)
  = (toks <- get_tokens ;;
     if strvec_find_last toks PIPE =? -1 then
       set_tokens (strvec_clear toks) ;;
       close_own a in_idx out_idx ;;
       exit 1
     else
       set_tokens (strvec_take toks (strvec_find_last toks PIPE)) ;;
       trim a in_idx out_idx (strvec_find_last toks PIPE) n).
Proof. reflexivity. Qed.

(** The trimming loop, when there are separators enough, always finds
    one: it ends with the first stages of the sequence, up to the target,
    in the child's vector, the right bound being the length of what is
    left, and touches nothing but the tokens. *)
Lemma trim_spec a in_idx out_idx n :
  forall p,
    (n <= strvec_num_occurrences (tokens p) PIPE)%nat ->
    exists v',
      trim a in_idx out_idx (Z.of_nat (length (tokens p))) n p
      = (Ret (Z.of_nat (length v')), with_tokens v' p) /\
      strvec_num_occurrences v' PIPE
      = (strvec_num_occurrences (tokens p) PIPE - n)%nat /\
      forall i, (i <= strvec_num_occurrences v' PIPE)%nat ->
                nth i (segments v') [] = nth i (segments (tokens p)) [].
Proof.
  induction n as [|n IH]; intros p Hn.
  - exists (tokens p). simpl. repeat split.
    + destruct p; reflexivity.
    + lia.
  - destruct (last_separator (tokens p)) as (pre & post & Ev & Hpost); [lia|].
    destruct (last_separator_facts pre post Hpost) as (Hfind & Htake & _ & Hc & Hseg).
    rewrite <- Ev in Hfind, Htake, Hc, Hseg.
    rewrite trim_S. unfold bind at 1, get_tokens.
    rewrite Hfind.
    destruct (Z.eqb_spec (Z.of_nat (length pre)) (-1)); [lia|].
    rewrite Htake. unfold bind at 1, set_tokens.
    destruct (IH (with_tokens pre p)) as (v' & E & Hc' & Hnth).
    { simpl. lia. }
    simpl in E, Hc', Hnth.
    exists v'. split; [exact E|]. split; [lia|].
    intros i Hi. rewrite (Hnth i Hi), Hseg.
    rewrite app_nth1; [reflexivity|].
    rewrite segments_length. lia.
Qed.

(** ** Which program a child runs *)

Lemma never_execs_only {A} (m : M A) v : never_execs m -> execs_only v m.
Proof. intros H p w q E. exfalso. exact (H p w q E). Qed.

Lemma never_execs_bind {A B} (m : M A) (f : A -> M B) :
  never_execs m -> (forall a, never_execs (f a)) -> never_execs (bind m f).
Proof.
  intros Hm Hf p w q. unfold bind.
  destruct (m p) as [[a|c|v|] p1] eqn:E; try discriminate.
  - apply Hf.
  - exfalso. exact (Hm _ _ _ E).
Qed.

Lemma execs_only_bind v {A B} (m : M A) (f : A -> M B) :
  execs_only v m -> (forall a, execs_only v (f a)) -> execs_only v (bind m f).
Proof.
  intros Hm Hf p w q. unfold bind.
  destruct (m p) as [[a|c|u|] p1] eqn:E; try discriminate.
  - apply Hf.
  - intro H; inversion H; subst. exact (Hm _ _ _ E).
Qed.

Lemma never_execs_if {A} (b : bool) (m1 m2 : M A) :
  never_execs m1 -> never_execs m2 -> never_execs (if b then m1 else m2).
Proof. destruct b; auto. Qed.

Lemma execs_only_if v {A} (b : bool) (m1 m2 : M A) :
  execs_only v m1 -> execs_only v m2 -> execs_only v (if b then m1 else m2).
Proof. destruct b; auto. Qed.

Lemma never_execs_ret {A} (a : A) : never_execs (ret a).
Proof. intros p w q; discriminate. Qed.

Lemma never_execs_exit {A} c : never_execs (@exit A c).
Proof. intros p w q; discriminate. Qed.

Lemma never_execs_get_tokens : never_execs get_tokens.
Proof. intros p w q; discriminate. Qed.

Lemma never_execs_set_tokens v : never_execs (set_tokens v).
Proof. intros p w q; discriminate. Qed.

Lemma never_execs_load a k : never_execs (load a k).
Proof.
  intros p w q. unfold load. destruct (k <? 0); [discriminate|].
  destruct (nth_error a (Z.to_nat k)) as [[x|]|]; discriminate.
Qed.

Lemma never_execs_close fd : never_execs (sys_close fd).
Proof. intros p w q. unfold sys_close. destruct (hd false _); discriminate. Qed.

Lemma never_execs_dup2 o n : never_execs (sys_dup2 o n).
Proof. intros p w q. unfold sys_dup2. destruct (hd false _); discriminate. Qed.

Lemma never_execs_slice v s e : never_execs (strvec_slice v s e).
Proof. intros p w q. unfold strvec_slice. destruct (hd false _); discriminate. Qed.

Lemma execs_only_run_command v : execs_only v (run_command v).
Proof.
  intros p w q. unfold run_command.
  destruct (q_run (os p)); [discriminate|].
  intro H; inversion H; reflexivity.
Qed.

Create HintDb exec.

#[local] Hint Resolve never_execs_ret never_execs_exit never_execs_get_tokens
  never_execs_set_tokens never_execs_load never_execs_close never_execs_dup2
  never_execs_slice never_execs_bind never_execs_if : exec.

Ltac exec_step :=
  match goal with
  | |- _ => solve [eauto with exec nocore]
  | |- forall _, _ => intro
  | |- never_execs (bind _ _) => apply never_execs_bind
  | |- never_execs (if ?b then _ else _) => apply never_execs_if
  | |- execs_only _ (bind _ _) => apply execs_only_bind
  | |- execs_only _ (if ?b then _ else _) => apply execs_only_if
  | |- execs_only _ (run_command _) => apply execs_only_run_command
  | |- execs_only _ _ => apply never_execs_only
  end.
Ltac exec := repeat exec_step.

Lemma never_execs_close_own a i o : never_execs (close_own a i o).
Proof. unfold close_own; exec. Qed.

Lemma never_execs_close_rest a n : forall k, never_execs (close_rest a k n).
Proof. induction n; intro k; simpl; exec. Qed.

#[local] Hint Resolve never_execs_close_own never_execs_close_rest : exec.

Lemma never_execs_close_unused a N i o n :
  forall j, never_execs (close_unused a N i o j n).
Proof.
  induction n as [|n IH]; intro j; [simpl; exec|].
  rewrite close_unused_S. exec.
Qed.

Lemma execs_only_run_piped_command toks a n i o :
  execs_only toks (run_piped_command toks a n i o).
Proof. unfold run_piped_command; exec. Qed.

Lemma bind_exec_inv {A B} (m : M A) (f : A -> M B) p v q :
  bind m f p = (Exec v, q) ->
  m p = (Exec v, q) \/ exists a p1, m p = (Ret a, p1) /\ f a p1 = (Exec v, q).
Proof.
  unfold bind. destruct (m p) as [[a|c|u|] p1]; try discriminate.
  - intro H; right; eauto.
  - intro H; left; inversion H; reflexivity.
Qed.

Lemma tokens_close_rest a n : forall k, keeps same_tokens (close_rest a k n).
Proof. induction n; intro k; simpl; frame. Qed.

#[local] Hint Resolve tokens_close_rest : frame.

Lemma tokens_close_unused a N i o n :
  forall j, keeps same_tokens (close_unused a N i o j n).
Proof.
  induction n as [|n IH]; intro j; [simpl; frame|].
  rewrite close_unused_S. frame.
Qed.

Lemma child_exec_is_stage
    (pipe_fds : array) (i : nat) (in_idx out_idx : Z) (p q : proc)
    (argv : strvec_t) :
  (i <= strvec_num_occurrences (tokens p) PIPE)%nat ->
  child_branch pipe_fds (strvec_num_occurrences (tokens p) PIPE) i
    in_idx out_idx p = (Exec argv, q) ->
  argv = nth i (segments (tokens p)) [].
Proof.
  set (N := strvec_num_occurrences (tokens p) PIPE).
  intros Hi H. unfold child_branch, trim_and_run in H.
  apply bind_exec_inv in H. destruct H as [H|([] & p1 & Ec & H)].
  { exfalso. exact (never_execs_close_unused _ _ _ _ _ _ _ _ _ H). }
  pose proof (keeps_at _ _ _ _ _ (tokens_close_unused _ _ _ _ _ _) Ec) as Ht.
  unfold same_tokens in Ht.
  unfold bind at 1, get_tokens in H.
  destruct (trim_spec pipe_fds in_idx out_idx (N - i) p1) as (v' & Et & Hc & Hnth).
  { rewrite Ht. fold N. lia. }
  rewrite Ht in Hc, Hnth. fold N in Hc.
  rewrite (bind_ret_l _ _ _ _ _ Et) in H.
  unfold bind at 1, get_tokens in H. cbn [tokens with_tokens] in H.
  apply bind_exec_inv in H. destruct H as [H|(? & ? & _ & H)]; [|discriminate].
  assert (Hcount : strvec_num_occurrences v' PIPE = i) by lia.
  rewrite <- (Hnth i) by lia.
  rewrite Hcount in H.
  destruct i as [|i].
  - change (0 <? 0)%nat with false in H. cbv iota in H.
    rewrite (segments_no_separator v' Hcount). simpl.
    revert H. apply execs_only_bind; [apply execs_only_run_piped_command|].
    exec.
  - change (0 <? S i)%nat with true in H. cbv iota in H.
    destruct (last_separator v') as (pre & post & Ev & Hpost); [lia|].
    destruct (last_separator_facts pre post Hpost)
      as (Hfind & _ & Hslice & Hcv & Hseg).
    rewrite <- Ev in Hfind, Hslice, Hcv, Hseg.
    rewrite Hseg, app_nth2 by (rewrite segments_length; lia).
    rewrite segments_length.
    replace (S i - S (strvec_num_occurrences pre PIPE))%nat with O by lia.
    simpl.
    rewrite Hfind in H.
    apply bind_exec_inv in H. destruct H as [H|(s & p2 & Es & H)].
    { exfalso. exact (never_execs_slice _ _ _ _ _ _ H). }
    unfold strvec_slice in Es.
    destruct (hd false (q_slice _)); inversion Es; subst s p2; clear Es;
      cbn [fst snd] in H.
    + exfalso. revert H.
      change (-1 =? -1) with true. cbv iota.
      assert (K : never_execs (close_own pipe_fds in_idx out_idx ;; @exit unit 1))
        by exec.
      apply K.
    + rewrite Hslice in H. revert H.
      change (0 =? -1) with false. cbv iota.
      apply execs_only_bind; [apply execs_only_run_piped_command|].
      exec.
Qed.

(** X4.  Whatever the descriptors and the environment, a child forked for
    stage [i] that gets as far as handing itself over to a program hands
    itself over to the tokens of stage [i]: those between separator [i]
    and separator [i + 1] of the sequence, no more and no fewer. *)
Theorem child_execs_its_stage
    (pipe_fds : array) (i : nat) (in_idx out_idx : Z) (p q : proc)
    (argv : strvec_t) :
  (i <= strvec_num_occurrences (tokens p) PIPE)%nat ->
  child_branch pipe_fds (strvec_num_occurrences (tokens p) PIPE) i
    in_idx out_idx p = (Exec argv, q) ->
  argv = nth i (segments (tokens p)) [].
Proof. exact (child_exec_is_stage pipe_fds i in_idx out_idx p q argv). Qed.

Lemma child_execs_its_stage_witness :
  ["b"; "c"]%string
  = nth 1 (segments ["a"; "|"; "b"; "c"; "|"; "d"]%string) [].
Proof.
  set (p := child_of (with_fdt [6; 5; 4; 3; 0; 1; 2]
                        (shell ["a"; "|"; "b"; "c"; "|"; "d"]%string quiet))
              default_kid).
  apply (child_execs_its_stage [Some 3; Some 4; Some 5; Some 6] 1 0 3 p
           (snd (child_branch [Some 3; Some 4; Some 5; Some 6] 2 1 0 3 p))).
  - vm_compute. lia.
  - vm_compute. reflexivity.
Defined.

(** ** The child never goes wrong when there is a pipe *)

Lemma load_valid a m idx p :
  filled a m -> -1 < idx < Z.of_nat m ->
  exists fd, load a idx p = (Ret fd, p).
Proof.
  intros Hf Hidx.
  destruct (load_filled a m (Z.to_nat idx) p Hf) as (fd & _ & E); [lia|].
  rewrite Z2Nat.id in E by lia. eauto.
Qed.

Lemma dup2_returns o n p : exists c p', sys_dup2 o n p = (Ret c, p').
Proof. unfold sys_dup2. destruct (hd false _); eauto. Qed.

Lemma close_returns fd p : exists c p', sys_close fd p = (Ret c, p').
Proof. destruct (close_cases fd p) as (c & p' & E & _); eauto. Qed.

Lemma guarded_dup2_returns a m idx newfd p :
  filled a m -> idx < Z.of_nat m ->
  exists b p',
    (if idx >? -1
     then fd <- load a idx ;; c <- sys_dup2 fd newfd ;; ret (c =? -1)
     else ret false) p = (Ret b, p').
Proof.
  intros Hf Hidx. destruct (Z.gtb_spec idx (-1)); [|do 2 eexists; reflexivity].
  destruct (load_valid a m idx p Hf) as (fd & El); [lia|].
  rewrite (bind_ret_l _ _ _ _ _ El).
  destruct (dup2_returns fd newfd p) as (c & p' & Ed).
  rewrite (bind_ret_l _ _ _ _ _ Ed). do 2 eexists; reflexivity.
Qed.

Lemma guarded_close_returns a m idx p :
  filled a m -> idx < Z.of_nat m ->
  exists p',
    (if idx >? -1
     then fd <- load a idx ;; _ <- sys_close fd ;; ret tt
     else ret tt) p = (Ret tt, p').
Proof.
  intros Hf Hidx. destruct (Z.gtb_spec idx (-1)); [|eexists; reflexivity].
  destruct (load_valid a m idx p Hf) as (fd & El); [lia|].
  rewrite (bind_ret_l _ _ _ _ _ El).
  destruct (close_returns fd p) as (c & p' & Ec).
  rewrite (bind_ret_l _ _ _ _ _ Ec). eexists; reflexivity.
Qed.

Lemma close_own_returns a m in_idx out_idx p :
  filled a m -> in_idx < Z.of_nat m -> out_idx < Z.of_nat m ->
  exists p', close_own a in_idx out_idx p = (Ret tt, p').
Proof.
  intros Hf Hi Ho. unfold close_own.
  destruct (guarded_close_returns a m in_idx p Hf Hi) as (p1 & E1).
  rewrite (bind_ret_l _ _ _ _ _ E1).
  apply (guarded_close_returns a m out_idx p1 Hf Ho).
Qed.

Lemma close_own_then_exit (A : Type) a m in_idx out_idx p :
  filled a m -> in_idx < Z.of_nat m -> out_idx < Z.of_nat m ->
  exists p', (close_own a in_idx out_idx ;; @exit A 1) p = (Exit 1, p').
Proof.
  intros Hf Hi Ho.
  destruct (close_own_returns a m in_idx out_idx p Hf Hi Ho) as (p' & E).
  exists p'. rewrite (bind_ret_l _ _ _ _ _ E). reflexivity.
Qed.

Lemma closing_tail_returns a m idx rv p :
  filled a m -> idx < Z.of_nat m ->
  exists r p',
    (if idx >? -1
     then fd <- load a idx ;; c <- sys_close fd ;;
          if c =? -1
          then fd' <- load a idx ;; _ <- sys_close fd' ;; ret 1
          else ret rv
     else ret rv) p = (Ret r, p') /\ (r = rv \/ r = 1).
Proof.
  intros Hf Hidx. destruct (Z.gtb_spec idx (-1));
    [|do 2 eexists; split; [reflexivity|auto]].
  destruct (load_valid a m idx p Hf) as (fd & El); [lia|].
  rewrite (bind_ret_l _ _ _ _ _ El).
  destruct (close_returns fd p) as (c & p1 & Ec).
  rewrite (bind_ret_l _ _ _ _ _ Ec).
  destruct (c =? -1); [|do 2 eexists; split; [reflexivity|auto]].
  destruct (load_valid a m idx p1 Hf) as (fd' & El'); [lia|].
  rewrite (bind_ret_l _ _ _ _ _ El').
  destruct (close_returns fd' p1) as (c' & p2 & Ec').
  rewrite (bind_ret_l _ _ _ _ _ Ec'). do 2 eexists; split; [reflexivity|auto].
Qed.

(** With its two indices inside the array, [run_piped_command] returns
    -1, 0 or 1, or the program of its tokens takes over. *)
Lemma run_piped_command_ends toks a m n in_idx out_idx p :
  filled a m -> in_idx < Z.of_nat m -> out_idx < Z.of_nat m ->
  exists r p',
    run_piped_command toks a n in_idx out_idx p = (r, p') /\
    (r = Ret (-1) \/ r = Ret 0 \/ r = Ret 1 \/ r = Exec toks).
Proof.
  intros Hf Hi Ho. unfold run_piped_command.
  destruct (guarded_dup2_returns a m in_idx STDIN_FILENO p Hf Hi) as (b1 & p1 & E1).
  rewrite (bind_ret_l _ _ _ _ _ E1).
  destruct b1; [do 2 eexists; split; [reflexivity|auto]|].
  destruct (guarded_dup2_returns a m out_idx STDOUT_FILENO p1 Hf Ho)
    as (b2 & p2 & E2).
  rewrite (bind_ret_l _ _ _ _ _ E2).
  destruct b2; [do 2 eexists; split; [reflexivity|auto]|].
  unfold bind at 1, run_command.
  destruct (q_run (os p2)) as [rc|];
    [|do 2 eexists; split; [reflexivity|auto]].
  destruct (rc =? -1).
  - destruct (close_own_returns a m in_idx out_idx (note (EvRun toks) p2) Hf Hi Ho)
      as (p3 & E3).
    rewrite (bind_ret_l _ _ _ _ _ E3).
    do 2 eexists; split; [reflexivity|auto].
  - destruct (closing_tail_returns a m in_idx 0 (note (EvRun toks) p2) Hf Hi)
      as (r1 & p3 & E3 & Hr1).
    rewrite (bind_ret_l _ _ _ _ _ E3).
    destruct (closing_tail_returns a m out_idx r1 p3 Hf Ho)
      as (r2 & p4 & E4 & Hr2).
    exists (Ret r2), p4. split; [exact E4|].
    destruct Hr1, Hr2; subst; auto.
Qed.

Lemma trim_ends a m in_idx out_idx n :
  filled a m -> in_idx < Z.of_nat m -> out_idx < Z.of_nat m ->
  forall e p,
    exists r p',
      trim a in_idx out_idx e n p = (r, p') /\
      ((exists e', r = Ret e') \/ r = Exit 1).
Proof.
  intros Hf Hi Ho. induction n as [|n IH]; intros e p.
  - do 2 eexists; split; [reflexivity|left; eauto].
  - rewrite trim_S. unfold bind at 1, get_tokens.
    destruct (_ =? -1).
    + unfold bind at 1, set_tokens.
      destruct (close_own_then_exit Z a m in_idx out_idx
                  (with_tokens (strvec_clear (tokens p)) p) Hf Hi Ho) as (p' & E).
      do 2 eexists; split; [exact E|auto].
    + unfold bind at 1, set_tokens. apply IH.
Qed.

Lemma stage_indices_in_array (N i : nat) :
  (1 <= N)%nat -> (i <= N)%nat ->
  -1 <= fst (stage_indices (Z.of_nat N) (Z.of_nat i)) < Z.of_nat (2 * N) /\
  -1 <= snd (stage_indices (Z.of_nat N) (Z.of_nat i)) < Z.of_nat (2 * N).
Proof.
  intros HN Hi. rewrite stage_indices_spec by lia.
  unfold read_end, write_end. cbn [fst snd].
  destruct (Z.eqb_spec (Z.of_nat i) 0), (Z.eqb_spec (Z.of_nat i) (Z.of_nat N));
    lia.
Qed.

Lemma slice_cases v s e p :
  strvec_slice v s e p = (Ret (-1, []), with_os (pop_slice (os p)) p) \/
  strvec_slice v s e p = (Ret (0, slice v s e), with_os (pop_slice (os p)) p).
Proof. unfold strvec_slice. destruct (hd false _); auto. Qed.

(** What follows a call of [run_piped_command] in the child. *)
Lemma after_run_piped_command a m in_idx out_idx (r : result Z) p3
    (clear_first : bool) :
  filled a m -> in_idx < Z.of_nat m -> out_idx < Z.of_nat m ->
  r = Ret (-1) \/ r = Ret 0 \/ r = Ret 1 \/ (exists v, r = Exec v) ->
  forall toks,
  exists r' p',
    match r with
    | Ret x =>
        (if x =? -1
         then (if clear_first
               then set_tokens (strvec_clear toks) ;;
                    close_own a in_idx out_idx ;; exit 1
               else close_own a in_idx out_idx ;; exit 1)
         else ret tt) p3
    | Exit c => (Exit c, p3)
    | Exec v => (Exec v, p3)
    | Undef => (Undef, p3)
    end = (r', p') /\
    (r' = Ret tt \/ r' = Exit 1 \/ exists v, r' = Exec v).
Proof.
  intros Hf Hi Ho Hr toks.
  destruct Hr as [->|[->|[->|(v & ->)]]].
  - change (-1 =? -1) with true. cbv iota.
    destruct clear_first.
    + unfold bind at 1, set_tokens.
      destruct (close_own_then_exit unit a m in_idx out_idx
                  (with_tokens (strvec_clear toks) p3) Hf Hi Ho) as (p4 & E4).
      do 2 eexists; split; [exact E4|auto].
    + destruct (close_own_then_exit unit a m in_idx out_idx p3 Hf Hi Ho) as (p4 & E4).
      do 2 eexists; split; [exact E4|auto].
  - do 2 eexists; split; [reflexivity|auto].
  - do 2 eexists; split; [reflexivity|auto].
  - do 2 eexists; split; [reflexivity|eauto].
Qed.

Lemma child_branch_ends a m N i in_idx out_idx p :
  filled a m -> (2 * N <= m)%nat ->
  in_idx < Z.of_nat m -> out_idx < Z.of_nat m ->
  exists r p',
    child_branch a N i in_idx out_idx p = (r, p') /\
    (r = Exit 0 \/ r = Exit 1 \/ exists v, r = Exec v).
Proof.
  intros Hf Hm Hi Ho. unfold child_branch, trim_and_run.
  assert (Hf2 : filled a (2 * N)) by (intros k Hk; apply Hf; lia).
  pose proof (close_unused_spec a N in_idx out_idx N 0 p Hf2 eq_refl) as Hc.
  destruct (close_unused a N in_idx out_idx 0 N p) as [[[]|c|v|] p1] eqn:Ec;
    try contradiction.
  2:{ subst c. rewrite (bind_exit_l _ _ _ _ _ Ec).
      do 2 eexists; split; [reflexivity|auto]. }
  clear Hc. rewrite (bind_ret_l _ _ _ _ _ Ec).
  unfold bind at 1, get_tokens.
  destruct (trim_ends a m in_idx out_idx (N - i) Hf Hi Ho
              (Z.of_nat (length (tokens p1))) p1)
    as (rt & p2 & Et & [(e & ->)| ->]).
  2:{ rewrite (bind_exit_l _ _ _ _ _ Et).
      do 2 eexists; split; [reflexivity|auto]. }
  rewrite (bind_ret_l _ _ _ _ _ Et).
  unfold bind at 1, get_tokens.
  assert (Hblock : forall (block : M unit) rb pb,
             block p2 = (rb, pb) ->
             rb = Ret tt \/ rb = Exit 1 \/ (exists v, rb = Exec v) ->
             exists r p',
               (block ;; @exit Empty_set 0) p2 = (r, p') /\
               (r = Exit 0 \/ r = Exit 1 \/ exists v, r = Exec v)).
  { intros block rb pb Eb [->|[->|(v & ->)]]; unfold bind; rewrite Eb;
      do 2 eexists; split; try reflexivity; eauto. }
  destruct (0 <? _)%nat.
  - match goal with
    | |- context [strvec_slice ?v ?s ?e] =>
        destruct (slice_cases v s e p2) as [Es|Es];
        [ destruct (close_own_then_exit unit a m in_idx out_idx
                      (with_os (pop_slice (os p2)) p2) Hf Hi Ho) as (p3 & E)
        | destruct (run_piped_command_ends (slice v s e) a m N in_idx out_idx
                      (with_os (pop_slice (os p2)) p2) Hf Hi Ho)
            as (r & p3 & E & Hr);
          destruct (after_run_piped_command a m in_idx out_idx r p3 false
                      Hf Hi Ho) with (toks := v) as (r' & p' & E' & Hr');
          [destruct Hr as [H|[H|[H|H]]]; eauto|] ]
    end.
    + eapply Hblock; [|right; left; reflexivity].
      rewrite (bind_ret_l _ _ _ _ _ Es). exact E.
    + eapply Hblock; [|exact Hr'].
      rewrite (bind_ret_l _ _ _ _ _ Es). cbn [fst snd].
      change (0 =? -1) with false. cbv iota.
      unfold bind at 1. rewrite E. exact E'.
  - match goal with
    | |- context [run_piped_command ?t a N in_idx out_idx] =>
        destruct (run_piped_command_ends t a m N in_idx out_idx p2 Hf Hi Ho)
          as (r & p3 & E & Hr);
        destruct (after_run_piped_command a m in_idx out_idx r p3 true
                    Hf Hi Ho) with (toks := t) as (r' & p' & E' & Hr')
    end.
    { destruct Hr as [H|[H|[H|H]]]; eauto. }
    eapply Hblock; [|exact Hr'].
    unfold bind at 1. rewrite E. exact E'.
Qed.

(** X5.  With at least one separator, the child forked for any stage never
    reads outside the array of descriptors: it ends with [exit (0)], with
    [exit (1)], or as the program it starts. *)
Theorem piped_child_exits_or_execs (N i : nat) (pipe_fds : array) (p : proc) :
  (1 <= N)%nat -> (i <= N)%nat -> filled pipe_fds (2 * N) ->
  let in_idx := fst (stage_indices (Z.of_nat N) (Z.of_nat i)) in
  let out_idx := snd (stage_indices (Z.of_nat N) (Z.of_nat i)) in
  let ended := fst (child_branch pipe_fds N i in_idx out_idx p) in
  ended = Exit 0 \/ ended = Exit 1 \/ exists argv, ended = Exec argv.
Proof.
  intros HN Hi Hf in_idx out_idx ended.
  destruct (stage_indices_in_array N i HN Hi) as ((_ & H1) & (_ & H2)).
  destruct (child_branch_ends pipe_fds (2 * N) N i in_idx out_idx p Hf
              ltac:(lia) H1 H2) as (r & p' & E & Hr).
  subst ended. rewrite E. exact Hr.
Qed.

Lemma piped_child_exits_or_execs_witness :
  let p := child_of (with_fdt [6; 5; 4; 3; 0; 1; 2]
                       (shell ["a"; "|"; "b"; "|"; "c"]%string quiet))
             default_kid in
  let ended := fst (child_branch [Some 3; Some 4; Some 5; Some 6] 2 1 0 3 p) in
  ended = Exit 0 \/ ended = Exit 1 \/ exists argv, ended = Exec argv.
Proof.
  intro p.
  assert (Hf : filled [Some 3; Some 4; Some 5; Some 6] (2 * 2)).
  { intros k Hk.
    destruct k as [|[|[|[|k]]]]; simpl; eauto. lia. }
  exact (piped_child_exits_or_execs 2 1 [Some 3; Some 4; Some 5; Some 6] p
           ltac:(lia) ltac:(lia) Hf).
Defined.

(** X6.  Called with indices that are -1 or inside the array,
    [run_piped_command] always comes back to its caller with -1, 0 or 1,
    unless the program of its tokens has taken the process over; it never
    ends the process itself. *)
Theorem run_piped_command_returns_or_execs
    (toks : strvec_t) (pipes : array) (n_pipes : nat) (in_idx out_idx : Z)
    (p : proc) :
  filled pipes (length pipes) ->
  in_idx < Z.of_nat (length pipes) -> out_idx < Z.of_nat (length pipes) ->
  let r := fst (run_piped_command toks pipes n_pipes in_idx out_idx p) in
  r = Ret (-1) \/ r = Ret 0 \/ r = Ret 1 \/ r = Exec toks.
Proof.
  intros Hf Hi Ho r.
  destruct (run_piped_command_ends toks pipes (length pipes) n_pipes
              in_idx out_idx p Hf Hi Ho) as (r' & p' & E & Hr).
  subst r. rewrite E. exact Hr.
Qed.

Lemma run_piped_command_returns_or_execs_witness :
  let r := fst (run_piped_command ["wc"]%string [Some 3; Some 4] 1 0 (-1)
                  (child_of (with_fdt [4; 3; 0; 1; 2]
                               (shell ["ls"; "|"; "wc"]%string quiet))
                     default_kid)) in
  r = Ret (-1) \/ r = Ret 0 \/ r = Ret 1 \/ r = Exec ["wc"]%string.
Proof.
  apply (run_piped_command_returns_or_execs ["wc"]%string [Some 3; Some 4] 1 0 (-1)).
  - intros k Hk. destruct k as [|[|k]]; simpl in *; eauto. lia.
  - simpl; lia.
  - simpl; lia.
Defined.

(** X7.  With [N >= 1] separators every channel has one writer and one
    reader among the stages: channel [c] is written by stage [c] and by no
    other, and read by stage [c + 1] and by no other. *)
Theorem each_channel_joins_two_neighbours (N c i : Z) :
  1 <= N -> 0 <= c < N -> 0 <= i <= N ->
  (snd (stage_indices N i) = write_end c <-> i = c) /\
  (fst (stage_indices N i) = read_end c <-> i = c + 1).
Proof.
  intros HN Hc Hi. rewrite stage_indices_spec by lia.
  unfold read_end, write_end. cbn [fst snd].
  destruct (Z.eqb_spec i 0), (Z.eqb_spec i N); split; split; intro; lia.
Qed.

Lemma each_channel_joins_two_neighbours_witness :
  (snd (stage_indices 3 1) = write_end 1 <-> 1 = 1) /\
  (fst (stage_indices 3 1) = read_end 1 <-> 1 = 1 + 1).
Proof.
  apply (each_channel_joins_two_neighbours 3 1 1); lia.
Defined.

(** X8.  When [malloc] returns [NULL] the function returns -1 at once: no
    pipe is made, no context is spawned, and the parent's descriptors,
    tokens and children are as they were. *)
Theorem null_array_is_reported (p : proc) :
  hd false (q_malloc (os p)) = true ->
  exists p',
    run_pipelined_commands p = (Ret (-1), p') /\
    fdt p' = fdt p /\ log p' = log p /\ children p' = children p /\
    tokens p' = tokens p.
Proof.
  intro Hm.
  exists (with_os (pop_malloc (os p)) p).
  split; [|repeat split].
  unfold run_pipelined_commands, bind at 1, get_tokens.
  unfold spawn_phase, bind, malloc_ints. rewrite Hm. reflexivity.
Qed.

Lemma null_array_is_reported_witness :
  exists p',
    run_pipelined_commands
      (shell ["ls"; "|"; "wc"]%string
         {| q_malloc := [true]; q_pipe := []; q_fork := []; q_close := [];
            q_dup2 := []; q_slice := []; q_run := None; q_pick := [];
            q_wait := []; q_status := W_exited 0 |})
    = (Ret (-1), p') /\ fdt p' = [0; 1; 2] /\ log p' = [].
Proof.
  destruct (null_array_is_reported
              (shell ["ls"; "|"; "wc"]%string
                 {| q_malloc := [true]; q_pipe := []; q_fork := []; q_close := [];
                    q_dup2 := []; q_slice := []; q_run := None; q_pick := [];
            q_wait := []; q_status := W_exited 0 |})
              eq_refl) as (p' & E & Hf & Hl & _).
  exists p'. repeat split; assumption.
Defined.

(** ** A [fork] or a parent's [close] that fails *)

Lemma fork_loop_fails a N :
  filled a (2 * N) ->
  forall i p goods rest,
    q_fork (os p) = goods ++ None :: rest ->
    forallb is_some goods = true ->
    (length goods <= i)%nat ->
    exists p',
      fork_loop a N i p = (Exit 1, p') /\
      length (children p') = (length (children p) + length goods)%nat /\
      waited (log p') = waited (log p).
Proof.
  intro Hf.
  induction i as [|i IH]; intros p goods rest Hq Hgood Hlen.
  - destruct goods as [|g goods]; [|simpl in Hlen; lia].
    simpl in Hq. simpl. unfold fork_stage.
    set (branch := child_branch a N 0 _ _).
    assert (Ef : sys_fork branch p
                 = (Ret (-1), note EvForkFail (with_os (pop_fork (os p)) p))).
    { unfold sys_fork. rewrite Hq. reflexivity. }
    unfold bind at 1. rewrite (bind_ret_l _ _ _ _ _ Ef).
    change (-1 =? -1) with true. cbv iota.
    set (p1 := note EvForkFail (with_os (pop_fork (os p)) p)).
    destruct (fork_failed_ends a (2 * N) N 0 p1 Hf) as (p' & HE); [lia|].
    destruct (fork_failed a 0 N p1) as [r q] eqn:E.
    pose proof (keeps_at _ _ _ _ _ (calm_fork_failed _ _ _) E) as (Hc & _ & Hw).
    exists p'. unfold bind. rewrite E.
    destruct HE as [HE|HE]; inversion HE; subst; simpl;
      (split; [reflexivity|]); split; try exact Hw; rewrite Hc; simpl; lia.
  - simpl. unfold fork_stage.
    set (branch := child_branch a N (S i) _ _).
    destruct goods as [|g goods].
    + simpl in Hq.
      assert (Ef : sys_fork branch p
                   = (Ret (-1), note EvForkFail (with_os (pop_fork (os p)) p))).
      { unfold sys_fork. rewrite Hq. reflexivity. }
      unfold bind at 1. rewrite (bind_ret_l _ _ _ _ _ Ef).
      change (-1 =? -1) with true. cbv iota.
      set (p1 := note EvForkFail (with_os (pop_fork (os p)) p)).
      destruct (fork_failed_ends a (2 * N) N 0 p1 Hf) as (p' & HE); [lia|].
      destruct (fork_failed a 0 N p1) as [r q] eqn:E.
      pose proof (keeps_at _ _ _ _ _ (calm_fork_failed _ _ _) E) as (Hc & _ & Hw).
      exists p'. unfold bind. rewrite E.
      destruct HE as [HE|HE]; inversion HE; subst; simpl;
        (split; [reflexivity|]); split; try exact Hw; rewrite Hc; simpl; lia.
    + destruct g as [k|]; [|discriminate].
      simpl in Hq, Hgood, Hlen.
      set (st := terminal (ending_of (fst (branch (child_of p k)))) k).
      set (p1 := note (EvFork (ending_of (fst (branch (child_of p k)))) st)
                   (with_children (children p ++ [st])
                      (with_os (pop_fork (os p)) p))).
      assert (Ef : sys_fork branch p
                   = (Ret (Z.of_nat (S (length (children p)))), p1)).
      { unfold sys_fork. rewrite Hq. reflexivity. }
      unfold bind at 1. rewrite (bind_ret_l _ _ _ _ _ Ef).
      destruct (Z.eqb_spec (Z.of_nat (S (length (children p)))) (-1)); [lia|].
      destruct (IH p1 goods rest) as (p' & E & Hc & Hw).
      { simpl. rewrite Hq. reflexivity. }
      { exact Hgood. }
      { lia. }
      exists p'. split; [exact E|].
      rewrite Hc, Hw. simpl. rewrite length_app. simpl. split; [lia|reflexivity].
Qed.

Lemma setup_pipes_goes_through N p :
  forallb negb (q_pipe (os p)) = true ->
  exists a p1,
    setup_pipes (repeat None (2 * N)) 0 N p = (Ret (inr a), p1) /\
    filled a (2 * N) /\
    q_fork (os p1) = q_fork (os p) /\ q_close (os p1) = q_close (os p) /\
    calm p p1.
Proof.
  intro Hp.
  destruct (setup_pipes_succeeds N (repeat None (2 * N)) 0 p) as (a & p1 & Es & Hk).
  { exact Hp. }
  { rewrite repeat_length. lia. }
  destruct (setup_pipes_fills _ _ _ _ _ _ Es) as (Hfill & Hc1).
  { intros k Hk0; lia. }
  { rewrite repeat_length. lia. }
  exists a, p1. repeat split; auto;
    apply (keeps_at _ _ _ _ _ (calm_setup_pipes _ _ _) Es).
Qed.

Lemma run_unfold (p : proc) :
  run_pipelined_commands p
  = (early <- spawn_phase (strvec_num_occurrences (tokens p) PIPE) ;;
     match early with
     | Some r => ret r
     | None => wait_loop (S (strvec_num_occurrences (tokens p) PIPE)) None 0
     end) p.
Proof. reflexivity. Qed.

Lemma malloc_goes_through n p :
  hd false (q_malloc (os p)) = false ->
  malloc_ints n p = (Ret (Some (repeat None n)), with_os (pop_malloc (os p)) p).
Proof. intro Hm. unfold malloc_ints. rewrite Hm. reflexivity. Qed.

(** X9.  If the array is allocated and the pipes are made but one of the
    [N + 1] calls of [fork] fails, the function does not return: the
    calling process itself ends with [exit (1)], and the children forked
    before the failure are left without anyone having waited for them. *)
Theorem failed_fork_ends_the_caller
    (p : proc) (goods : list (option kid)) (rest : list (option kid)) :
  hd false (q_malloc (os p)) = false ->
  forallb negb (q_pipe (os p)) = true ->
  q_fork (os p) = goods ++ None :: rest ->
  forallb is_some goods = true ->
  (length goods <= strvec_num_occurrences (tokens p) PIPE)%nat ->
  exists p',
    run_pipelined_commands p = (Exit 1, p') /\
    length (children p') = (length (children p) + length goods)%nat /\
    waited (log p') = waited (log p).
Proof.
  intros Hm Hp Hq Hgood Hlen.
  set (N := strvec_num_occurrences (tokens p) PIPE) in *.
  set (p0 := with_os (pop_malloc (os p)) p).
  destruct (setup_pipes_goes_through N p0 Hp)
    as (a & p1 & Es & Hfill & Hqf & _ & (Hc1 & _ & Hw1)).
  destruct (fork_loop_fails a N Hfill N p1 goods rest) as (p' & Ef & Hc & Hw);
    auto.
  { rewrite Hqf. exact Hq. }
  exists p'. split; [|split].
  - rewrite run_unfold. fold N. apply bind_exit_l.
    unfold spawn_phase.
    rewrite (bind_ret_l _ _ _ _ _ (malloc_goes_through _ p Hm)). cbv iota beta.
    rewrite (bind_ret_l _ _ _ _ _ Es). cbv iota beta.
    apply bind_exit_l. exact Ef.
  - rewrite Hc, Hc1. reflexivity.
  - rewrite Hw, Hw1. reflexivity.
Qed.

Lemma failed_fork_ends_the_caller_witness :
  exists p',
    run_pipelined_commands
      (shell ["a"; "|"; "b"; "|"; "c"]%string
         (with_q_fork [Some default_kid; Some default_kid; None] quiet))
    = (Exit 1, p') /\
    length (children p') = 2%nat.
Proof.
  destruct (failed_fork_ends_the_caller
              (shell ["a"; "|"; "b"; "|"; "c"]%string
                 (with_q_fork [Some default_kid; Some default_kid; None] quiet))
              [Some default_kid; Some default_kid] []
              eq_refl eq_refl eq_refl eq_refl ltac:(vm_compute; lia))
    as (p' & E & Hc & _).
  exists p'. split; [exact E|exact Hc].
Defined.

Lemma parent_sweep_fails a m n :
  forall i p K rest,
    filled a m -> (i + n <= m)%nat ->
    q_close (os p) = repeat false K ++ true :: rest -> (K < n)%nat ->
    exists p', parent_sweep a i n p = (Ret (Some (-1)), p').
Proof.
  induction n as [|n IH]; intros i p K rest Hf Hm Hq HK; [lia|].
  simpl.
  destruct (load_filled a m i p Hf) as (fd & _ & El); [lia|].
  rewrite (bind_ret_l _ _ _ _ _ El).
  destruct (close_cases fd p) as (c & p1 & Ec & Hq1 & Hcase).
  rewrite (bind_ret_l _ _ _ _ _ Ec).
  destruct K as [|K]; simpl in Hq; rewrite Hq in Hcase, Hq1; simpl in Hcase, Hq1.
  - destruct Hcase as [(-> & _)|(_ & Hbad & _)]; [|discriminate].
    change (-1 =? -1) with true. cbv iota.
    destruct (load_filled a m i p1 Hf) as (fd' & _ & El'); [lia|].
    rewrite (bind_ret_l _ _ _ _ _ El').
    destruct (close_returns fd' p1) as (c' & p2 & Ec').
    rewrite (bind_ret_l _ _ _ _ _ Ec'). eexists; reflexivity.
  - destruct Hcase as [(_ & Hbad & _)|(-> & _)]; [discriminate|].
    change (0 =? -1) with false. cbv iota.
    apply (IH (S i) p1 K rest Hf); [lia|exact Hq1|lia].
Qed.

(** X10.  If everything up to the last [fork] succeeds and then one of the
    parent's [2 * N] closes fails, the function returns -1 from the sweep:
    all [N + 1] children have been forked, none has been waited for. *)
Theorem failed_sweep_leaves_children_pending
    (p : proc) (K : nat) (rest : list bool) :
  hd false (q_malloc (os p)) = false ->
  forallb negb (q_pipe (os p)) = true ->
  forallb is_some (q_fork (os p)) = true ->
  q_close (os p) = repeat false K ++ true :: rest ->
  (K < 2 * strvec_num_occurrences (tokens p) PIPE)%nat ->
  exists p',
    run_pipelined_commands p = (Ret (-1), p') /\
    length (children p')
    = (length (children p) + S (strvec_num_occurrences (tokens p) PIPE))%nat /\
    waited (log p') = waited (log p).
Proof.
  intros Hm Hp Hf Hq HK.
  set (N := strvec_num_occurrences (tokens p) PIPE) in *.
  set (p0 := with_os (pop_malloc (os p)) p).
  destruct (setup_pipes_goes_through N p0 Hp)
    as (a & p1 & Es & Hfill & Hqf & Hqc & (Hc1 & _ & Hw1)).
  destruct (fork_loop_succeeds a N N p1) as (p2 & Ef & Hqc2).
  { rewrite Hqf. exact Hf. }
  destruct (fork_loop_returns _ _ _ _ _ Ef) as (Hc2 & _ & Hw2).
  destruct (parent_sweep_fails a (2 * N) (2 * N) 0 p2 K rest Hfill) as (p3 & Esw);
    [lia| |lia|].
  { rewrite Hqc2, Hqc. exact Hq. }
  pose proof (keeps_at _ _ _ _ _ (calm_parent_sweep _ _ _) Esw) as (Hc3 & _ & Hw3).
  exists p3. split; [|split].
  - rewrite run_unfold. fold N.
    assert (Esp : spawn_phase N p = (Ret (Some (-1)), p3)).
    { unfold spawn_phase.
      rewrite (bind_ret_l _ _ _ _ _ (malloc_goes_through _ p Hm)). cbv iota beta.
      rewrite (bind_ret_l _ _ _ _ _ Es). cbv iota beta.
      rewrite (bind_ret_l _ _ _ _ _ Ef). exact Esw. }
    rewrite (bind_ret_l _ _ _ _ _ Esp). reflexivity.
  - rewrite Hc3, Hc2, Hc1. reflexivity.
  - rewrite Hw3, Hw2, Hw1. reflexivity.
Qed.

Lemma failed_sweep_leaves_children_pending_witness :
  exists p',
    run_pipelined_commands
      (shell ["a"; "|"; "b"; "|"; "c"]%string
         (with_q_close [false; false; true] quiet))
    = (Ret (-1), p') /\
    length (children p') = 3%nat /\ waited (log p') = 0%nat.
Proof.
  destruct (failed_sweep_leaves_children_pending
              (shell ["a"; "|"; "b"; "|"; "c"]%string
                 (with_q_close [false; false; true] quiet))
              2 [] eq_refl eq_refl eq_refl eq_refl ltac:(vm_compute; lia))
    as (p' & E & Hc & Hw).
  exists p'. split; [exact E|]. split; [exact Hc|exact Hw].
Defined.

(** ** Which programs a pipeline starts *)

Lemma spawned_same_refl p : spawned_same p p.
Proof. reflexivity. Qed.

Lemma spawned_same_trans p q r :
  spawned_same p q -> spawned_same q r -> spawned_same p r.
Proof. unfold spawned_same; congruence. Qed.

#[local] Hint Resolve spawned_same_refl spawned_same_trans : frame.

Lemma spawned_malloc n : keeps spawned_same (malloc_ints n).
Proof. intro p; unfold malloc_ints; destruct (hd false _); reflexivity. Qed.

Lemma spawned_pipe a off : keeps spawned_same (sys_pipe a off).
Proof.
  intro p; unfold sys_pipe.
  destruct (hd false _); [reflexivity|].
  destruct (_ <? _)%nat; reflexivity.
Qed.

Lemma spawned_close fd : keeps spawned_same (sys_close fd).
Proof. intro p; unfold sys_close; destruct (hd false _); reflexivity. Qed.

Lemma spawned_wait st : keeps spawned_same (sys_wait st).
Proof.
  intro p; unfold sys_wait.
  destruct (hd false _); [reflexivity|].
  destruct (take_out _ _) as [[s r]|]; reflexivity.
Qed.

#[local] Hint Resolve spawned_malloc spawned_pipe spawned_close spawned_wait
  : frame.

Lemma spawned_close_created a n : forall j, keeps spawned_same (close_created a j n).
Proof. induction n; intro j; simpl; frame. Qed.

Lemma spawned_setup_pipes n : forall a i, keeps spawned_same (setup_pipes a i n).
Proof.
  induction n; intros a i; simpl; frame.
  apply spawned_close_created.
Qed.

Lemma spawned_fork_failed a n : forall j, keeps spawned_same (fork_failed a j n).
Proof. induction n; intro j; simpl; frame. Qed.

Lemma spawned_parent_sweep a n : forall i, keeps spawned_same (parent_sweep a i n).
Proof. induction n; intro i; simpl; frame. Qed.

Lemma spawned_wait_loop n : forall st rv, keeps spawned_same (wait_loop n st rv).
Proof. induction n; intros st rv; simpl; frame. Qed.

Lemma bind_stuck {A B} (m : M A) (f : A -> M B) p r q :
  m p = (r, q) -> (forall a, r <> Ret a) ->
  snd (bind m f p) = q /\ forall b, fst (bind m f p) <> Ret b.
Proof.
  intros E Hr. unfold bind. rewrite E.
  destruct r as [a|c|v|]; simpl; try (split; [reflexivity|discriminate]).
  exfalso. exact (Hr a eq_refl).
Qed.

(** One turn of the forking loop: nothing is spawned, or one context is,
    which runs the tokens of its stage if it runs a program at all. *)
Lemma fork_stage_spawns a i p :
  (i <= strvec_num_occurrences (tokens p) PIPE)%nat ->
  let N := strvec_num_occurrences (tokens p) PIPE in
  exists r p',
    fork_stage a N i p = (r, p') /\ tokens p' = tokens p /\
    (((forall u, r <> Ret u) /\ spawned (log p') = spawned (log p)) \/
     (r = Ret tt /\
      exists e, spawned (log p') = e :: spawned (log p) /\
                forall v, e = Ends_exec v -> v = nth i (segments (tokens p)) [])).
Proof.
  intros Hi N. unfold fork_stage.
  set (branch := child_branch a N i _ _).
  unfold bind at 1, sys_fork.
  destruct (hd (Some default_kid) (q_fork (os p))) as [k|].
  - destruct (Z.eqb_spec (Z.of_nat (S (length (children p)))) (-1)); [lia|].
    do 2 eexists. split; [reflexivity|]. split; [reflexivity|].
    right. split; [reflexivity|].
    eexists. split; [reflexivity|].
    intros v Hv.
    destruct (branch (child_of p k)) as [r q] eqn:E.
    destruct r as [[]|c|w|]; simpl in Hv; try discriminate.
    inversion Hv; subst w.
    exact (child_exec_is_stage a i _ _ (child_of p k) q v Hi E).
  - change (-1 =? -1) with true. cbv iota.
    set (p1 := note EvForkFail (with_os (pop_fork (os p)) p)).
    destruct ((fork_failed a 0 N ;; @exit unit 1) p1) as [r q] eqn:E.
    assert (Ks : keeps spawned_same (fork_failed a 0 N ;; @exit unit 1)).
    { apply keeps_bind; [eauto with frame|apply spawned_fork_failed|frame]. }
    assert (Kt : keeps same_tokens (fork_failed a 0 N ;; @exit unit 1)).
    { apply keeps_bind; [eauto with frame|apply tokens_fork_failed|frame]. }
    pose proof (keeps_at _ _ _ _ _ Ks E) as Hs.
    pose proof (keeps_at _ _ _ _ _ Kt E) as Ht.
    exists r, q. split; [reflexivity|]. split; [exact Ht|].
    left. split; [|exact Hs].
    intros u ->. exact (bind_exit_never_returns _ _ _ _ _ E).
Qed.

Lemma fork_loop_S a N i :
  fork_loop a N (S i) = (fork_stage a N (S i) ;; fork_loop a N i).
Proof. reflexivity. Qed.

Lemma fork_loop_spawns a i :
  forall p,
    (i <= strvec_num_occurrences (tokens p) PIPE)%nat ->
    let N := strvec_num_occurrences (tokens p) PIPE in
    exists es,
      spawned (log (snd (fork_loop a N i p))) = es ++ spawned (log p) /\
      (length es <= S i)%nat /\
      (fst (fork_loop a N i p) = Ret tt -> length es = S i) /\
      forall t v, nth_error es t = Some (Ends_exec v) ->
                  v = nth (S i - length es + t) (segments (tokens p)) [].
Proof.
  induction i as [|i IH]; intros p Hi N.
  - destruct (fork_stage_spawns a 0 p Hi) as (r & p' & E & Ht & Hcase).
    fold N in E.
    change (fork_loop a N 0) with (fork_stage a N 0 ;; ret tt).
    destruct Hcase as [(Hr & Hs)|(-> & e & Hs & He)].
    + destruct (bind_stuck _ (fun _ => ret tt) _ _ _ E Hr) as (Hsnd & Hfst).
      rewrite Hsnd. exists []. simpl.
      split; [exact Hs|]. split; [lia|].
      split; [intro H; exfalso; exact (Hfst tt H)|].
      intros [|t] v H; discriminate.
    + rewrite (bind_ret_l _ _ _ _ _ E). exists [e]. simpl. repeat split; auto.
      intros [|[|t]] v H; simpl in H; try discriminate.
      inversion H; subst e. apply He. reflexivity.
  - destruct (fork_stage_spawns a (S i) p Hi) as (r & p' & E & Ht & Hcase).
    fold N in E. rewrite fork_loop_S.
    destruct Hcase as [(Hr & Hs)|(-> & e & Hs & He)].
    + destruct (bind_stuck _ (fun _ => fork_loop a N i) _ _ _ E Hr)
        as (Hsnd & Hfst).
      rewrite Hsnd. exists []. simpl.
      split; [exact Hs|]. split; [lia|].
      split; [intro H; exfalso; exact (Hfst tt H)|].
      intros [|t] v H; discriminate.
    + rewrite (bind_ret_l _ _ _ _ _ E).
      destruct (IH p') as (es & Hes & Hlen & Hfull & Hnth).
      { rewrite Ht. lia. }
      rewrite Ht in Hes, Hfull, Hnth. fold N in Hes, Hfull.
      exists (es ++ [e]).
      split; [rewrite Hes, Hs, <- app_assoc; reflexivity|].
      rewrite length_app. cbn [length].
      split; [lia|]. split; [intro H; rewrite (Hfull H); lia|].
      intros t v H.
      destruct (Nat.lt_ge_cases t (length es)) as [Hlt|Hge].
      * rewrite nth_error_app1 in H by exact Hlt.
        rewrite (Hnth t v H). f_equal. lia.
      * rewrite nth_error_app2 in H by exact Hge.
        destruct (t - length es)%nat as [|d] eqn:Ed; simpl in H;
          [|destruct d; discriminate].
        inversion H; subst e. rewrite (He v eq_refl). f_equal. lia.
Qed.

Lemma run_spawns (p : proc) :
  let N := strvec_num_occurrences (tokens p) PIPE in
  exists es,
    spawned (log (snd (run_pipelined_commands p))) = es ++ spawned (log p) /\
    (length es <= S N)%nat /\
    forall t v, nth_error es t = Some (Ends_exec v) ->
                v = nth (S N - length es + t) (segments (tokens p)) [].
Proof.
  intro N.
  assert (Hnone : forall q, spawned (log q) = spawned (log p) ->
             exists es : list ending,
               spawned (log q) = es ++ spawned (log p) /\
               (length es <= S N)%nat /\
               forall t v, nth_error es t = Some (Ends_exec v) ->
                           v = nth (S N - length es + t) (segments (tokens p)) []).
  { intros q Hq. exists []. rewrite Hq. repeat split; [simpl; lia|].
    intros [|t] v H; discriminate. }
  rewrite run_unfold. fold N. unfold spawn_phase.
  unfold bind at 1 2.
  destruct (malloc_ints (2 * N) p) as [rm p0] eqn:Em.
  pose proof (keeps_at _ _ _ _ _ (spawned_malloc _) Em) as S0.
  pose proof (keeps_at _ _ _ _ _ (tokens_malloc _) Em) as T0.
  unfold spawned_same in S0. unfold same_tokens in T0.
  destruct rm as [[a0|]|c|v|]; try (apply Hnone; exact S0).
  unfold bind at 1.
  destruct (setup_pipes a0 0 N p0) as [rs p1] eqn:Es.
  pose proof (keeps_at _ _ _ _ _ (spawned_setup_pipes _ _ _) Es) as S1.
  pose proof (keeps_at _ _ _ _ _ (tokens_setup_pipes _ _ _) Es) as T1.
  unfold spawned_same in S1. unfold same_tokens in T1.
  destruct rs as [[r|a]|c|v|];
    try (apply Hnone; cbn [snd]; rewrite <- S0; exact S1).
  destruct (fork_loop_spawns a N p1) as (es & Hes & Hlen & _ & Hnth).
  { rewrite T1, T0. fold N. lia. }
  rewrite T1, T0 in Hes, Hnth. fold N in Hes.
  rewrite S1, S0 in Hes.
  assert (Hsome : forall q,
            spawned (log q) = spawned (log (snd (fork_loop a N N p1))) ->
            exists es0 : list ending,
              spawned (log q) = es0 ++ spawned (log p) /\
              (length es0 <= S N)%nat /\
              forall t v, nth_error es0 t = Some (Ends_exec v) ->
                          v = nth (S N - length es0 + t) (segments (tokens p)) []).
  { intros q Hq. exists es. rewrite Hq. auto. }
  unfold bind at 1.
  destruct (fork_loop a N N p1) as [rf p2] eqn:Ef. cbn [snd] in Hsome.
  destruct rf as [[]|c|v|]; try (apply Hsome; reflexivity).
  destruct (parent_sweep a 0 (2 * N) p2) as [rw p3] eqn:Esw.
  pose proof (keeps_at _ _ _ _ _ (spawned_parent_sweep _ _ _) Esw) as S3.
  unfold spawned_same in S3.
  destruct rw as [[r|]|c|v|]; try (apply Hsome; exact S3).
  destruct (wait_loop (S N) None 0 p3) as [rr p4] eqn:Ew.
  pose proof (keeps_at _ _ _ _ _ (spawned_wait_loop _ _ _) Ew) as S4.
  unfold spawned_same in S4.
  apply Hsome. cbn [snd]. rewrite S4. exact S3.
Qed.

(** X11.  On every run, whatever fails, the contexts spawned by the call
    are those of the last stages of the sequence, and each one that starts
    a program starts the tokens of its own stage: the context of stage [k]
    runs the tokens between separators [k] and [k + 1], with no separator
    among them. *)
Theorem every_stage_runs_its_own_tokens (p : proc) :
  let N := strvec_num_occurrences (tokens p) PIPE in
  exists es,
    spawned (log (snd (run_pipelined_commands p))) = es ++ spawned (log p) /\
    (length es <= S N)%nat /\
    forall t v, nth_error es t = Some (Ends_exec v) ->
                v = nth (S N - length es + t) (segments (tokens p)) [].
Proof. exact (run_spawns p). Qed.

(** ** A child in whose way nothing stands *)

Lemma smooth_pop_close o : smooth o -> smooth (pop_close o).
Proof.
  intros (Hc & Hd & Hs & Hr). repeat split; auto.
  simpl. apply all_ok_hd_tl, Hc.
Qed.

Lemma smooth_pop_dup2 o : smooth o -> smooth (pop_dup2 o).
Proof.
  intros (Hc & Hd & Hs & Hr). repeat split; auto.
  simpl. apply all_ok_hd_tl, Hd.
Qed.

Lemma smooth_pop_slice o : smooth o -> smooth (pop_slice o).
Proof.
  intros (Hc & Hd & Hs & Hr). repeat split; auto.
  simpl. apply all_ok_hd_tl, Hs.
Qed.

Lemma close_smooth fd p :
  smooth (os p) ->
  exists p', sys_close fd p = (Ret 0, p') /\ smooth (os p') /\
             tokens p' = tokens p.
Proof.
  intro Hs. unfold sys_close.
  destruct Hs as (Hc & Hrest).
  rewrite (proj1 (all_ok_hd_tl _ Hc)).
  eexists. split; [reflexivity|]. split; [|reflexivity].
  apply (smooth_pop_close (os p)). split; assumption.
Qed.

Lemma guarded_close_smooth a m k keep p :
  filled a m -> (k < m)%nat -> smooth (os p) ->
  exists p',
    (if negb (Z.of_nat k =? keep)
     then fd <- load a (Z.of_nat k) ;; c <- sys_close fd ;; ret (c =? -1)
     else ret false) p = (Ret false, p') /\
    smooth (os p') /\ tokens p' = tokens p.
Proof.
  intros Hf Hk Hs.
  destruct (negb (Z.of_nat k =? keep)).
  - destruct (load_filled a m k p Hf Hk) as (fd & _ & El).
    rewrite (bind_ret_l _ _ _ _ _ El).
    destruct (close_smooth fd p Hs) as (p' & Ec & Hs' & Ht).
    rewrite (bind_ret_l _ _ _ _ _ Ec).
    exists p'. split; [reflexivity|]. split; assumption.
  - exists p. split; [reflexivity|]. split; [assumption|reflexivity].
Qed.

Lemma close_unused_smooth a N in_idx out_idx n :
  forall j p,
    filled a (2 * N) -> (j + n = N)%nat -> smooth (os p) ->
    exists p',
      close_unused a N in_idx out_idx j n p = (Ret tt, p') /\
      smooth (os p') /\ tokens p' = tokens p.
Proof.
  induction n as [|n IH]; intros j p Hf Hj Hs.
  - exists p. split; [reflexivity|]. split; [assumption|reflexivity].
  - rewrite close_unused_S.
    destruct (guarded_close_smooth a (2 * N) (2 * j) in_idx p Hf) as
      (p1 & E1 & Hs1 & Ht1); [lia|exact Hs|].
    replace (Z.of_nat (2 * j)) with (2 * Z.of_nat j) in E1 by lia.
    rewrite (bind_ret_l _ _ _ _ _ E1). cbv iota.
    destruct (guarded_close_smooth a (2 * N) (2 * j + 1) out_idx p1 Hf) as
      (p2 & E2 & Hs2 & Ht2); [lia|exact Hs1|].
    replace (Z.of_nat (2 * j + 1)) with (2 * Z.of_nat j + 1) in E2 by lia.
    rewrite (bind_ret_l _ _ _ _ _ E2). cbv iota.
    destruct (IH (S j) p2 Hf) as (p3 & E3 & Hs3 & Ht3); [lia|exact Hs2|].
    exists p3. split; [exact E3|]. split; [exact Hs3|congruence].
Qed.

Lemma guarded_dup2_smooth a m idx newfd p :
  filled a m -> idx < Z.of_nat m -> 0 <= newfd -> smooth (os p) ->
  exists p',
    (if idx >? -1
     then fd <- load a idx ;; c <- sys_dup2 fd newfd ;; ret (c =? -1)
     else ret false) p = (Ret false, p') /\
    smooth (os p').
Proof.
  intros Hf Hidx Hn Hs.
  destruct (Z.gtb_spec idx (-1)); [|exists p; split; [reflexivity|assumption]].
  destruct (load_valid a m idx p Hf) as (fd & El); [lia|].
  rewrite (bind_ret_l _ _ _ _ _ El).
  unfold bind at 1, sys_dup2.
  destruct Hs as (Hc & Hd & Hrest).
  rewrite (proj1 (all_ok_hd_tl _ Hd)).
  destruct (Z.eqb_spec newfd (-1)); [lia|].
  eexists. split; [reflexivity|].
  apply (smooth_pop_dup2 (os p)). split; [assumption|]. split; assumption.
Qed.

Lemma run_piped_command_smooth toks a m n in_idx out_idx p :
  filled a m -> in_idx < Z.of_nat m -> out_idx < Z.of_nat m ->
  smooth (os p) ->
  exists p', run_piped_command toks a n in_idx out_idx p = (Exec toks, p').
Proof.
  intros Hf Hi Ho Hs. unfold run_piped_command.
  destruct (guarded_dup2_smooth a m in_idx STDIN_FILENO p Hf Hi) as (p1 & E1 & Hs1);
    [unfold STDIN_FILENO; lia|exact Hs|].
  rewrite (bind_ret_l _ _ _ _ _ E1). cbv iota.
  destruct (guarded_dup2_smooth a m out_idx STDOUT_FILENO p1 Hf Ho)
    as (p2 & E2 & Hs2); [unfold STDOUT_FILENO; lia|exact Hs1|].
  rewrite (bind_ret_l _ _ _ _ _ E2). cbv iota.
  unfold bind, run_command.
  destruct Hs2 as (_ & _ & _ & Hr). rewrite Hr.
  eexists; reflexivity.
Qed.

Lemma bind_exec_l {A B} (m : M A) (f : A -> M B) p v q :
  m p = (Exec v, q) -> bind m f p = (Exec v, q).
Proof. unfold bind; intros ->; reflexivity. Qed.

Lemma child_branch_smooth a i in_idx out_idx p :
  let N := strvec_num_occurrences (tokens p) PIPE in
  (i <= N)%nat -> filled a (2 * N) ->
  in_idx < Z.of_nat (2 * N) -> out_idx < Z.of_nat (2 * N) ->
  smooth (os p) ->
  exists q,
    child_branch a N i in_idx out_idx p
    = (Exec (nth i (segments (tokens p)) []), q).
Proof.
  intros N Hi Hf Hin Hout Hs.
  assert (Hex : exists v q, child_branch a N i in_idx out_idx p = (Exec v, q)).
  { unfold child_branch, trim_and_run.
    destruct (close_unused_smooth a N in_idx out_idx N 0 p Hf eq_refl Hs)
      as (p1 & Ec & Hs1 & Ht1).
    rewrite (bind_ret_l _ _ _ _ _ Ec).
    unfold bind at 1, get_tokens.
    destruct (trim_spec a in_idx out_idx (N - i) p1) as (v' & Et & Hc & _).
    { rewrite Ht1. fold N. lia. }
    rewrite (bind_ret_l _ _ _ _ _ Et).
    unfold bind at 1, get_tokens. cbn [tokens with_tokens].
    destruct (0 <? strvec_num_occurrences v' PIPE)%nat.
    - match goal with
      | |- context [strvec_slice ?v ?s ?e] =>
          assert (Es : strvec_slice v s e (with_tokens v' p1)
                       = (Ret (0, slice v s e),
                          with_os (pop_slice (os p1)) (with_tokens v' p1)));
          [ unfold strvec_slice; cbn [os with_tokens];
            destruct Hs1 as (_ & _ & Hsl & _);
            rewrite (proj1 (all_ok_hd_tl _ Hsl)); reflexivity
          | destruct (run_piped_command_smooth (slice v s e) a (2 * N) N
                        in_idx out_idx
                        (with_os (pop_slice (os p1)) (with_tokens v' p1))
                        Hf Hin Hout) as (p3 & E3);
            [ apply (smooth_pop_slice (os p1)); exact Hs1 |] ]
      end.
      do 2 eexists. apply bind_exec_l.
      rewrite (bind_ret_l _ _ _ _ _ Es). cbn [fst snd].
      change (0 =? -1) with false. cbv iota.
      apply bind_exec_l. exact E3.
    - destruct (run_piped_command_smooth v' a (2 * N) N in_idx out_idx
                  (with_tokens v' p1) Hf Hin Hout Hs1) as (p3 & E3).
      do 2 eexists. apply bind_exec_l. apply bind_exec_l. exact E3. }
  destruct Hex as (v & q & E).
  exists q. rewrite E. f_equal. f_equal.
  exact (child_exec_is_stage a i in_idx out_idx p q v Hi E).
Qed.

(** X12.  In a pipeline with at least one separator, the child of stage
    [i], when none of its own calls fails and its program can be started,
    does start it: after the cleanup, the trimming and the redirections the
    process is taken over by the tokens of stage [i]. *)
Theorem unhindered_child_starts_its_stage
    (pipe_fds : array) (i : nat) (p : proc) :
  let N := strvec_num_occurrences (tokens p) PIPE in
  (1 <= N)%nat -> (i <= N)%nat -> filled pipe_fds (2 * N) ->
  smooth (os p) ->
  let in_idx := fst (stage_indices (Z.of_nat N) (Z.of_nat i)) in
  let out_idx := snd (stage_indices (Z.of_nat N) (Z.of_nat i)) in
  fst (child_branch pipe_fds N i in_idx out_idx p)
  = Exec (nth i (segments (tokens p)) []).
Proof.
  intros N HN Hi Hf Hs in_idx out_idx.
  destruct (stage_indices_in_array N i HN Hi) as ((_ & H1) & (_ & H2)).
  destruct (child_branch_smooth pipe_fds i in_idx out_idx p Hi Hf H1 H2 Hs)
    as (q & E).
  fold N in E. rewrite E. reflexivity.
Qed.

Lemma unhindered_child_starts_its_stage_witness :
  fst (child_branch [Some 3; Some 4; Some 5; Some 6] 2 1 0 3
         (child_of (with_fdt [6; 5; 4; 3; 0; 1; 2]
                      (shell ["a"; "|"; "b"; "c"; "|"; "d"]%string quiet))
            default_kid))
  = Exec ["b"; "c"]%string.
Proof.
  assert (Hf : filled [Some 3; Some 4; Some 5; Some 6] (2 * 2)).
  { intros k Hk.
    destruct k as [|[|[|[|k]]]]; simpl; eauto. lia. }
  exact (unhindered_child_starts_its_stage
           [Some 3; Some 4; Some 5; Some 6] 1
           (child_of (with_fdt [6; 5; 4; 3; 0; 1; 2]
                        (shell ["a"; "|"; "b"; "c"; "|"; "d"]%string quiet))
              default_kid)
           ltac:(vm_compute; lia) ltac:(vm_compute; lia) Hf
           (conj eq_refl (conj eq_refl (conj eq_refl eq_refl)))).
Defined.

(** ** A pipeline in whose way nothing stands *)

Lemma good_kid_smooth k p : good_kid k = true -> smooth (os (child_of p k)).
Proof.
  unfold good_kid. intro H.
  apply andb_prop in H. destruct H as (H & Hr).
  apply andb_prop in H. destruct H as (H & Hs).
  apply andb_prop in H. destruct H as (Hc & Hd).
  repeat split; simpl; auto.
  destruct (k_run k); [discriminate|reflexivity].
Qed.

Lemma fork_stage_smooth a i p :
  let N := strvec_num_occurrences (tokens p) PIPE in
  (1 <= N)%nat -> (i <= N)%nat -> filled a (2 * N) ->
  forallb good_fork (q_fork (os p)) = true ->
  exists p1,
    fork_stage a N i p = (Ret tt, p1) /\
    spawned (log p1) = Ends_exec (nth i (segments (tokens p)) []) :: spawned (log p) /\
    tokens p1 = tokens p /\
    forallb good_fork (q_fork (os p1)) = true /\
    q_close (os p1) = q_close (os p).
Proof.
  intros N HN Hi Hf Hq.
  destruct (stage_indices_in_array N i HN Hi) as ((_ & H1) & (_ & H2)).
  unfold fork_stage.
  set (in_idx := fst (stage_indices (Z.of_nat N) (Z.of_nat i))) in *.
  set (out_idx := snd (stage_indices (Z.of_nat N) (Z.of_nat i))) in *.
  assert (Hk : exists k,
             hd (Some default_kid) (q_fork (os p)) = Some k /\
             good_kid k = true /\
             forallb good_fork (tl (q_fork (os p))) = true).
  { destruct (q_fork (os p)) as [|[k|] q]; simpl in *.
    - exists default_kid. auto.
    - apply andb_prop in Hq. destruct Hq. exists k. auto.
    - discriminate. }
  destruct Hk as (k & Hhd & Hgood & Htl).
  destruct (child_branch_smooth a i in_idx out_idx (child_of p k) Hi Hf H1 H2
              (good_kid_smooth k p Hgood)) as (q & E).
  cbn [tokens child_of] in E. fold N in E.
  unfold bind, sys_fork. rewrite Hhd, E. cbn [fst ending_of].
  destruct (Z.eqb_spec (Z.of_nat (S (length (children p)))) (-1)); [lia|].
  eexists. split; [reflexivity|]. repeat split. exact Htl.
Qed.

Lemma firstn_snoc {A} (l : list A) (i : nat) (d : A) :
  (i < length l)%nat -> firstn (S i) l = firstn i l ++ [nth i l d].
Proof.
  revert i. induction l as [|x l IH]; intros [|i] H; simpl in *; try lia.
  - reflexivity.
  - f_equal. apply IH. lia.
Qed.

Lemma fork_loop_smooth a i :
  forall p,
    let N := strvec_num_occurrences (tokens p) PIPE in
    (1 <= N)%nat -> (i <= N)%nat -> filled a (2 * N) ->
    forallb good_fork (q_fork (os p)) = true ->
    exists p',
      fork_loop a N i p = (Ret tt, p') /\
      spawned (log p')
      = map Ends_exec (firstn (S i) (segments (tokens p))) ++ spawned (log p) /\
      q_close (os p') = q_close (os p).
Proof.
  induction i as [|i IH]; intros p N HN Hi Hf Hq.
  - destruct (fork_stage_smooth a 0 p HN Hi Hf Hq) as (p1 & E & Hs & _ & _ & Hc).
    fold N in E.
    change (fork_loop a N 0) with (fork_stage a N 0 ;; ret tt).
    rewrite (bind_ret_l _ _ _ _ _ E).
    exists p1. split; [reflexivity|]. split; [|exact Hc].
    rewrite Hs.
    destruct (segments (tokens p)) as [|s ss] eqn:Eseg;
      [exfalso; exact (segments_not_nil _ Eseg)|reflexivity].
  - destruct (fork_stage_smooth a (S i) p HN Hi Hf Hq)
      as (p1 & E & Hs & Ht & Hq1 & Hc).
    fold N in E. rewrite fork_loop_S.
    rewrite (bind_ret_l _ _ _ _ _ E).
    destruct (IH p1) as (p' & E' & Hs' & Hc'); rewrite ?Ht; fold N; auto; [lia|].
    rewrite Ht in E', Hs'. fold N in E'.
    exists p'. split; [exact E'|]. split; [|congruence].
    rewrite Hs', Hs.
    rewrite (firstn_snoc (segments (tokens p)) (S i) [])
      by (rewrite segments_length; fold N; lia).
    rewrite map_app, <- app_assoc. reflexivity.
Qed.

Lemma pipeline_smooth (p : proc) :
  let N := strvec_num_occurrences (tokens p) PIPE in
  (1 <= N)%nat ->
  hd false (q_malloc (os p)) = false ->
  forallb negb (q_pipe (os p)) = true ->
  forallb good_fork (q_fork (os p)) = true ->
  forallb negb (q_close (os p)) = true ->
  exists r p',
    run_pipelined_commands p = (Ret r, p') /\
    (r = 0 \/ r = -1) /\
    spawned (log p') = map Ends_exec (segments (tokens p)) ++ spawned (log p).
Proof.
  intros N HN Hm Hp Hf Hc.
  set (p0 := with_os (pop_malloc (os p)) p).
  destruct (setup_pipes_goes_through N p0 Hp)
    as (a & p1 & Es & Hfill & Hqf & Hqc & _).
  pose proof (keeps_at _ _ _ _ _ (spawned_setup_pipes _ _ _) Es) as S1.
  pose proof (keeps_at _ _ _ _ _ (tokens_setup_pipes _ _ _) Es) as T1.
  unfold spawned_same in S1. unfold same_tokens in T1.
  cbn [tokens log p0 with_os] in S1, T1.
  destruct (fork_loop_smooth a N p1) as (p2 & Ef & S2 & Hqc2);
    rewrite ?T1; fold N; auto.
  { rewrite Hqf. exact Hf. }
  rewrite T1 in Ef, S2. fold N in Ef.
  destruct (fork_loop_returns _ _ _ _ _ Ef) as (Hch & _).
  destruct (parent_sweep_succeeds a (2 * N) (2 * N) 0 p2 Hfill) as (p3 & Esw);
    [lia| |].
  { rewrite Hqc2, Hqc. exact Hc. }
  pose proof (keeps_at _ _ _ _ _ (calm_parent_sweep _ _ _) Esw) as (Hc3 & _).
  pose proof (keeps_at _ _ _ _ _ (spawned_parent_sweep _ _ _) Esw) as S3.
  destruct (wait_loop_ends (S N) p3 None 0) as (r & p4 & Ew & Hr); auto.
  pose proof (keeps_at _ _ _ _ _ (spawned_wait_loop _ _ _) Ew) as S4.
  unfold spawned_same in S3, S4.
  exists r, p4. split; [|split; [exact Hr|]].
  - rewrite run_unfold. fold N.
    assert (Esp : spawn_phase N p = (Ret None, p3)).
    { unfold spawn_phase.
      rewrite (bind_ret_l _ _ _ _ _ (malloc_goes_through _ p Hm)). cbv iota beta.
      rewrite (bind_ret_l _ _ _ _ _ Es). cbv iota beta.
      rewrite (bind_ret_l _ _ _ _ _ Ef). exact Esw. }
    rewrite (bind_ret_l _ _ _ _ _ Esp). exact Ew.
  - rewrite S4, S3, S2, S1.
    rewrite firstn_all2 by (rewrite segments_length; fold N; lia).
    reflexivity.
Qed.

(** X13.  With at least one separator and nothing failing (the array is
    allocated, the pipes are made, every [fork] succeeds, every child gets
    through to its program, the parent's closes succeed), the call spawns
    one context per stage, each of which starts the program of its own
    stage, and it returns 0 or -1. *)
Theorem unhindered_pipeline_starts_every_stage (p : proc) :
  let N := strvec_num_occurrences (tokens p) PIPE in
  (1 <= N)%nat ->
  hd false (q_malloc (os p)) = false ->
  forallb negb (q_pipe (os p)) = true ->
  forallb good_fork (q_fork (os p)) = true ->
  forallb negb (q_close (os p)) = true ->
  exists r p',
    run_pipelined_commands p = (Ret r, p') /\
    (r = 0 \/ r = -1) /\
    spawned (log p') = map Ends_exec (segments (tokens p)) ++ spawned (log p).
Proof. exact (pipeline_smooth p). Qed.

Lemma unhindered_pipeline_starts_every_stage_witness :
  exists r p',
    run_pipelined_commands
      (shell ["ls"; "-l"; "|"; "grep"; "x"; "|"; "wc"]%string quiet)
    = (Ret r, p') /\
    spawned (log p')
    = [Ends_exec ["ls"; "-l"]; Ends_exec ["grep"; "x"]; Ends_exec ["wc"]]%string.
Proof.
  destruct (unhindered_pipeline_starts_every_stage
              (shell ["ls"; "-l"; "|"; "grep"; "x"; "|"; "wc"]%string quiet)
              ltac:(vm_compute; lia) eq_refl eq_refl eq_refl eq_refl)
    as (r & p' & E & _ & Hs).
  exists r, p'. split; [exact E|exact Hs].
Defined.

(** ** The trimming loop *)

Lemma trim_keeps_first_stages a in_idx out_idx n :
  forall p,
    (n <= strvec_num_occurrences (tokens p) PIPE)%nat ->
    exists v',
      trim a in_idx out_idx (Z.of_nat (length (tokens p))) n p
      = (Ret (Z.of_nat (length v')), with_tokens v' p) /\
      segments v'
      = firstn (S (strvec_num_occurrences (tokens p) PIPE - n))
          (segments (tokens p)).
Proof.
  induction n as [|n IH]; intros p Hn.
  - exists (tokens p). split.
    + destruct p; reflexivity.
    + rewrite Nat.sub_0_r, <- segments_length. symmetry. apply firstn_all.
  - destruct (last_separator (tokens p)) as (pre & post & Ev & Hpost); [lia|].
    destruct (last_separator_facts pre post Hpost) as (Hfind & Htake & _ & Hc & Hseg).
    rewrite <- Ev in Hfind, Htake, Hc, Hseg.
    rewrite trim_S. unfold bind at 1, get_tokens.
    rewrite Hfind.
    destruct (Z.eqb_spec (Z.of_nat (length pre)) (-1)); [lia|].
    rewrite Htake. unfold bind at 1, set_tokens.
    destruct (IH (with_tokens pre p)) as (v' & E & Hs).
    { simpl. lia. }
    simpl in E, Hs.
    exists v'. split; [exact E|].
    rewrite Hs, Hseg, Hc.
    rewrite firstn_app.
    replace (S (S (strvec_num_occurrences pre PIPE) - S n) - length (segments pre))%nat
      with O by (rewrite segments_length; lia).
    simpl. rewrite app_nil_r. reflexivity.
Qed.

(** X14.  Asked to chop no more stages than there are separators, the
    trimming loop never takes its "separator not found" exit and makes no
    system call: it leaves in the child's vector exactly the first stages
    of the sequence, and its right bound is the length of what is left. *)
Theorem trimming_keeps_the_first_stages
    (pipe_fds : array) (in_idx out_idx : Z) (n : nat) (p : proc) :
  (n <= strvec_num_occurrences (tokens p) PIPE)%nat ->
  exists v',
    trim pipe_fds in_idx out_idx (Z.of_nat (length (tokens p))) n p
    = (Ret (Z.of_nat (length v')), with_tokens v' p) /\
    segments v'
    = firstn (S (strvec_num_occurrences (tokens p) PIPE - n))
        (segments (tokens p)).
Proof. exact (trim_keeps_first_stages pipe_fds in_idx out_idx n p). Qed.

Lemma trimming_keeps_the_first_stages_witness :
  exists v',
    trim [Some 3; Some 4; Some 5; Some 6] (-1) 1 5 2
      (shell ["a"; "|"; "b"; "|"; "c"]%string quiet)
    = (Ret (Z.of_nat (length v')),
       with_tokens v' (shell ["a"; "|"; "b"; "|"; "c"]%string quiet)) /\
    segments v' = [["a"%string]].
Proof.
  exact (trimming_keeps_the_first_stages [Some 3; Some 4; Some 5; Some 6] (-1) 1 2
           (shell ["a"; "|"; "b"; "|"; "c"]%string quiet) ltac:(vm_compute; lia)).
Defined.

Lemma guarded_close_logs a m idx p :
  filled a m -> idx < Z.of_nat m ->
  exists ok p',
    (if idx >? -1
     then fd <- load a idx ;; _ <- sys_close fd ;; ret tt
     else ret tt) p = (Ret tt, p') /\
    tokens p' = tokens p /\
    log p' = own_close a idx ok ++ log p.
Proof.
  intros Hf Hidx. unfold own_close.
  destruct (Z.gtb_spec idx (-1)).
  - destruct (load_filled a m (Z.to_nat idx) p Hf) as (fd & En & El); [lia|].
    rewrite Z2Nat.id in El by lia.
    rewrite (bind_ret_l _ _ _ _ _ El), En.
    unfold bind, sys_close.
    destruct (hd false (q_close (os p)));
      eexists _, _; (split; [reflexivity|]); split; reflexivity.
  - exists true, p. repeat split.
Qed.

Lemma close_own_logs a m in_idx out_idx p :
  filled a m -> in_idx < Z.of_nat m -> out_idx < Z.of_nat m ->
  exists ok_in ok_out p',
    close_own a in_idx out_idx p = (Ret tt, p') /\
    tokens p' = tokens p /\
    log p' = own_close a out_idx ok_out ++ own_close a in_idx ok_in ++ log p.
Proof.
  intros Hf Hi Ho. unfold close_own.
  destruct (guarded_close_logs a m in_idx p Hf Hi) as (ok1 & p1 & E1 & T1 & L1).
  rewrite (bind_ret_l _ _ _ _ _ E1).
  destruct (guarded_close_logs a m out_idx p1 Hf Ho) as (ok2 & p2 & E2 & T2 & L2).
  exists ok1, ok2, p2. split; [exact E2|]. split; [congruence|].
  rewrite L2, L1. reflexivity.
Qed.

Lemma trim_runs_out a m in_idx out_idx n :
  filled a m -> in_idx < Z.of_nat m -> out_idx < Z.of_nat m ->
  forall e p,
    (strvec_num_occurrences (tokens p) PIPE < n)%nat ->
    exists ok_in ok_out p',
      trim a in_idx out_idx e n p = (Exit 1, p') /\
      tokens p' = [] /\
      log p' = own_close a out_idx ok_out ++ own_close a in_idx ok_in ++ log p.
Proof.
  intros Hf Hi Ho. induction n as [|n IH]; intros e p Hn; [lia|].
  rewrite trim_S. unfold bind at 1, get_tokens.
  destruct (Nat.eq_dec (strvec_num_occurrences (tokens p) PIPE) 0) as [H0|H0].
  - unfold strvec_find_last. rewrite find_last_from_none by exact H0.
    change (-1 =? -1) with true. cbv iota.
    unfold bind at 1, set_tokens.
    set (p1 := with_tokens (strvec_clear (tokens p)) p).
    destruct (close_own_logs a m in_idx out_idx p1 Hf Hi Ho)
      as (ok1 & ok2 & p' & E & Ht & Hl).
    exists ok1, ok2, p'. rewrite (bind_ret_l _ _ _ _ _ E).
    split; [reflexivity|]. split; [exact Ht|exact Hl].
  - destruct (last_separator (tokens p)) as (pre & post & Ev & Hpost); [lia|].
    destruct (last_separator_facts pre post Hpost) as (Hfind & Htake & _ & Hc & _).
    rewrite <- Ev in Hfind, Htake, Hc.
    rewrite Hfind.
    destruct (Z.eqb_spec (Z.of_nat (length pre)) (-1)); [lia|].
    rewrite Htake. unfold bind at 1, set_tokens.
    apply (IH (Z.of_nat (length pre)) (with_tokens pre p)). simpl. lia.
Qed.

(** X15.  Asked to chop more stages than there are separators, the
    trimming loop ends the child: it empties the child's vector, tries to
    close the two designated endpoints (first the one it reads from, then
    the one it writes to; these closes, whether they succeed or not, are all
    it adds to the record of its calls) and calls [exit (1)]. *)
Theorem trimming_too_far_ends_the_child
    (pipe_fds : array) (in_idx out_idx e : Z) (n : nat) (p : proc) :
  filled pipe_fds (length pipe_fds) ->
  in_idx < Z.of_nat (length pipe_fds) ->
  out_idx < Z.of_nat (length pipe_fds) ->
  (strvec_num_occurrences (tokens p) PIPE < n)%nat ->
  exists ok_in ok_out p',
    trim pipe_fds in_idx out_idx e n p = (Exit 1, p') /\
    tokens p' = [] /\
    log p'
    = own_close pipe_fds out_idx ok_out ++ own_close pipe_fds in_idx ok_in ++ log p.
Proof.
  intros Hf Hi Ho Hn.
  exact (trim_runs_out pipe_fds (length pipe_fds) in_idx out_idx n Hf Hi Ho e p Hn).
Qed.

Lemma trimming_too_far_ends_the_child_witness :
  exists ok_in ok_out p',
    trim [Some 3; Some 4; Some 5; Some 6] 0 3 3 2
      (shell ["a"; "|"; "b"]%string quiet)
    = (Exit 1, p') /\
    tokens p' = [] /\
    log p' = [EvClose 6 ok_out; EvClose 3 ok_in].
Proof.
  apply (trimming_too_far_ends_the_child [Some 3; Some 4; Some 5; Some 6] 0 3 3 2
           (shell ["a"; "|"; "b"]%string quiet)).
  - intros k Hk. destruct k as [|[|[|[|k]]]]; simpl in *; eauto. lia.
  - simpl; lia.
  - simpl; lia.
  - vm_compute; lia.
Defined.

(** ** Descriptors at the moment the program takes over *)

Lemma grows_refl p : grows p p.
Proof. apply incl_refl. Qed.

Lemma grows_trans p q r : grows p q -> grows q r -> grows p r.
Proof. unfold grows. intros H1 H2 x Hx. apply H2, H1, Hx. Qed.

#[local] Hint Resolve grows_refl grows_trans : frame.

Lemma grows_dup2 o n : keeps grows (sys_dup2 o n).
Proof.
  intro p. unfold sys_dup2, grows.
  destruct (hd false _); [apply incl_refl|]. simpl.
  intros x Hx. destruct (Z.eq_dec x n) as [->|Hne]; [left; reflexivity|].
  right. apply in_in_remove; auto.
Qed.

#[local] Hint Resolve grows_dup2 : frame.

Lemma run_piped_command_exec_grows toks a n in_idx out_idx p v q :
  run_piped_command toks a n in_idx out_idx p = (Exec v, q) ->
  incl (fdt p) (fdt q) /\
  exists evs, log q = EvRun toks :: evs ++ log p /\
              forall e, In e evs -> exists o d, e = EvDup2 o d true.
Proof.
  unfold run_piped_command. intro H.
  assert (Hblock : forall idx newfd p0 b p1,
             (if idx >? -1
              then fd <- load a idx ;; c <- sys_dup2 fd newfd ;; ret (c =? -1)
              else ret false) p0 = (Ret b, p1) ->
             b = false ->
             incl (fdt p0) (fdt p1) /\
             exists evs, log p1 = evs ++ log p0 /\
                         forall e, In e evs -> exists o d, e = EvDup2 o d true).
  { intros idx newfd p0 b p1 E Hb.
    destruct (idx >? -1).
    - apply bind_ret_inv in E. destruct E as (fd & p0' & El & E).
      apply load_inv in El. destruct El as (-> & _).
      apply bind_ret_inv in E. destruct E as (c & p0'' & Ed & E).
      pose proof (keeps_at _ _ _ _ _ (grows_dup2 _ _) Ed) as Hg.
      inversion E; subst p1 b. split; [exact Hg|].
      unfold sys_dup2 in Ed.
      destruct (hd false (q_dup2 (os p0))); inversion Ed; subst c p0''.
      + discriminate.
      + eexists [_]. split; [reflexivity|].
        intros e [<-|[]]. eauto.
    - inversion E; subst. split; [apply incl_refl|].
      exists []. split; [reflexivity|]. intros e []. }
  apply bind_exec_inv in H. destruct H as [H|(b1 & p1 & E1 & H)].
  { exfalso. revert H.
    assert (K : never_execs
                  (if in_idx >? -1
                   then fd <- load a in_idx ;;
                        c <- sys_dup2 fd STDIN_FILENO ;; ret (c =? -1)
                   else ret false)) by exec.
    apply K. }
  destruct b1; [discriminate|].
  destruct (Hblock _ _ _ _ _ E1 eq_refl) as (G1 & ev1 & L1 & D1).
  apply bind_exec_inv in H. destruct H as [H|(b2 & p2 & E2 & H)].
  { exfalso. revert H.
    assert (K : never_execs
                  (if out_idx >? -1
                   then fd <- load a out_idx ;;
                        c <- sys_dup2 fd STDOUT_FILENO ;; ret (c =? -1)
                   else ret false)) by exec.
    apply K. }
  destruct b2; [discriminate|].
  destruct (Hblock _ _ _ _ _ E2 eq_refl) as (G2 & ev2 & L2 & D2).
  apply bind_exec_inv in H. destruct H as [H|(rc & p3 & _ & H)].
  - unfold run_command in H.
    destruct (q_run (os p2)); inversion H; subst v q. simpl.
    split; [intros x Hx; apply G2, G1, Hx|].
    exists (ev2 ++ ev1). rewrite L2, L1, app_assoc.
    split; [reflexivity|].
    intros e He. apply in_app_or in He. destruct He; auto.
  - exfalso. revert H.
    assert (K : forall rv0,
               never_execs
                 (if rc =? -1 then close_own a in_idx out_idx ;; ret (-1)
                  else
                    rv <- (if in_idx >? -1
                           then fd <- load a in_idx ;; c <- sys_close fd ;;
                                if c =? -1
                                then fd' <- load a in_idx ;;
                                     _ <- sys_close fd' ;; ret 1
                                else ret rv0
                           else ret rv0) ;;
                    (if out_idx >? -1
                     then fd <- load a out_idx ;; c <- sys_close fd ;;
                          if c =? -1
                          then fd' <- load a out_idx ;;
                               _ <- sys_close fd' ;; ret 1
                          else ret rv
                     else ret rv))) by (intro; exec).
    apply (K 0).
Qed.

(** X16.  When the program takes the process over inside
    [run_piped_command], nothing has been closed: the only calls made are
    the successful redirections, so every descriptor that was open on entry
    (the designated pipe ends among them) is still open in the program. *)
Theorem program_inherits_open_descriptors
    (toks : strvec_t) (pipes : array) (n_pipes : nat) (in_idx out_idx : Z)
    (p q : proc) (argv : strvec_t) :
  run_piped_command toks pipes n_pipes in_idx out_idx p = (Exec argv, q) ->
  incl (fdt p) (fdt q) /\
  exists evs, log q = EvRun toks :: evs ++ log p /\
              forall e, In e evs -> exists o d, e = EvDup2 o d true.
Proof.
  exact (run_piped_command_exec_grows toks pipes n_pipes in_idx out_idx p argv q).
Qed.

Lemma program_inherits_open_descriptors_witness :
  let p := child_of (with_fdt [3; 0; 1; 2]
                       (shell ["ls"; "|"; "wc"]%string quiet)) default_kid in
  In 3 (fdt (snd (run_piped_command ["wc"]%string [Some 3; Some 4] 1 0 (-1) p))).
Proof.
  intro p.
  destruct (program_inherits_open_descriptors ["wc"]%string [Some 3; Some 4] 1 0 (-1)
              p (snd (run_piped_command ["wc"]%string [Some 3; Some 4] 1 0 (-1) p))
              ["wc"]%string eq_refl) as (H & _).
  apply H. simpl. auto.
Defined.
